(** * endly: workflow runtime and log validation service

    A shallow embedding of [workflowService] (task gating, run criteria,
    registration, workflow execution) and of [logValidatorService]
    (log files, record queues, listen / assert / reset), followed by the
    properties of the embedded code.

    Conventions.
    - A Go [string] is a [string] of bytes ([ascii]); [len] is [String.length].
    - A Go [int] is a [Z].  The integers below are lengths, counts and
      indices of data held in memory, far from the 64-bit bounds; the one
      product of a request field, the wait of [assert] in nanoseconds, is
      wrapped to 64 bits.
    - A Go [error] is [option error]: [None] is [nil].
    - A Go [map] is a [gmap]; ranging over a map visits [map_to_list] of it,
      one of the orders Go may choose.
    - Pointers to immutable objects carry the address they stand for. *)

From Stdlib Require Import ZArith Ascii String List Lia Sorted.
From stdpp Require Import gmap strings list fin_maps.

Set Warnings "-register-all".

Open Scope string_scope.
Open Scope list_scope.
Open Scope Z_scope.

(** ** Go [strings] package, on bytes *)

Definition error := string.

(** [strings.HasPrefix(s, prefix)]. *)
Fixpoint HasPrefix (s prefix : string) {struct prefix} : bool :=
  match prefix with
  | EmptyString => true
  | String a p =>
      match s with
      | EmptyString => false
      | String b r => if Ascii.eqb a b then HasPrefix r p else false
      end
  end.

(** [strings.Contains(s, substr)]. *)
Fixpoint Contains (s substr : string) : bool :=
  if HasPrefix s substr then true
  else match s with
       | EmptyString => false
       | String _ r => Contains r substr
       end.

(** [strings.Split(s, sep)] for a separator of one byte, which is the only
    kind the program passes ([","], ["="], [":"]). *)
Fixpoint Split (s : string) (sep : ascii) : list string :=
  match s with
  | EmptyString => [EmptyString]
  | String c r =>
      if Ascii.eqb c sep then EmptyString :: Split r sep
      else match Split r sep with
           | [] => [String c EmptyString]
           | h :: t => String c h :: t
           end
  end.

(** [strings.Index(s, sep)] for a separator of one byte: the offset of its
    first occurrence, or [-1]. *)
Fixpoint Index (s : string) (sep : ascii) : Z :=
  match s with
  | EmptyString => -1
  | String c r =>
      if Ascii.eqb c sep then 0
      else let i := Index r sep in if i =? -1 then -1 else i + 1
  end.

(** Membership of a byte in a cutset. *)
Fixpoint inCutset (c : ascii) (cutset : string) : bool :=
  match cutset with
  | EmptyString => false
  | String d r => if Ascii.eqb c d then true else inCutset c r
  end.

Fixpoint TrimLeft (s cutset : string) : string :=
  match s with
  | EmptyString => EmptyString
  | String c r => if inCutset c cutset then TrimLeft r cutset else s
  end.

Fixpoint TrimRight (s cutset : string) : string :=
  match s with
  | EmptyString => EmptyString
  | String c r =>
      match TrimRight r cutset with
      | EmptyString => if inCutset c cutset then EmptyString else String c EmptyString
      | t => String c t
      end
  end.

(** [strings.Trim(s, cutset)] for an ASCII cutset. *)
Definition Trim (s cutset : string) : string := TrimRight (TrimLeft s cutset) cutset.

(** [len(s)]. *)
Definition len (s : string) : Z := Z.of_nat (String.length s).

Fixpoint dropBytes (n : nat) (s : string) : string :=
  match n, s with
  | O, _ => s
  | S _, EmptyString => EmptyString
  | S m, String _ r => dropBytes m r
  end.

(** [strings.Replace(s, old, new, 1)]. *)
Fixpoint ReplaceFirst (s old new : string) : string :=
  if HasPrefix s old then new +:+ dropBytes (String.length old) s
  else match s with
       | EmptyString => EmptyString
       | String c r => String c (ReplaceFirst r old new)
       end.

(** ** Values, state maps and events *)

(** A Go [interface{}] value as the state map holds it. *)
Inductive Value : Type :=
| VNil
| VBool (b : bool)
| VInt (n : Z)
| VString (s : string)
| VSlice (items : list Value)
| VMap (entries : gmap string Value)
| VStruct (type : string) (fields : list (string * Value)).

(** [data.Map], a [map[string]interface{}]. *)
Abbreviation State := (gmap string Value).

(** [toolbox.IsMap], [toolbox.IsSlice], [toolbox.IsStruct], [toolbox.IsString]:
    the kind of the dynamic value. *)
Definition IsMap (v : Value) : bool := match v with VMap _ => true | _ => false end.
Definition IsSlice (v : Value) : bool := match v with VSlice _ => true | _ => false end.
Definition IsStruct (v : Value) : bool := match v with VStruct _ _ => true | _ => false end.
Definition IsString (v : Value) : bool := match v with VString _ => true | _ => false end.

(** An event of a context's stream: its type and the [Pairs(...)] it carries. *)
Record Event := mkEvent { evType : string; evValue : list (string * Value) }.

(** [url.Resource]. *)
Record Resource := mkResource { URL : string; Credential : string }.

(** ** Workflow data model *)

(** One rule of a [Variables] binding. *)
Record VariableRule := mkVariable {
  var_Name : string;
  var_From : string;
  var_Value : Value;
  var_Required : bool;
  var_Persist : bool
}.

Abbreviation Variables := (list VariableRule).

Record ServiceAction := mkServiceAction {
  act_Service : string;
  act_Action : string;
  act_Request : Value;
  act_Init : Variables;
  act_Post : Variables;
  act_RunCriteria : string;
  act_Tag : string;
  act_TagIndex : string;
  act_TagId : string;
  act_Description : string;
  act_TagDescription : string;
  act_Async : bool;
  act_SleepInMs : Z
}.

Record WorkflowTask := mkWorkflowTask {
  task_Name : string;
  task_Actions : list ServiceAction;
  task_Init : Variables;
  task_Post : Variables;
  task_RunCriteria : string;
  task_TimeSpentMs : Z
}.

Record Workflow := mkWorkflow {
  wf_Source : Resource;
  wf_Data : State;
  wf_Name : string;
  wf_Tasks : list WorkflowTask;
  wf_Init : Variables;
  wf_Post : Variables;
  wf_SleepInMs : Z
}.

Record WorkflowRunRequest := mkWorkflowRunRequest {
  req_EnableLogging : bool;
  req_LoggingDirectory : string;
  req_WorkflowURL : string;
  req_Name : string;
  req_Params : State;
  req_Tasks : string;
  req_PublishParameters : bool;
  req_Async : bool
}.

Record WorkflowRunResponse := mkWorkflowRunResponse {
  resp_SessionID : string;
  resp_Data : State
}.

(** The part of a [Context] the workflow runtime reads and writes. *)
Record Context := mkContext {
  state : State;
  Events : list Event;
  Workflows : list Workflow;
  SessionID : string;
  EventLogger : option string
}.

(** [context.state.Put(key, v)]. *)
Definition Put (context : Context) (key : string) (v : Value) : Context :=
  mkContext (<[key := v]> (state context)) (Events context) (Workflows context)
            (SessionID context) (EventLogger context).

Definition withState (context : Context) (st : State) : Context :=
  mkContext st (Events context) (Workflows context) (SessionID context) (EventLogger context).

(** [AddEvent(context, eventType, Pairs(...))] appends to the stream. *)
Definition AddEvent (context : Context) (eventType : string) (pairs : list (string * Value)) : Context :=
  mkContext (state context) (Events context ++ [mkEvent eventType pairs]) (Workflows context)
            (SessionID context) (EventLogger context).

(** [workflowService]: the registry, and the session table kept in the
    service state. *)
Record workflowService := mkWorkflowService {
  registry : gmap string Workflow;
  sessions : gset string
}.

(** What the workflow runtime calls outside the files embedded here. *)
Class WorkflowEnv := {
  (** [toolbox.AsInt]. *)
  AsInt : string -> Z;
  (** [strings.TrimSpace]. *)
  TrimSpace : string -> string;
  (** [context.Expand(text)]: [${...}] substitution against the context state. *)
  Expand : State -> string -> string;
  (** [state.Expand(value)] on a value tree. *)
  ExpandValue : State -> Value -> Value;
  (** [(&Validator{}).Check(expected, actual)]. *)
  Check : string -> string -> bool * option error;
  (** [workflow.Validate()]. *)
  Validate : Workflow -> option error;
  (** [variables.Apply(in, out)] for two distinct maps: the written [out] and
      the error. *)
  Apply : Variables -> State -> State -> State * option error;
  (** [variables.Apply(state, state)], source and target being the same map. *)
  ApplyInPlace : Variables -> State -> State * option error;
  (** [state.GetValue(name)]. *)
  GetValue : State -> string -> Value;
  (** [s.Dao.NewRepoResource(state, URI)] and [s.Dao.Load(context, source)]. *)
  NewRepoResource : State -> string -> Resource + error;
  DaoLoad : Context -> Resource -> Workflow + error;
  (** The middle of [runAction]: the service looked up in the context, the
      request expanded and converted, [service.Run] called and its response
      converted to a map.  Services are outside this development. *)
  callService : Context -> ServiceAction -> Context * (State + error);
  (** [runAsyncActions]: the join of the goroutines, one per async action. *)
  runAsyncActions : Context -> Workflow -> WorkflowTask -> WorkflowRunRequest ->
                    list ServiceAction -> Context * option error;
  (** [s.Sleep(context, ms)]. *)
  Sleep : Context -> Z -> Context;
  (** [context.Clone()], [context.Workflow()] and [context.Put(workflowKey, w)]. *)
  Clone : Context -> Context;
  ContextWorkflow : Context -> option Workflow;
  PutWorkflow : Context -> Workflow -> Context;
  (** The constant [neatly.OwnerURL]. *)
  OwnerURL : string;
  (** Milliseconds elapsed since [runTask] started, read off the clock. *)
  elapsedMs : WorkflowTask -> Z;
  (** [s.Begin(context, source, Pairs(...))] and the function [s.End(context)]
      returns, of [AbstractService]. *)
  BeginEvent : Context -> string -> list (string * Value) -> Context;
  EndEvent : Context -> list (string * Value) -> Context
}.

(** ** Workflow runtime *)

Section WorkflowRuntime.
Context `{WorkflowEnv}.

(** [Register]: validate, then store under the workflow name. *)
Definition Register (s : workflowService) (workflow : Workflow)
  : workflowService * option error :=
  match Validate workflow with
  | Some err => (s, Some err)
  | None =>
      (mkWorkflowService (<[wf_Name workflow := workflow]> (registry s)) (sessions s), None)
  end.

Definition HasWorkflow (s : workflowService) (name : string) : bool :=
  bool_decide (is_Some (registry s !! name)).

(** [Workflow(name)]. *)
Definition lookupWorkflow (s : workflowService) (name : string) : Workflow + error :=
  match registry s !! name with
  | Some result => inl result
  | None => inr ("Failed to lookup workflow: " +:+ name)
  end.

(** The [Pairs] of the [EvalRunCriteria] event. *)
Definition WorkflowEvalRunCriteriaEventType : string := "EvalRunCriteria".

(** [evaluateRunCriteria].  With a colon in [criteria] the fragments are two
    or more, so [fragments[0]] and [fragments[1]] are in range. *)
Definition evaluateRunCriteria (context : Context) (criteria : string)
  : Context * (bool * option error) :=
  if String.eqb criteria "" then (context, (true, None))
  else
    let colonPosition := Index criteria ":" in
    if colonPosition =? -1 then
      (context, (false, Some ("Run criteria needs to have colon: but had: " +:+ criteria)))
    else
      let fragments := Split criteria ":" in
      let actualOperand := Expand (state context) (TrimSpace (nth 0 fragments "")) in
      let expectedOperand := Expand (state context) (TrimSpace (nth 1 fragments "")) in
      let '(result, err) := Check expectedOperand actualOperand in
      (AddEvent context WorkflowEvalRunCriteriaEventType
         [("actual", VString actualOperand); ("expected", VString expectedOperand);
          ("eligible", VBool result)],
       (result, err)).

(** The inner loop of [isTaskAllowed]: the action indices after [=]. *)
Definition allowedActions (encoded : string) : gmap Z bool :=
  fold_left (fun actions allowedIndex => <[AsInt allowedIndex := true]> actions)
            (Split encoded ":") ∅.

(** The loop of [isTaskAllowed] over the comma-separated entries.  [actions]
    is [None] for the nil map.  [encodedTask[0]] is read after a [Split],
    which yields one fragment or more, and [encodedTask[1]] where the length
    is 2. *)
Fixpoint isTaskAllowed_entries (candidate : WorkflowTask) (tasks : list string)
  : bool * option (gmap Z bool) :=
  match tasks with
  | [] => (false, None)
  | task :: rest =>
      let encodedTask : list string :=
        if negb (Contains task "=") then Split task "=" else [] in
      let taskName :=
        if negb (Contains task "=") then nth 0 encodedTask "" else task in
      if String.eqb taskName (task_Name candidate) then
        (true,
         if (Z.of_nat (length encodedTask) =? 2)
         then Some (allowedActions (nth 1 encodedTask ""))
         else None)
      else isTaskAllowed_entries candidate rest
  end.

Definition isTaskAllowed (candidate : WorkflowTask) (request : WorkflowRunRequest)
  : bool * option (gmap Z bool) :=
  if String.eqb (req_Tasks request) "" || String.eqb (req_Tasks request) "*"
  then (true, None)
  else isTaskAllowed_entries candidate (Split (req_Tasks request) ",").

Definition variableValue (v : VariableRule) : Value :=
  VStruct "Variable"
    [("Name", VString (var_Name v)); ("From", VString (var_From v)); ("Value", var_Value v);
     ("Required", VBool (var_Required v)); ("Persist", VBool (var_Persist v))].

Definition addVariableEvent (name : string) (variables : Variables) (context : Context)
    (st : State) : Context :=
  if (Z.of_nat (length variables) =? 0) then context
  else
    let values : State :=
      fold_left (fun values variable =>
                   let name := ReplaceFirst (var_Name variable) "->" "" in
                   <[name := GetValue st name]> values)
                variables ∅ in
    AddEvent context name
      [("variables", VSlice (map variableValue variables)); ("values", VMap values)].

Definition loadWorkflow (s : workflowService) (context : Context) (source : Resource)
  : workflowService * (Workflow + error) :=
  match DaoLoad context source with
  | inr err => (s, inr ("Failed to load workflow: " +:+ URL source +:+ ", " +:+ err))
  | inl workflow =>
      match Register s workflow with
      | (s', Some err) =>
          (s', inr ("Failed to register workflow: " +:+ URL source +:+ ", " +:+ err))
      | (s', None) => (s', inl workflow)
      end
  end.

Definition loadWorkflowIfNeeded (s : workflowService) (context : Context)
    (name : string) (URL : string) : workflowService * option error :=
  if negb (HasWorkflow s name) then
    let resource :=
      if String.eqb URL "" then
        NewRepoResource (state context) ("workflow/" +:+ name +:+ ".csv")
      else inl (mkResource URL "") in
    match resource with
    | inr err => (s, Some err)
    | inl workflowResource =>
        match loadWorkflow s context workflowResource with
        | (s', inr err) => (s', Some err)
        | (s', inl _) => (s', None)
        end
    end
  else (s, None).

Definition activityValue (workflowName : string) (action : ServiceAction) (st : State) : Value :=
  VStruct "WorkflowServiceActivity"
    [("Workflow", VString workflowName); ("Action", VString (act_Action action));
     ("Service", VString (act_Service action)); ("TagIndex", VString (act_TagIndex action));
     ("TagId", VString (act_TagId action));
     ("Description", VString (Expand st (act_Description action)));
     ("TagDescription", VString (Expand st (act_TagDescription action)));
     ("Tag", VString (act_Tag action)); ("ServiceRequest", act_Request action)].

Definition lastWorkflowName (context : Context) : string :=
  match last (Workflows context) with
  | Some w => wf_Name w
  | None => ""
  end.

Definition runAction (context : Context) (action : ServiceAction) : Context * option error :=
  let serviceActivity := activityValue (lastWorkflowName context) action (state context) in
  let context := Put context "activity" serviceActivity in
  let context := BeginEvent context "ServiceAction" [("activity", serviceActivity)] in
  let finish (r : Context * option error) : Context * option error :=
    (EndEvent (fst r) [("value", VStruct "WorkflowServiceActivityEndEventType" [])], snd r) in
  finish
    (let '(context, (canRun, err)) := evaluateRunCriteria context (act_RunCriteria action) in
     match err with
     | Some e => (context, Some e)
     | None =>
         if negb canRun then (context, None)
         else
           let '(st, err) := ApplyInPlace (act_Init action) (state context) in
           let context := withState context st in
           let context := addVariableEvent "Action.Init" (act_Init action) context st in
           match err with
           | Some e => (context, Some e)
           | None =>
               match callService context action with
               | (context, inr e) => (context, Some e)
               | (context, inl responseMap) =>
                   let '(st, err) := Apply (act_Post action) responseMap (state context) in
                   let context := withState context st in
                   let context := addVariableEvent "Action.Post" (act_Post action) context st in
                   match err with
                   | Some e => (context, Some e)
                   | None => (Sleep context (act_SleepInMs action), None)
                   end
               end
           end
     end).

(** [allowedServiceActions[i]]; a missing key and the nil map read as [false]. *)
Definition allowedAt (allowedServiceActions : option (gmap Z bool)) (i : Z) : bool :=
  match allowedServiceActions with
  | Some actions => default false (actions !! i)
  | None => false
  end.

(** [len(allowedServiceActions)]. *)
Definition allowedCount (allowedServiceActions : option (gmap Z bool)) : Z :=
  match allowedServiceActions with
  | Some actions => Z.of_nat (size actions)
  | None => 0
  end.

(** The loop of [runTask] over [task.Actions], from index [i]. *)
Fixpoint runTask_actions (context : Context) (workflow : Workflow) (task : WorkflowTask)
    (hasAllowedActions : bool) (allowedServiceActions : option (gmap Z bool))
    (i : Z) (actions asyncActions : list ServiceAction)
  : Context * list ServiceAction * option error :=
  match actions with
  | [] => (context, asyncActions, None)
  | action :: rest =>
      if act_Async action then
        let asyncEvent :=
          VStruct "AsyncServiceActionEvent"
            [("Workflow", VString (wf_Name workflow));
             ("Task", VString (Expand (state context) (task_Name task)));
             ("Description", VString (Expand (state context) (act_Description action)));
             ("Service", VString (act_Service action)); ("Action", VString (act_Action action));
             ("TagId", VString (act_TagId action))] in
        runTask_actions (AddEvent context "AsyncServiceActionEvent" [("value", asyncEvent)])
                        workflow task hasAllowedActions allowedServiceActions (i + 1) rest
                        (asyncActions ++ [action])
      else if hasAllowedActions && negb (allowedAt allowedServiceActions i) then
        runTask_actions context workflow task hasAllowedActions allowedServiceActions
                        (i + 1) rest asyncActions
      else
        match runAction context action with
        | (context, Some err) =>
            (context, asyncActions,
             Some ("Failed to run action:" +:+ act_Tag action +:+ " " +:+ err))
        | (context, None) =>
            runTask_actions context workflow task hasAllowedActions allowedServiceActions
                            (i + 1) rest asyncActions
        end
  end.

Definition runTask (context : Context) (workflow : Workflow) (task : WorkflowTask)
    (request : WorkflowRunRequest) : Context * option error :=
  let context := Put context ":task" (VStruct "WorkflowTask" [("Name", VString (task_Name task))]) in
  let '(taskAllowed, allowedServiceActions) := isTaskAllowed task request in
  if negb taskAllowed then (context, None)
  else
    let hasAllowedActions := 0 <? allowedCount allowedServiceActions in
    let '(st, err) := ApplyInPlace (task_Init task) (state context) in
    let context := withState context st in
    let context := addVariableEvent "Task.Init" (task_Init task) context st in
    match err with
    | Some e => (context, Some e)
    | None =>
        let '(context, (canRun, err)) := evaluateRunCriteria context (task_RunCriteria task) in
        match err with
        | Some e => (context, Some e)
        | None =>
            if negb canRun then (context, None)
            else
              let context := BeginEvent context "WorkflowTask" [("Id", VString (task_Name task))] in
              let finish (r : Context * option error) : Context * option error :=
                (EndEvent (fst r) [], snd r) in
              finish
                (match runTask_actions context workflow task hasAllowedActions
                         allowedServiceActions 0 (task_Actions task) [] with
                 | (context, _, Some e) => (context, Some e)
                 | (context, asyncActions, None) =>
                     match runAsyncActions context workflow task request asyncActions with
                     | (context, Some e) => (context, Some e)
                     | (context, None) =>
                         let '(st, err) := ApplyInPlace (task_Post task) (state context) in
                         let context := withState context st in
                         let context := addVariableEvent "Task.Post" (task_Post task) context st in
                         let context :=
                           if 0 <? task_TimeSpentMs task
                           then Sleep context (task_TimeSpentMs task - elapsedMs task)
                           else context in
                         (context, err)
                     end
                 end)
        end
    end.

Definition buildParamsMap (request : WorkflowRunRequest) (context : Context) : State :=
  (fun v => match v with
            | VString text => VString (Expand (state context) text)
            | _ => v
            end) <$> req_Params request.

Definition workflowValue (workflow : Workflow) : Value :=
  VStruct "Workflow" [("Name", VString (wf_Name workflow)); ("Data", VMap (wf_Data workflow))].

(** The loop of [runWorkflow] over [workflow.Tasks]. *)
Fixpoint runWorkflow_tasks (context : Context) (workflow : Workflow)
    (request : WorkflowRunRequest) (tasks : list WorkflowTask) : Context * option error :=
  match tasks with
  | [] => (context, None)
  | task :: rest =>
      match runTask context workflow task request with
      | (context, Some err) => (context, Some err)
      | (context, None) => runWorkflow_tasks context workflow request rest
      end
  end.

Definition withWorkflows (context : Context) (ws : list Workflow) : Context :=
  mkContext (state context) (Events context) ws (SessionID context) (EventLogger context).

Definition withEventLogger (context : Context) (logger : option string) : Context :=
  mkContext (state context) (Events context) (Workflows context) (SessionID context) logger.

(** [runWorkflow]: the service and the upstream context after the call, with
    the response and the error returned. *)
Definition runWorkflow (s : workflowService) (upstreamContext : Context)
    (request : WorkflowRunRequest)
  : workflowService * Context * (option WorkflowRunResponse * option error) :=
  let upstreamContext :=
    if req_EnableLogging request
    then withEventLogger upstreamContext
           (Some (req_LoggingDirectory request +:+ "/" +:+ SessionID upstreamContext))
    else upstreamContext in
  match loadWorkflowIfNeeded s upstreamContext (req_Name request) (req_WorkflowURL request) with
  | (s, Some err) => (s, upstreamContext, (None, Some err))
  | (s, None) =>
      match lookupWorkflow s (req_Name request) with
      | inr err => (s, upstreamContext, (None, Some err))
      | inl workflow =>
          let upstreamContext :=
            AddEvent upstreamContext "Workflow.Loaded" [("workflow", workflowValue workflow)] in
          let outer := Workflows upstreamContext in
          let upstreamContext := withWorkflows upstreamContext (outer ++ [workflow]) in
          let response := mkWorkflowRunResponse (SessionID upstreamContext) ∅ in
          let upstreamContext :=
            match ContextWorkflow upstreamContext with
            | Some parentWorkflow => PutWorkflow upstreamContext parentWorkflow
            | None => PutWorkflow upstreamContext workflow
            end in
          let context := Clone upstreamContext in
          (* the deferred [Workflows.Pop()] *)
          let upstreamContext := withWorkflows upstreamContext outer in
          if String.eqb (URL (wf_Source workflow)) "" then
            (s, upstreamContext,
             (None, Some ("workflow.Source was empty " +:+ wf_Name workflow)))
          else
            let context := Put context OwnerURL (VString (URL (wf_Source workflow))) in
            let context := Put context "data" (VMap (wf_Data workflow)) in
            let params := buildParamsMap request context in
            let context :=
              if req_PublishParameters request then
                fold_left (fun context kv =>
                             Put context (fst kv) (ExpandValue (state context) (snd kv)))
                          (map_to_list params) context
              else context in
            let context := Put context "params" (VMap params) in
            let '(st, err) := ApplyInPlace (wf_Init workflow) (state context) in
            let context := withState context st in
            let context := addVariableEvent "Workflow.Init" (wf_Init workflow) context st in
            match err with
            | Some e => (s, upstreamContext, (None, Some e))
            | None =>
                let context := AddEvent context "State.Init" [("state", VMap (state context))] in
                match runWorkflow_tasks context workflow request (wf_Tasks workflow) with
                | (context, Some e) => (s, upstreamContext, (None, Some e))
                | (context, None) =>
                    (* [workflow.Post.Apply(state, response.Data)], its error dropped *)
                    let '(data, _) := Apply (wf_Post workflow) (state context) (resp_Data response) in
                    let response := mkWorkflowRunResponse (resp_SessionID response) data in
                    let context :=
                      addVariableEvent "Workflow.Post" (wf_Post workflow) context (state context) in
                    let context :=
                      if 0 <? wf_SleepInMs workflow
                      then Sleep context (wf_SleepInMs workflow) else context in
                    (s, upstreamContext, (Some response, None))
                end
            end
      end
  end.

(** The request variants [Run] dispatches on. *)
Inductive WorkflowRequest :=
| RunRequest (request : WorkflowRunRequest)
| RegisterRequest (workflow : Workflow)
| LoadRequest (source : Resource)
| OtherRequest (type : string).

Inductive ResponseBody :=
| NoBody
| RunBody (response : option WorkflowRunResponse)
| LoadBody (workflow : option Workflow).

Record ServiceResponse := mkServiceResponse {
  Status : string;
  Error : string;
  Response : ResponseBody
}.

Definition startSession (s : workflowService) (context : Context) : workflowService * bool :=
  if bool_decide (SessionID context ∈ sessions s) then (s, false)
  else (mkWorkflowService (registry s) ({[SessionID context]} ∪ sessions s), true).

(** [Run].  With [Async] set the workflow runs in a goroutine after [Run] has
    returned; that run is not part of the value computed here.  [isAsyncRequest]
    is inlined. *)
Definition Run (s : workflowService) (context : Context) (request : WorkflowRequest)
  : workflowService * Context * ServiceResponse :=
  let '(s, startedSession) := startSession s context in
  let context := BeginEvent context "request" [] in
  let '(s, context, (body, errorText)) :=
    match request with
    | RunRequest actualRequest =>
        if req_Async actualRequest then
          (s, context, (RunBody (Some (mkWorkflowRunResponse (SessionID context) ∅)), ""))
        else
          match runWorkflow s context actualRequest with
          | (s, context, (response, Some err)) =>
              (s, context,
               (RunBody response,
                "Failed to run workflow: " +:+ req_Name actualRequest +:+ ", " +:+ err))
          | (s, context, (response, None)) => (s, context, (RunBody response, ""))
          end
    | RegisterRequest workflow =>
        match Register s workflow with
        | (s, Some err) =>
            (s, context,
             (NoBody, "Failed to register workflow: " +:+ wf_Name workflow +:+ ", " +:+ err))
        | (s, None) => (s, context, (NoBody, ""))
        end
    | LoadRequest source =>
        match loadWorkflow s context source with
        | (s, inr err) => (s, context, (LoadBody None, err))
        | (s, inl workflow) => (s, context, (LoadBody (Some workflow), ""))
        end
    | OtherRequest type => (s, context, (NoBody, "Unsupported request type: " +:+ type))
    end in
  let status := if negb (String.eqb errorText "") then "err" else "ok" in
  (* the deferred calls: [End] unless the request is asynchronous, then
     [reportErrorIfNeeded] *)
  let isAsyncRequest :=
    match request with
    | RunRequest runRequest => req_Async runRequest
    | _ => false
    end in
  let context :=
    if negb isAsyncRequest
    then EndEvent context [("response", VStruct "ServiceResponse" [("Status", VString status);
                                                                   ("Error", VString errorText)])]
    else context in
  let context :=
    if negb (String.eqb errorText "")
    then AddEvent context "ErrorEventType" [("value", VString errorText)]
    else context in
  (s, context, mkServiceResponse status errorText body).

End WorkflowRuntime.

(** ** Log validation: data model *)

(** The outcome of a call that may return an error or panic. *)
Inductive Result (A : Type) : Type :=
| Ok (a : A)
| Err (e : error)
| Panic.
Arguments Ok {A} a.
Arguments Err {A} e.
Arguments Panic {A}.

(** Package [regexp]. *)
Class RegexpLib := {
  Regexp : Type;
  (** [regexp.Compile(expr)]. *)
  Compile : string -> Regexp + error;
  (** [expr.MatchString(input)]. *)
  MatchString : Regexp -> string -> bool;
  (** [expr.FindStringSubmatch(input)]: the match and its groups, or nil. *)
  FindStringSubmatch : Regexp -> string -> list string
}.

Record LogType := mkLogType {
  lt_Name : string;
  lt_Format : string;
  lt_Mask : string;
  lt_Inclusion : string;
  lt_Exclusion : string;
  lt_IndexRegExpr : string
}.

(** Modelled from the spec: [LogType.UseIndex], declared outside the files at
    hand.  A log type is indexed when it has an [IndexRegExpr]. *)
Definition UseIndex (t : LogType) : bool := negb (String.eqb (lt_IndexRegExpr t) "").

(** Modelled from the spec: [LogType.GetIndexExpr], declared outside the files
    at hand.  The index expression is the compiled [IndexRegExpr]. *)
Definition GetIndexExpr `{RegexpLib} (t : LogType) : Regexp + error :=
  Compile (lt_IndexRegExpr t).

Record LogProcessingState := mkLogProcessingState {
  ps_Line : Z;
  ps_Position : Z
}.

(** [LogProcessingState.Update]: the new state; the Go method also returns
    [("", 0)], which the caller assigns to [line] and [dataProcessed]. *)
Definition LogProcessingState_Update (s : LogProcessingState) (position lineNumber : Z)
  : LogProcessingState :=
  mkLogProcessingState lineNumber (ps_Position s + position).

Definition LogProcessingState_Reset (s : LogProcessingState) : LogProcessingState :=
  mkLogProcessingState 0 0.

(** A [*LogRecord]: the address of the object and its fields, which nothing
    writes once the record is allocated.  Two pointers are [==] when their
    addresses are. *)
Record LogRecord := mkLogRecord {
  rec_addr : nat;
  rec_URL : string;
  rec_Number : Z;
  rec_Line : string
}.

Definition samePointer (a b : LogRecord) : bool := Nat.eqb (rec_addr a) (rec_addr b).

(** [LogFile], without its mutex: calls are taken one at a time.  Times are
    nanoseconds since the epoch. *)
Record LogFile := mkLogFile {
  lf_URL : string;
  lf_Content : string;
  lf_Name : string;
  lf_LogType : LogType;
  lf_ProcessingState : LogProcessingState;
  lf_LastModified : Z;
  lf_Size : Z;
  lf_Records : list LogRecord;
  lf_IndexedRecords : gmap string LogRecord
}.

Definition withRecords (f : LogFile) (records : list LogRecord) : LogFile :=
  mkLogFile (lf_URL f) (lf_Content f) (lf_Name f) (lf_LogType f) (lf_ProcessingState f)
            (lf_LastModified f) (lf_Size f) records (lf_IndexedRecords f).

Definition withIndexedRecords (f : LogFile) (indexed : gmap string LogRecord) : LogFile :=
  mkLogFile (lf_URL f) (lf_Content f) (lf_Name f) (lf_LogType f) (lf_ProcessingState f)
            (lf_LastModified f) (lf_Size f) (lf_Records f) indexed.

Definition withProcessingState (f : LogFile) (ps : LogProcessingState) : LogFile :=
  mkLogFile (lf_URL f) (lf_Content f) (lf_Name f) (lf_LogType f) ps
            (lf_LastModified f) (lf_Size f) (lf_Records f) (lf_IndexedRecords f).

Definition withContent (f : LogFile) (content : string) : LogFile :=
  mkLogFile (lf_URL f) content (lf_Name f) (lf_LogType f) (lf_ProcessingState f)
            (lf_LastModified f) (lf_Size f) (lf_Records f) (lf_IndexedRecords f).

Definition withSize (f : LogFile) (size : Z) : LogFile :=
  mkLogFile (lf_URL f) (lf_Content f) (lf_Name f) (lf_LogType f) (lf_ProcessingState f)
            (lf_LastModified f) size (lf_Records f) (lf_IndexedRecords f).

Definition withLastModified (f : LogFile) (t : Z) : LogFile :=
  mkLogFile (lf_URL f) (lf_Content f) (lf_Name f) (lf_LogType f) (lf_ProcessingState f)
            t (lf_Size f) (lf_Records f) (lf_IndexedRecords f).

(** ** Log validation: the record queue of a file *)

(** [ShiftLogRecord]: the file after the call and the record returned
    ([None] for nil). *)
Definition ShiftLogRecord (f : LogFile) : LogFile * option LogRecord :=
  match lf_Records f with
  | [] => (f, None)
  | result :: rest => (withRecords f rest, Some result)
  end.

(** The loop of [ShiftLogRecordByIndex] that rebuilds [Records] without
    [result]. *)
Definition recordsWithout (result : LogRecord) (records : list LogRecord) : list LogRecord :=
  fold_left (fun records candidate =>
               if samePointer candidate result then records else records ++ [candidate])
            records [].

Definition ShiftLogRecordByIndex (f : LogFile) (value : string) : LogFile * option LogRecord :=
  match lf_Records f with
  | [] => (f, None)
  | head :: rest =>
      match lf_IndexedRecords f !! value with
      | None => (withRecords f rest, Some head)
      | Some result => (withRecords f (recordsWithout result (lf_Records f)), Some result)
      end
  end.

Definition matchLogIndex `{RegexpLib} (expr : Regexp) (input : string) : string :=
  if MatchString expr input then
    let matches := FindStringSubmatch expr input in
    if 1 <? Z.of_nat (length matches) then nth 1 matches "" else ""
  else "".

Definition PushLogRecord `{RegexpLib} (f : LogFile) (record : LogRecord) : LogFile :=
  let f := withRecords f (lf_Records f ++ [record]) in
  if UseIndex (lf_LogType f) then
    match GetIndexExpr (lf_LogType f) with
    | inl expr =>
        let indexValue := matchLogIndex expr (rec_Line record) in
        if negb (String.eqb indexValue "")
        then withIndexedRecords f (<[indexValue := record]> (lf_IndexedRecords f))
        else f
    | inr _ => f
    end
  else f.

Definition HasPendingLogs (f : LogFile) : bool := 0 <? Z.of_nat (length (lf_Records f)).

(** [storage.Object], as far as the service reads it. *)
Record Object := mkObject {
  obj_URL : string;
  obj_IsFolder : bool;
  obj_Size : Z;
  obj_ModTime : Z
}.

(** [LogFile.Reset(object)]. *)
Definition LogFile_Reset (f : LogFile) (object : Object) : LogFile :=
  withProcessingState
    (withLastModified (withSize f (obj_Size object)) (obj_ModTime object))
    (LogProcessingState_Reset (lf_ProcessingState f)).

(** ** Log validation: reading a file *)

Definition LF : ascii := "010"%char.
Definition CR : ascii := "013"%char.
Definition TAB : ascii := "009"%char.

(** [string(data[i])]: the UTF-8 encoding of the code point the byte names. *)
Definition byteString (b : ascii) : string :=
  let n := nat_of_ascii b in
  if (n <? 128)%nat then String b EmptyString
  else String (ascii_of_nat (192 + n / 64))
              (String (ascii_of_nat (128 + n mod 64)) EmptyString).

(** The variables of the loop of [readLogRecords], with the count of
    [LogRecord] objects allocated so far. *)
Record scanState := mkScanState {
  scan_file : LogFile;
  scan_allocated : nat;
  scan_line : string;
  scan_lineIndex : Z;
  scan_dataProcessed : Z
}.

(** [line, dataProcessed = f.ProcessingState.Update(dataProcessed, lineIndex)]. *)
Definition scanUpdate (f : LogFile) (allocated : nat) (lineIndex dataProcessed : Z) : scanState :=
  mkScanState
    (withProcessingState f
       (LogProcessingState_Update (lf_ProcessingState f) dataProcessed lineIndex))
    allocated "" lineIndex 0.

(** One turn of the loop of [readLogRecords], at byte [b]. *)
Definition readLogRecords_step `{RegexpLib} (st : scanState) (b : ascii) : scanState :=
  let f := scan_file st in
  let dataProcessed := scan_dataProcessed st + 1 in
  let aChar := byteString b in
  if negb (String.eqb aChar (String LF "")) && negb (String.eqb aChar (String CR "")) then
    mkScanState f (scan_allocated st) (scan_line st +:+ aChar) (scan_lineIndex st) dataProcessed
  else
    let line := Trim (scan_line st) (String " " (String CR (String TAB ""))) in
    let lineIndex := scan_lineIndex st + 1 in
    let Exclusion := lt_Exclusion (lf_LogType f) in
    let Inclusion := lt_Inclusion (lf_LogType f) in
    if negb (String.eqb Exclusion "") && Contains line Exclusion then
      scanUpdate f (scan_allocated st) lineIndex dataProcessed
    else if negb (String.eqb Inclusion "") && negb (Contains line Inclusion) then
      scanUpdate f (scan_allocated st) lineIndex dataProcessed
    else if 0 <? len line then
      scanUpdate
        (PushLogRecord f (mkLogRecord (scan_allocated st) (lf_URL f) lineIndex line))
        (S (scan_allocated st)) lineIndex dataProcessed
    else scanUpdate f (scan_allocated st) lineIndex dataProcessed.

Fixpoint readLogRecords_loop `{RegexpLib} (st : scanState) (data : string) : scanState :=
  match data with
  | EmptyString => st
  | String b rest => readLogRecords_loop (readLogRecords_step st b) rest
  end.

(** [readLogRecords] on the bytes read.  [allocated] counts the [LogRecord]
    objects of the heap.  A negative [Position] indexes [data] out of range. *)
Definition readLogRecords `{RegexpLib} (f : LogFile) (allocated : nat) (data : string)
  : Result (LogFile * nat) :=
  let Position := ps_Position (lf_ProcessingState f) in
  if len data <? Position then Ok (f, allocated)
  else if Position <? 0 then Panic
  else
    let st :=
      readLogRecords_loop
        (mkScanState f allocated "" (ps_Line (lf_ProcessingState f)) 0)
        (dropBytes (Z.to_nat Position) data) in
    Ok (scan_file st, scan_allocated st).

Record LogTypeMeta := mkLogTypeMeta {
  meta_Source : Resource;
  meta_LogType : LogType;
  meta_LogFiles : gmap string LogFile
}.

Definition NewLogTypeMeta (source : Resource) (logType : LogType) : LogTypeMeta :=
  mkLogTypeMeta source logType ∅.

Definition logTypeMetaKey (name : string) : string := "meta_" +:+ name.

Record LogValidatorListenRequest := mkListenRequest {
  listen_FrequencyMs : Z;
  listen_Source : Resource;
  listen_Types : list LogType
}.

(** [logValidatorService]: its state map, which holds a [*LogTypeMeta] under
    each [meta_<name>] key and nothing else; the count of [LogRecord] objects
    allocated; the tailer goroutines started, by the request each serves. *)
Record logValidatorService := mkLogValidatorService {
  metas : gmap string LogTypeMeta;
  allocated : nat;
  tailers : list LogValidatorListenRequest
}.

Definition withMetas (s : logValidatorService) (m : gmap string LogTypeMeta)
  : logValidatorService :=
  mkLogValidatorService m (allocated s) (tailers s).

(** [storage.Service]: [List], and [Download] followed by [ioutil.ReadAll]. *)
Record StorageService := mkStorageService {
  storage_List : string -> list Object + error;
  storage_Download : Object -> string + error
}.

(** [assertly.Failure] and [assertly.Validation], with the two methods the
    service calls on a validation. *)
Record Failure := mkFailure {
  fail_Source : string;
  fail_Path : string;
  fail_Message : string;
  fail_Expected : Value;
  fail_Actual : Value
}.

Record Validation := mkValidation {
  val_TagID : string;
  val_Description : string;
  val_PassedCount : Z;
  val_Failures : list Failure
}.

Definition AddFailure (v : Validation) (failure : Failure) : Validation :=
  mkValidation (val_TagID v) (val_Description v) (val_PassedCount v)
               (val_Failures v ++ [failure]).

Definition MergeFrom (v source : Validation) : Validation :=
  mkValidation (val_TagID v) (val_Description v)
               (val_PassedCount v + val_PassedCount source)
               (val_Failures v ++ val_Failures source).

(** What the log validator calls outside the files embedded here. *)
Class LogEnv := {
  LogEnv_regexp :: RegexpLib;
  (** [toolbox.AsString], [toolbox.AsJSONText] and the [%v] of an [int]. *)
  AsString : Value -> string;
  AsJSONText : Value -> string;
  FormatInt : Z -> string;
  (** The JSON decoder [LogRecord.AsMap] runs on a line. *)
  DecodeJSON : string -> State + error;
  (** [Assert(context, root, expected, actual)]. *)
  Assert : Context -> string -> Value -> Value -> Context * (Validation + error);
  (** What the tailer goroutines have done to the service when the [n]-th
      [time.Sleep] of a call, of [d] nanoseconds, returns. *)
  whileSleeping : nat -> Z -> logValidatorService -> logValidatorService;
  (** [toolbox.URLSplit(URL)]: the parent and the name. *)
  URLSplit : string -> string * string;
  (** [context.ExpandResource(resource)]. *)
  ExpandResource : Context -> Resource -> Resource + error;
  (** [storage.NewServiceForURL(URL, credential)] and
      [storage.NewMemoryService()]. *)
  NewServiceForURL : string -> string -> StorageService + error;
  NewMemoryService : StorageService;
  (** The constant [UseMemoryService]. *)
  UseMemoryService : string
}.

(** [strings.Replace(s, old, new, len(s))] for [old] of one byte: every
    occurrence is replaced. *)
Fixpoint ReplaceAll (s : string) (old : ascii) (new : string) : string :=
  match s with
  | EmptyString => EmptyString
  | String c r => (if Ascii.eqb c old then new else String c EmptyString) +:+ ReplaceAll r old new
  end.

(** [t.Unix()]: whole seconds. *)
Definition Unix (t : Z) : Z := t / 1000000000.

Section LogValidator.
Context `{LogEnv}.

(** Writes made through the [*LogFile] held in [LogFiles[name]] of the meta
    under [key]. *)
Definition storeLogFile (s : logValidatorService) (key name : string) (f : LogFile)
  : logValidatorService :=
  withMetas s
    (alter (fun m => mkLogTypeMeta (meta_Source m) (meta_LogType m)
                                   (<[name := f]> (meta_LogFiles m)))
           key (metas s)).

(** [readLogFile]: the service after the call, and the meta or the error
    returned. *)
Definition readLogFile (s : logValidatorService) (source : Resource)
    (service : StorageService) (candidate : Object) (logType : LogType)
  : logValidatorService * Result LogTypeMeta :=
  let key := logTypeMetaKey (lt_Name logType) in
  let s :=
    if bool_decide (is_Some (metas s !! key)) then s
    else withMetas s (<[key := NewLogTypeMeta source logType]> (metas s)) in
  match metas s !! key with
  | None => (s, Panic)
  | Some result =>
      let name := snd (URLSplit (obj_URL candidate)) in
      let '(isNewLogFile, logFile) :=
        match meta_LogFiles result !! name with
        | Some logFile => (false, logFile)
        | None =>
            (true,
             mkLogFile (obj_URL candidate) "" name logType (mkLogProcessingState 0 0)
                       (obj_ModTime candidate) (obj_Size candidate) [] ∅)
        end in
      let s := storeLogFile s key name logFile in
      let answer (s : logValidatorService) : Result LogTypeMeta :=
        match metas s !! key with
        | Some result => Ok result
        | None => Panic
        end in
      if negb isNewLogFile
         && ((lf_Size logFile =? obj_Size candidate)
             && (Unix (lf_LastModified logFile) =? Unix (obj_ModTime candidate)))
      then (s, answer s)
      else
        match storage_Download service candidate with
        | inr err => (s, Err err)
        | inl content =>
            let '(logFile, fileOverridden) :=
              if len content <? len (lf_Content logFile)
              then (withContent (LogFile_Reset logFile candidate) content, true)
              else (logFile, false) in
            let logFile :=
              if negb fileOverridden
                 && (lf_Size logFile <? obj_Size candidate)
                 && negb (HasPrefix content (lf_Content logFile))
              then LogFile_Reset logFile candidate
              else logFile in
            let logFile := withSize (withContent logFile content) (len content) in
            if 0 <? len content then
              match readLogRecords logFile (allocated s) content with
              | Ok (logFile, allocated') =>
                  let s := storeLogFile s key name logFile in
                  let s := mkLogValidatorService (metas s) allocated' (tailers s) in
                  (s, answer s)
              | Err err => (storeLogFile s key name logFile, Err err)
              | Panic => (storeLogFile s key name logFile, Panic)
              end
            else
              let s := storeLogFile s key name logFile in
              (s, answer s)
        end
  end.

(** The loop of [readLogFiles] over the log types, for one candidate. *)
Fixpoint readLogFiles_types (s : logValidatorService) (source : Resource)
    (service : StorageService) (candidate : Object) (logTypes : list LogType)
    (response : gmap string LogTypeMeta)
  : logValidatorService * Result (gmap string LogTypeMeta) :=
  match logTypes with
  | [] => (s, Ok response)
  | logType :: rest =>
      let mask := ReplaceAll (lt_Mask logType) "*" ".+" in
      match Compile ("^" +:+ mask +:+ "$") with
      | inr err => (s, Err err)
      | inl maskExpression =>
          let name := snd (URLSplit (obj_URL candidate)) in
          if MatchString maskExpression name then
            match readLogFile s source service candidate logType with
            | (s, Ok logTypeMeta) =>
                readLogFiles_types s source service candidate rest
                                   (<[lt_Name logType := logTypeMeta]> response)
            | (s, Err err) => (s, Err err)
            | (s, Panic) => (s, Panic)
            end
          else readLogFiles_types s source service candidate rest response
      end
  end.

(** The loop of [readLogFiles] over the candidates. *)
Fixpoint readLogFiles_candidates (s : logValidatorService) (source : Resource)
    (service : StorageService) (candidates : list Object) (logTypes : list LogType)
    (response : gmap string LogTypeMeta)
  : logValidatorService * Result (gmap string LogTypeMeta) :=
  match candidates with
  | [] => (s, Ok response)
  | candidate :: rest =>
      if obj_IsFolder candidate then
        readLogFiles_candidates s source service rest logTypes response
      else
        match readLogFiles_types s source service candidate logTypes response with
        | (s, Ok response) => readLogFiles_candidates s source service rest logTypes response
        | (s, Err err) => (s, Err err)
        | (s, Panic) => (s, Panic)
        end
  end.

Definition readLogFiles (s : logValidatorService) (context : Context)
    (service : StorageService) (source : Resource) (logTypes : list LogType)
  : logValidatorService * Result (gmap string LogTypeMeta) :=
  match ExpandResource context source with
  | inr err => (s, Err err)
  | inl source =>
      match storage_List service (URL source) with
      | inr err => (s, Err err)
      | inl candidates => readLogFiles_candidates s source service candidates logTypes ∅
      end
  end.

Definition getStorageService (context : Context) (resource : Resource)
  : StorageService + error :=
  if bool_decide (is_Some (state context !! UseMemoryService)) then inl NewMemoryService
  else NewServiceForURL (URL resource) (Credential resource).

(** [listenForChanges]: the goroutine it starts is entered in [tailers]. *)
Definition listenForChanges (s : logValidatorService) (context : Context)
    (request : LogValidatorListenRequest) : logValidatorService * option error :=
  match ExpandResource context (listen_Source request) with
  | inr err => (s, Some err)
  | inl target =>
      match getStorageService context target with
      | inr err => (s, Some err)
      | inl service =>
          (mkLogValidatorService (metas s) (allocated s) (tailers s ++ [request]), None)
      end
  end.

Record LogValidatorListenResponse := mkListenResponse {
  listen_Meta : gmap string LogTypeMeta
}.

(** The first loop of [listen]: the first requested type already registered. *)
Fixpoint listen_registered (s : logValidatorService) (types : list LogType) : option string :=
  match types with
  | [] => None
  | logType :: rest =>
      if bool_decide (is_Some (metas s !! logTypeMetaKey (lt_Name logType)))
      then Some (lt_Name logType)
      else listen_registered s rest
  end.

(** The last loop of [listen]: every requested type gets its meta installed. *)
Fixpoint listen_install (s : logValidatorService) (source : Resource)
    (types : list LogType) (logTypeMetas : gmap string LogTypeMeta)
  : logValidatorService * gmap string LogTypeMeta :=
  match types with
  | [] => (s, logTypeMetas)
  | logType :: rest =>
      let '(logMeta, logTypeMetas) :=
        match logTypeMetas !! lt_Name logType with
        | Some logMeta => (logMeta, logTypeMetas)
        | None =>
            let logMeta := NewLogTypeMeta source logType in
            (logMeta, <[lt_Name logType := logMeta]> logTypeMetas)
        end in
      listen_install
        (withMetas s (<[logTypeMetaKey (lt_Name logType) := logMeta]> (metas s)))
        source rest logTypeMetas
  end.

(** [listen].  The response Go returns next to a non-nil error of
    [listenForChanges] is not kept. *)
Definition listen (s : logValidatorService) (context : Context)
    (request : LogValidatorListenRequest)
  : logValidatorService * Result LogValidatorListenResponse :=
  match ExpandResource context (listen_Source request) with
  | inr err => (s, Err err)
  | inl source =>
      match listen_registered s (listen_Types request) with
      | Some name => (s, Err ("listener has been already register for " +:+ name))
      | None =>
          match NewServiceForURL (URL (listen_Source request))
                                 (Credential (listen_Source request)) with
          | inr err => (s, Err err)
          | inl service =>
              match readLogFiles s context service (listen_Source request)
                                 (listen_Types request) with
              | (s, Err err) => (s, Err err)
              | (s, Panic) => (s, Panic)
              | (s, Ok logTypeMetas) =>
                  let '(s, logTypeMetas) :=
                    listen_install s source (listen_Types request) logTypeMetas in
                  match listenForChanges s context request with
                  | (s, Some err) => (s, Err err)
                  | (s, None) => (s, Ok (mkListenResponse logTypeMetas))
                  end
              end
          end
      end
  end.

(** ** Log validation: reset *)

Record LogValidatorResetRequest := mkResetRequest { reset_LogTypes : list string }.
Record LogValidatorResetResponse := mkResetResponse { reset_LogFiles : list string }.

(** The body of the inner loop of [reset], on one file. *)
Definition resetLogFile (logFile : LogFile) : LogFile :=
  withRecords
    (withProcessingState logFile
       (mkLogProcessingState (Z.of_nat (length (lf_Records logFile))) (lf_Size logFile)))
    [].

(** The inner loop of [reset], over the files of one meta. *)
Definition reset_files (logFiles : gmap string LogFile) (names : list string)
  : gmap string LogFile * list string :=
  fold_left (fun acc entry =>
               (<[fst entry := resetLogFile (snd entry)]> (fst acc),
                snd acc ++ [lf_Name (snd entry)]))
            (map_to_list logFiles) (logFiles, names).

(** The outer loop of [reset], over the requested names. *)
Fixpoint reset_types (s : logValidatorService) (logTypes : list string) (names : list string)
  : logValidatorService * list string :=
  match logTypes with
  | [] => (s, names)
  | logTypeName :: rest =>
      match metas s !! logTypeMetaKey logTypeName with
      | None => reset_types s rest names
      | Some logTypeMeta =>
          let '(logFiles, names) := reset_files (meta_LogFiles logTypeMeta) names in
          reset_types
            (withMetas s
               (<[logTypeMetaKey logTypeName :=
                    mkLogTypeMeta (meta_Source logTypeMeta) (meta_LogType logTypeMeta) logFiles]>
                  (metas s)))
            rest names
      end
  end.

(** [reset]: the service after the call, the response and the error. *)
Definition reset (s : logValidatorService) (context : Context)
    (request : LogValidatorResetRequest)
  : logValidatorService * (LogValidatorResetResponse * option error) :=
  let '(s, names) := reset_types s (reset_LogTypes request) [] in
  (s, (mkResetResponse names, None)).

(** ** Log validation: the record iterator *)

(** [logRecordIterator].  The provider closes over a [*LogTypeMeta], named here
    by its key in the service state; a [*LogFile] of that meta is named by its
    key in [LogFiles].  [logFileIndex] starts at 0 and only grows. *)
Record logRecordIterator := mkIterator {
  it_meta : string;
  it_logFiles : list string;
  it_logFileIndex : nat
}.

(** The [less] of [sort.Slice] in the provider: later [LastModified] first,
    then greater [URL] first. *)
Definition logFileBefore (left right : LogFile) : bool :=
  if lf_LastModified left =? lf_LastModified right
  then String.ltb (lf_URL right) (lf_URL left)
  else lf_LastModified right <? lf_LastModified left.

Fixpoint insertLogFile (x : string * LogFile) (sorted : list (string * LogFile))
  : list (string * LogFile) :=
  match sorted with
  | [] => [x]
  | y :: rest =>
      if logFileBefore (snd x) (snd y) then x :: sorted else y :: insertLogFile x rest
  end.

(** [logFileProvider()]: the files of the meta, sorted. *)
Definition logFileProvider (s : logValidatorService) (key : string) : list string :=
  match metas s !! key with
  | Some m => fst <$> foldr insertLogFile [] (map_to_list (meta_LogFiles m))
  | None => []
  end.

(** [LogTypeMeta.LogRecordIterator()]. *)
Definition LogRecordIterator (s : logValidatorService) (key : string) : logRecordIterator :=
  mkIterator key (logFileProvider s key) 0.

(** [candidate.HasPendingLogs()] through a [*LogFile]. *)
Definition pendingLogs (s : logValidatorService) (key name : string) : bool :=
  match metas s !! key with
  | Some m =>
      match meta_LogFiles m !! name with
      | Some logFile => HasPendingLogs logFile
      | None => false
      end
  | None => false
  end.

(** The scan of [HasNext] from [logFileIndex] on: the index of the first file
    with pending logs.  Each step is one [logFileIndex++] and recursive call. *)
Fixpoint HasNext_scan (s : logValidatorService) (key : string) (logFiles : list string)
    (logFileIndex : nat) : option nat :=
  match logFiles with
  | [] => None
  | name :: rest =>
      if pendingLogs s key name then Some logFileIndex
      else HasNext_scan s key rest (S logFileIndex)
  end.

(** [HasNext]: the iterator after the call, and the answer. *)
Definition HasNext (s : logValidatorService) (i : logRecordIterator)
  : logRecordIterator * bool :=
  match HasNext_scan s (it_meta i) (drop (it_logFileIndex i) (it_logFiles i))
                     (it_logFileIndex i) with
  | Some j => (mkIterator (it_meta i) (it_logFiles i) j, true)
  | None =>
      let logFileIndex := Nat.max (it_logFileIndex i) (length (it_logFiles i)) in
      let logFiles := logFileProvider s (it_meta i) in
      match HasNext_scan s (it_meta i) logFiles 0 with
      | Some j => (mkIterator (it_meta i) logFiles j, true)
      | None => (mkIterator (it_meta i) logFiles logFileIndex, false)
      end
  end.

(** The pointer handed to [Next]. *)
Inductive ItemPointer :=
| IndexedLogRecordPointer (IndexValue : string)
| LogRecordPointer
| OtherPointer (type : string).

(** [Next]: the service after the call and the record stored through the
    pointer ([None] for nil). *)
Definition Next (s : logValidatorService) (i : logRecordIterator) (itemPointer : ItemPointer)
  : logValidatorService * Result (option LogRecord) :=
  let shift (op : LogFile -> LogFile * option LogRecord) :=
    match it_logFiles i !! it_logFileIndex i with
    | None => (s, Panic)
    | Some name =>
        match metas s !! it_meta i with
        | None => (s, Panic)
        | Some m =>
            match meta_LogFiles m !! name with
            | None => (s, Panic)
            | Some logFile =>
                let '(logFile, logRecord) := op logFile in
                (storeLogFile s (it_meta i) name logFile, Ok logRecord)
            end
        end
    end in
  match itemPointer with
  | IndexedLogRecordPointer IndexValue =>
      shift (fun logFile => ShiftLogRecordByIndex logFile IndexValue)
  | LogRecordPointer => shift ShiftLogRecord
  | OtherPointer type => (s, Err ("expected **endly.LogRecord buy had " +:+ type))
  end.

(** ** Log validation: assert *)

Record ExpectedLogRecord := mkExpectedLogRecord {
  exp_TagID : string;
  exp_Type : string;
  exp_Records : list Value
}.

Record LogValidatorAssertRequest := mkAssertRequest {
  assert_Description : string;
  assert_LogWaitTimeMs : Z;
  assert_LogWaitRetryCount : Z;
  assert_ExpectedLogRecords : list ExpectedLogRecord
}.

Record LogValidatorAssertResponse := mkAssertResponse {
  assert_Description' : string;
  assert_Validations : list Validation
}.

(** An [int64] product, wrapped. *)
Definition wrap64 (z : Z) : Z := (z + 2 ^ 63) mod 2 ^ 64 - 2 ^ 63.

(** [time.Duration(ms) * time.Millisecond], in nanoseconds. *)
Definition millisecondsDuration (ms : Z) : Z := wrap64 (ms * 1000000).

Definition getLogTypeMeta (s : logValidatorService) (expectedLogRecords : ExpectedLogRecord)
  : Result LogTypeMeta :=
  let key := logTypeMetaKey (exp_Type expectedLogRecords) in
  match metas s !! key with
  | None =>
      Err ("failed to assert, unknown type:" +:+ exp_Type expectedLogRecords
           +:+ ", please call listen function with requested log type")
  | Some logTypeMeta => Ok logTypeMeta
  end.

(** What [assert] threads through its loops.  [as_sleeps] counts the
    [time.Sleep] calls made so far. *)
Record assertState := mkAssertState {
  as_service : logValidatorService;
  as_context : Context;
  as_iterator : logRecordIterator;
  as_response : LogValidatorAssertResponse;
  as_sleeps : nat
}.

Definition sleepEvent (logWaitDuration : Z) : Event :=
  mkEvent "SleepEventType"
    [("value", VStruct "SleepEventType" [("SleepTimeMs", VInt (logWaitDuration ÷ 1000000))])].

(** The loop [for j := 0; j < logWaitRetryCount; j++], with [rounds] turns
    left. *)
Fixpoint assert_wait (rounds : nat) (logWaitDuration : Z) (a : assertState) : assertState :=
  match rounds with
  | O => a
  | S rounds =>
      let '(i, available) := HasNext (as_service a) (as_iterator a) in
      if available then
        mkAssertState (as_service a) (as_context a) i (as_response a) (as_sleeps a)
      else
        let sleepEventType := sleepEvent logWaitDuration in
        let context :=
          AddEvent (as_context a) (evType sleepEventType) (evValue sleepEventType) in
        assert_wait rounds logWaitDuration
          (mkAssertState (whileSleeping (as_sleeps a) logWaitDuration (as_service a))
                         context i (as_response a) (S (as_sleeps a)))
  end.

(** Writes made through the [*Validation] appended last to [Validations]. *)
Definition updateValidation (response : LogValidatorAssertResponse) (validation : Validation)
  : LogValidatorAssertResponse :=
  mkAssertResponse (assert_Description' response)
                   (removelast (assert_Validations response) ++ [validation]).

Definition validationValue (v : Validation) : Value :=
  VStruct "Validation"
    [("TagID", VString (val_TagID v)); ("PassedCount", VInt (val_PassedCount v));
     ("FailedCount", VInt (Z.of_nat (length (val_Failures v))))].

(** Where the body of a loop of [assert] leaves: on to the next turn, or out
    of [assert] with what it returns. *)
Inductive Flow :=
| Continue (a : assertState)
| Return (a : assertState) (r : Result LogValidatorAssertResponse).

(** The body of the loop over [expectedLogRecords.Records]. *)
Definition assert_record (request : LogValidatorAssertRequest)
    (expectedLogRecords : ExpectedLogRecord) (logTypeMeta : LogTypeMeta)
    (expectedLogRecord : Value) (a : assertState) : Flow :=
  let logWaitRetryCount := assert_LogWaitRetryCount request in
  let logWaitDuration := millisecondsDuration (assert_LogWaitTimeMs request) in
  let validation :=
    mkValidation (exp_TagID expectedLogRecords)
                 ("Log Validation: " +:+ exp_Type expectedLogRecords) 0 [] in
  let response :=
    mkAssertResponse (assert_Description' (as_response a))
                     (assert_Validations (as_response a) ++ [validation]) in
  let a := mkAssertState (as_service a) (as_context a) (as_iterator a) response (as_sleeps a) in
  let a := assert_wait (Z.to_nat logWaitRetryCount) logWaitDuration a in
  let '(i, available) := HasNext (as_service a) (as_iterator a) in
  let a := mkAssertState (as_service a) (as_context a) i (as_response a) (as_sleeps a) in
  if negb available then
    let validation :=
      AddFailure validation
        (mkFailure "" ("[" +:+ exp_TagID expectedLogRecords +:+ "]") "missing log record"
                   expectedLogRecord VNil) in
    let response := updateValidation (as_response a) validation in
    Return (mkAssertState (as_service a) (as_context a) i response (as_sleeps a)) (Ok response)
  else
    let isLogStructured := IsMap expectedLogRecord in
    let indexValue :=
      if UseIndex (meta_LogType logTypeMeta) then
        match GetIndexExpr (meta_LogType logTypeMeta) with
        | inl expr =>
            let expectedTextRecord :=
              if IsMap expectedLogRecord || IsSlice expectedLogRecord
                 || IsStruct expectedLogRecord
              then AsJSONText expectedLogRecord
              else AsString expectedLogRecord in
            matchLogIndex expr expectedTextRecord
        | inr _ => ""
        end
      else "" in
    let itemPointer :=
      if negb (String.eqb indexValue "")
      then IndexedLogRecordPointer indexValue else LogRecordPointer in
    match Next (as_service a) i itemPointer with
    | (s, Err err) =>
        Return (mkAssertState s (as_context a) i (as_response a) (as_sleeps a)) (Err err)
    | (s, Panic) =>
        Return (mkAssertState s (as_context a) i (as_response a) (as_sleeps a)) Panic
    | (s, Ok None) =>
        (* [logRecord.Line] through a nil pointer *)
        Return (mkAssertState s (as_context a) i (as_response a) (as_sleeps a)) Panic
    | (s, Ok (Some logRecord)) =>
        let a := mkAssertState s (as_context a) i (as_response a) (as_sleeps a) in
        let actual : Value + error :=
          if isLogStructured then
            match DecodeJSON (rec_Line logRecord) with
            | inl result => inl (VMap result)
            | inr err => inr err
            end
          else inl (VString (rec_Line logRecord)) in
        match actual with
        | inr err => Return a (Err err)
        | inl actualLogRecord =>
            let filename := snd (URLSplit (rec_URL logRecord)) in
            match Assert (as_context a)
                         (filename +:+ ":" +:+ FormatInt (rec_Number logRecord))
                         expectedLogRecord actualLogRecord with
            | (context, inr err) =>
                Return (mkAssertState s context i (as_response a) (as_sleeps a)) (Err err)
            | (context, inl logValidation) =>
                let context :=
                  AddEvent context "LogRecordAssert"
                    [("value",
                      VStruct "LogRecordAssert"
                        [("TagID", VString (exp_TagID expectedLogRecords));
                         ("Expected", expectedLogRecord); ("Actual", actualLogRecord)]);
                     ("logValidation", validationValue logValidation)] in
                let response :=
                  updateValidation (as_response a) (MergeFrom validation logValidation) in
                Continue (mkAssertState s context i response (as_sleeps a))
            end
        end
    end.

(** The loop over [expectedLogRecords.Records]. *)
Fixpoint assert_records (request : LogValidatorAssertRequest)
    (expectedLogRecords : ExpectedLogRecord) (logTypeMeta : LogTypeMeta)
    (records : list Value) (a : assertState) : Flow :=
  match records with
  | [] => Continue a
  | expectedLogRecord :: rest =>
      match assert_record request expectedLogRecords logTypeMeta expectedLogRecord a with
      | Continue a => assert_records request expectedLogRecords logTypeMeta rest a
      | Return a r => Return a r
      end
  end.

(** The loop over [request.ExpectedLogRecords]. *)
Fixpoint assert_groups (request : LogValidatorAssertRequest)
    (groups : list ExpectedLogRecord) (a : assertState) : Flow :=
  match groups with
  | [] => Continue a
  | expectedLogRecords :: rest =>
      match getLogTypeMeta (as_service a) expectedLogRecords with
      | Err err => Return a (Err err)
      | Panic => Return a Panic
      | Ok logTypeMeta =>
          let logRecordIterator :=
            LogRecordIterator (as_service a) (logTypeMetaKey (exp_Type expectedLogRecords)) in
          let a :=
            mkAssertState (as_service a) (as_context a) logRecordIterator (as_response a)
                          (as_sleeps a) in
          match assert_records request expectedLogRecords logTypeMeta
                               (exp_Records expectedLogRecords) a with
          | Continue a => assert_groups request rest a
          | Return a r => Return a r
          end
      end
  end.

(** [assert]: the service and the context after the call, and the response or
    the error returned. *)
Definition assert (s : logValidatorService) (context : Context)
    (request : LogValidatorAssertRequest)
  : logValidatorService * Context * Result LogValidatorAssertResponse :=
  let response := mkAssertResponse (assert_Description request) [] in
  if Z.of_nat (length (assert_ExpectedLogRecords request)) =? 0 then (s, context, Ok response)
  else
    let request :=
      if assert_LogWaitTimeMs request =? 0
      then mkAssertRequest (assert_Description request) 500
                           (assert_LogWaitRetryCount request)
                           (assert_ExpectedLogRecords request)
      else request in
    let request :=
      if assert_LogWaitRetryCount request =? 0
      then mkAssertRequest (assert_Description request) (assert_LogWaitTimeMs request) 3
                           (assert_ExpectedLogRecords request)
      else request in
    match assert_groups request (assert_ExpectedLogRecords request)
                        (mkAssertState s context (mkIterator "" [] 0) response 0) with
    | Continue a => (as_service a, as_context a, Ok (as_response a))
    | Return a r => (as_service a, as_context a, r)
    end.

End LogValidator.

(** ** A reference environment

    Simple total implementations of the outside calls, to run the embedded
    code on concrete inputs. *)

Module Reference.

(** ASCII white space, for [strings.TrimSpace] on ASCII text. *)
Definition asciiSpace : string :=
  String " " (String TAB (String LF (String CR (String "011" (String "012" ""))))).

(** A decimal digit string read as a number; anything else reads as 0. *)
Fixpoint digits (s : string) (acc : Z) : Z :=
  match s with
  | EmptyString => acc
  | String c r =>
      let n := Z.of_nat (nat_of_ascii c) in
      if (48 <=? n) && (n <=? 57) then digits r (10 * acc + (n - 48)) else 0
  end.

(** Modelled from the spec: [Variables.Apply], declared outside the files at
    hand.  A rule looks [From] up in the source ([Value] when [From] is empty)
    and writes it to the target under [Name], less a leading [->]; a required
    rule fails on a nil or empty value; the first failure aborts. *)
Definition targetName (name : string) : string :=
  if HasPrefix name "->" then dropBytes 2 name else name.

Definition emptyValue (v : Value) : bool :=
  match v with
  | VNil => true
  | VString text => String.eqb text ""
  | _ => false
  end.

Definition applyRule (source target : State) (rule : VariableRule) : State * option error :=
  let value :=
    if String.eqb (var_From rule) "" then var_Value rule
    else default VNil (source !! var_From rule) in
  if var_Required rule && emptyValue value
  then (target, Some ("variable " +:+ var_Name rule +:+ " is required"))
  else (<[targetName (var_Name rule) := value]> target, None).

Fixpoint applyRules (rules : Variables) (source target : State) : State * option error :=
  match rules with
  | [] => (target, None)
  | rule :: rest =>
      match applyRule source target rule with
      | (target, Some err) => (target, Some err)
      | (target, None) => applyRules rest source target
      end
  end.

Fixpoint applyRulesInPlace (rules : Variables) (st : State) : State * option error :=
  match rules with
  | [] => (st, None)
  | rule :: rest =>
      match applyRule st st rule with
      | (st, Some err) => (st, Some err)
      | (st, None) => applyRulesInPlace rest st
      end
  end.

#[export] Instance workflowEnv : WorkflowEnv := {|
  AsInt := fun s => digits s 0;
  TrimSpace := fun s => Trim s asciiSpace;
  Expand := fun _ text => text;
  ExpandValue := fun _ v => v;
  Check := fun expected actual => (String.eqb expected actual, None);
  Validate := fun w =>
    if String.eqb (wf_Name w) "" then Some "workflow name was empty" else None;
  Apply := applyRules;
  ApplyInPlace := applyRulesInPlace;
  GetValue := fun st name => default VNil (st !! name);
  NewRepoResource := fun _ URI => inl (mkResource ("mem://repo/" +:+ URI) "");
  DaoLoad := fun _ source => inr ("no workflow at " +:+ URL source);
  callService := fun context _ => (context, inl ∅);
  runAsyncActions := fun context _ _ _ _ => (context, None);
  Sleep := fun context _ => context;
  Clone := fun context => mkContext (state context) [] (Workflows context)
                                    (SessionID context) (EventLogger context);
  ContextWorkflow := fun _ => None;
  PutWorkflow := fun context _ => context;
  OwnerURL := "ownerURL";
  elapsedMs := fun _ => 0;
  BeginEvent := fun context source pairs => AddEvent context ("Begin " +:+ source) pairs;
  EndEvent := fun context pairs => AddEvent context "End" pairs
|}.

(** The expressions of package [regexp] made of [^], a literal free of
    metacharacters, one group matching any text, and [$], on an input of one
    line: the compiled form is the literal. *)
Definition compilePrefix (expr : string) : string + error :=
  match expr with
  | String "^" rest =>
      let n := (String.length rest - 5)%nat in
      if String.eqb (dropBytes n rest) "(.*)$"
      then inl (String.substring 0 n rest)
      else inr ("unsupported expression: " +:+ expr)
  | _ => inr ("unsupported expression: " +:+ expr)
  end.

#[export] Instance regexpLib : RegexpLib := {|
  Regexp := string;
  Compile := compilePrefix;
  MatchString := fun literal input => HasPrefix input literal;
  FindStringSubmatch := fun literal input =>
    if HasPrefix input literal then [input; dropBytes (String.length literal) input] else []
|}.

Definition emptyStorage : StorageService :=
  mkStorageService (fun _ => inl []) (fun _ => inr "no such object").

#[export] Instance logEnv : LogEnv := {|
  LogEnv_regexp := regexpLib;
  AsString := fun v => match v with VString s => s | _ => "" end;
  AsJSONText := fun _ => "{}";
  FormatInt := fun _ => "0";
  DecodeJSON := fun line => inr ("invalid character in " +:+ line);
  Assert := fun context _ expected actual =>
    (context,
     inl (mkValidation "" "" 0 [mkFailure "" "" "actual differs" expected actual]));
  whileSleeping := fun _ _ s => s;
  URLSplit := fun URL => ("", URL);
  ExpandResource := fun _ resource => inl resource;
  NewServiceForURL := fun _ _ => inl emptyStorage;
  NewMemoryService := emptyStorage;
  UseMemoryService := "UseMemoryService"
|}.

End Reference.

(** ** Sequences of queue operations *)

Inductive QueueOp :=
| OpPush (record : LogRecord)
| OpShift
| OpShiftByIndex (value : string).

(** One operation on a file; [returned] collects the records the shifts have
    handed out. *)
Definition applyOp `{RegexpLib} (st : LogFile * list LogRecord) (op : QueueOp)
  : LogFile * list LogRecord :=
  let '(f, returned) := st in
  match op with
  | OpPush record => (PushLogRecord f record, returned)
  | OpShift =>
      match ShiftLogRecord f with
      | (f, Some r) => (f, returned ++ [r])
      | (f, None) => (f, returned)
      end
  | OpShiftByIndex value =>
      match ShiftLogRecordByIndex f value with
      | (f, Some r) => (f, returned ++ [r])
      | (f, None) => (f, returned)
      end
  end.

Definition applyOps `{RegexpLib} (f : LogFile) (ops : list QueueOp) : LogFile * list LogRecord :=
  fold_left applyOp ops (f, []).

(** The record a pointer of [records] points to. *)
Definition pointsInto (r : LogRecord) (records : list LogRecord) : Prop :=
  ∃ r', r' ∈ records ∧ rec_addr r' = rec_addr r.

(** The invariant of the data model: what [IndexedRecords] holds is in
    [Records]. *)
Definition indexedInRecords (f : LogFile) : Prop :=
  ∀ k r, lf_IndexedRecords f !! k = Some r → pointsInto r (lf_Records f).

(** What the code keeps: an indexed record is queued, or a shift has handed
    it out. *)
Definition indexedQueuedOrShifted (f : LogFile) (returned : list LogRecord) : Prop :=
  ∀ k r, lf_IndexedRecords f !! k = Some r →
         pointsInto r (lf_Records f) ∨ pointsInto r returned.

(** ** Scenarios *)

Module Scenario.

Definition action (tag : string) : ServiceAction :=
  mkServiceAction "svc" "run" (VMap ∅) [] [] "" tag "" "" "" "" false 0.

(** Task T1 with the synchronous actions A0, A1, A2, and the selector
    ["T1=0:2"]. *)
Definition T1 : WorkflowTask :=
  mkWorkflowTask "T1" [action "A0"; action "A1"; action "A2"] [] [] "" 0.

Definition selector (tasks : string) : WorkflowRunRequest :=
  mkWorkflowRunRequest false "" "" "w" ∅ tasks false false.

(** Two workflows of one name and different contents. *)
Definition w1 : Workflow := mkWorkflow (mkResource "mem://w/a.csv" "") ∅ "a" [] [] [] 0.
Definition w2 : Workflow := mkWorkflow (mkResource "mem://w/a.csv" "") ∅ "a" [T1] [] [] 0.

(** A workflow whose [Post] binding requires a value and is given nil. *)
Definition postRule : VariableRule := mkVariable "out" "" VNil true false.
Definition wPost : Workflow :=
  mkWorkflow (mkResource "mem://w/p.csv" "") ∅ "p" [] [] [postRule] 0.

Definition context0 : Context := mkContext ∅ [] [] "session" None.

(** An indexed log type and a file of it. *)
Definition indexedType : LogType := mkLogType "event1" "json" "elog*.log" "" "" "^id=(.*)$".
Definition plainType : LogType := mkLogType "event2" "" "elog*.log" "" "" "".

Definition file0 (logType : LogType) : LogFile :=
  mkLogFile "mem://logs/elog1.log" "" "elog1.log" logType (mkLogProcessingState 0 0) 0 0 [] ∅.

Definition recordA : LogRecord := mkLogRecord 0 "mem://logs/elog1.log" 1 "id=A".
Definition recordB : LogRecord := mkLogRecord 1 "mem://logs/elog1.log" 2 "id=B".
Definition recordC : LogRecord := mkLogRecord 2 "mem://logs/elog1.log" 3 "id=C".

End Scenario.

(** ** Vocabulary of the reset property *)

(** How many of the requested names stand for the state key [key]. *)
Definition occurrences (key : string) (logTypes : list string) : nat :=
  length (filter (λ name, logTypeMetaKey name = key) logTypes).

(** A meta all of whose files went through the loop body of [reset] [n]
    times. *)
Definition resetMetaTimes (n : nat) (m : LogTypeMeta) : LogTypeMeta :=
  mkLogTypeMeta (meta_Source m) (meta_LogType m) (Nat.iter n resetLogFile <$> meta_LogFiles m).

(** The names of the files of the type registered as [name], none when the
    type is not registered. *)
Definition registeredFileNames (s : logValidatorService) (name : string) : list string :=
  match metas s !! logTypeMetaKey name with
  | Some m => (λ entry, lf_Name (snd entry)) <$> map_to_list (meta_LogFiles m)
  | None => []
  end.

(** ** Vocabulary of the assert property *)

(** The service after the sleeps numbered [first], ..., [first + n - 1] of a
    call, each of [d] nanoseconds. *)
Fixpoint sleptService `{LogEnv} (first n : nat) (d : Z) (s : logValidatorService)
  : logValidatorService :=
  match n with
  | O => s
  | S n' => sleptService (S first) n' d (whileSleeping first d s)
  end.

(** No file of the meta under [key] has a queued record. *)
Definition noPendingLogs (s : logValidatorService) (key : string) : Prop :=
  ∀ name, pendingLogs s key name = false.

Definition withEvents (context : Context) (events : list Event) : Context :=
  mkContext (state context) events (Workflows context) (SessionID context)
            (EventLogger context).

(** The event of a wait of [ms] milliseconds. *)
Definition sleepEventOf (ms : Z) : Event :=
  mkEvent "SleepEventType" [("value", VStruct "SleepEventType" [("SleepTimeMs", VInt ms)])].

(** The validation of an expected record that no log record came for. *)
Definition missingValidation (expectedLogRecords : ExpectedLogRecord) (expectedLogRecord : Value)
  : Validation :=
  mkValidation (exp_TagID expectedLogRecords)
               ("Log Validation: " +:+ exp_Type expectedLogRecords) 0
               [mkFailure "" ("[" +:+ exp_TagID expectedLogRecords +:+ "]")
                          "missing log record" expectedLogRecord VNil].

(** Modelled from the spec: the [Run] of [AbstractService], declared outside
    the files at hand, which calls the handler of the route.  The response
    has [Status] ["ok"] unless the handler returns an error; a panic leaves no
    response. *)
Definition routeStatus {A : Type} (r : Result A) : option string :=
  match r with
  | Ok _ => Some "ok"
  | Err _ => Some "err"
  | Panic => None
  end.

(** ** Vocabulary of the reading properties *)

(** The bytes that end a line. *)
Definition isTerminator (b : ascii) : bool := Ascii.eqb b LF || Ascii.eqb b CR.

Fixpoint noTerminator (data : string) : bool :=
  match data with
  | EmptyString => true
  | String b rest => negb (isTerminator b) && noTerminator rest
  end.

(** The state [readLogRecords] enters its loop with. *)
Definition scanStart (f : LogFile) (allocated : nat) : scanState :=
  mkScanState f allocated "" (ps_Line (lf_ProcessingState f)) 0.

(** What [readLogRecords] lets into the queue of a file: a line that is not
    empty, holds [Inclusion] and does not hold [Exclusion], where these are
    set, under the URL of the file. *)
Definition admitted (f : LogFile) (r : LogRecord) : Prop :=
  rec_URL r = lf_URL f
  ∧ rec_Line r ≠ ""
  ∧ (lt_Exclusion (lf_LogType f) ≠ "" → Contains (rec_Line r) (lt_Exclusion (lf_LogType f)) = false)
  ∧ (lt_Inclusion (lf_LogType f) ≠ "" → Contains (rec_Line r) (lt_Inclusion (lf_LogType f)) = true).

(** The order of the provider of the iterator, on the modification time: the
    first file is not older than the second. *)
Definition newerFirst (x y : string * LogFile) : Prop :=
  lf_LastModified (snd y) <= lf_LastModified (snd x).

(** ** Package [copy]: the content modifier of a transfer *)

(** [content[:n]] on bytes. *)
Fixpoint takeBytes (n : nat) (s : string) : string :=
  match n, s with
  | S k, String c r => String c (takeBytes k r)
  | _, _ => EmptyString
  end.

(** What package [copy] takes from outside the repository. *)
Class CopyEnv := {
  (** [os.FileInfo]. *)
  FileInfo : Type;
  (** [info.Size()]. *)
  Size : FileInfo -> Z;
  (** [file.AdjustInfoSize(info, size)] of afs. *)
  AdjustInfoSize : FileInfo -> Z -> FileInfo;
  (** [strings.Count(s, substr)]. *)
  Count : string -> string -> Z;
  (** [strings.Replace(s, old, new, n)]. *)
  Replace : string -> string -> string -> Z -> string;
  (** [toolbox.IsPrintText(text)]. *)
  IsPrintText : string -> bool;
}.

Section Copy.
Context `{WorkflowEnv} `{CopyEnv}.

(** [option.Match] of afs: [func(parent string, info os.FileInfo) bool]. *)
Definition Match : Type := string -> FileInfo -> bool.

(** An [io.ReadCloser] by what [ioutil.ReadAll] gets from it. *)
Definition ReadCloser : Type := (string + error)%type.

Definition maxExpandableContentSize : Z := 1024 * 128.

(** [substitutionMatcher(matcher)].  [matcher] is [None] for a nil pointer and
    otherwise the pair that [matcher.Matcher()] returns.  The function returns
    a match function with a nil error, or nil with an error. *)
Definition substitutionMatcher (matcher : option (option Match * option error))
  : Match + error :=
  let '(result, err) :=
    match matcher with
    | Some (result, err) => (result, err)
    | None => (None, None)
    end in
  match matcher, err with
  | Some _, Some e => inr e
  | _, _ =>
      match result with
      | Some result => inl result
      | None => inl (fun (_ : string) (info : FileInfo) => Size info <? maxExpandableContentSize)
      end
  end.

(** The loop of [substituteWithMap], over the entries in the order of the
    range. *)
Fixpoint substituteWithMap_range (isUpdated : bool) (text : string)
    (entries : list (string * string)) : bool * string :=
  match entries with
  | [] => (isUpdated, text)
  | (k, v) :: rest =>
      let count := Count text k in
      if count =? 0 then substituteWithMap_range isUpdated text rest
      else
        let isUpdated := if negb isUpdated then true else isUpdated in
        substituteWithMap_range isUpdated (Replace text k v count) rest
  end.

(** [substituteWithMap(text, replaceMap)]. *)
Definition substituteWithMap (text : string) (replaceMap : gmap string string)
  : bool * string :=
  substituteWithMap_range false text (map_to_list replaceMap).

(** [canExpand(content)]. *)
Definition canExpand (content : string) : bool :=
  if len content =? 0 then false
  else
    let limit := 100 in
    let limit := if limit >=? len content then len content - 1 else limit in
    IsPrintText (takeBytes (Z.to_nat limit) content).

(** What the function returned by [NewModifier] returns: the three results,
    and whether the deferred [reader.Close()] has run. *)
Record Modified := mkModified {
  mod_info : option FileInfo;
  mod_reader : option ReadCloser;
  mod_err : option error;
  mod_closed : bool;
}.

(** The function literal of [NewModifier]. *)
Definition modifier (matchHandler : Match) (context : Context)
    (replaceMap : gmap string string) (expand : bool)
    (parent : string) (info : FileInfo) (reader : option ReadCloser) : Modified :=
  match reader with
  | None => mkModified None None (Some "reader was empty") false
  | Some r =>
      if negb (matchHandler "" info) then mkModified (Some info) reader None false
      else
        match r with
        | inr err => mkModified (Some info) None (Some err) true
        | inl content =>
            let result := content in
            let '(result, isUpdated) :=
              if expand && canExpand content
              then
                let result := Expand (state context) result in
                (result, negb (String.eqb result content))
              else (result, false) in
            let '(replaced, substituted) := substituteWithMap result replaceMap in
            let '(result, isUpdated) :=
              if replaced then (substituted, replaced) else (result, isUpdated) in
            let info := AdjustInfoSize info (len result) in
            if isUpdated then mkModified (Some info) (Some (inl result)) None true
            else mkModified (Some info) (Some (inl content)) None true
        end
  end.

(** [NewModifier(context, when, replaceMap, expand)]. *)
Definition NewModifier (context : Context) (when : option (option Match * option error))
    (replaceMap : gmap string string) (expand : bool)
  : option (string -> FileInfo -> option ReadCloser -> Modified) * option error :=
  match substitutionMatcher when with
  | inr err => (None, Some err)
  | inl matchHandler => (Some (modifier matchHandler context replaceMap expand), None)
  end.

End Copy.

(** A reference environment for package [copy], on ASCII text. *)
Module CopyReference.

Record fileInfo := mkFileInfo { fi_Name : string; fi_Size : Z }.

(** Non-overlapping occurrences of a non-empty [substr], from the left;
    [skip] bytes of a match are still to be passed. *)
Fixpoint countFrom (substr : string) (skip : nat) (s : string) : Z :=
  match s with
  | EmptyString => 0
  | String _ r =>
      match skip with
      | S k => countFrom substr k r
      | O =>
          if HasPrefix s substr
          then 1 + countFrom substr (String.length substr - 1) r
          else countFrom substr 0 r
      end
  end.

Definition count (s substr : string) : Z :=
  if String.eqb substr "" then len s + 1 else countFrom substr 0 s.

Fixpoint replaceFrom (old new : string) (skip : nat) (n : Z) (s : string) : string :=
  match s with
  | EmptyString => EmptyString
  | String c r =>
      match skip with
      | S k => replaceFrom old new k n r
      | O =>
          if n =? 0 then s
          else if HasPrefix s old
          then new +:+ replaceFrom old new (String.length old - 1) (n - 1) r
          else String c (replaceFrom old new 0 n r)
      end
  end.

Fixpoint insertEach (new : string) (n : Z) (s : string) : string :=
  if n =? 0 then s
  else
    match s with
    | EmptyString => new
    | String c r => new +:+ String c (insertEach new (n - 1) r)
    end.

Definition replace (s old new : string) (n : Z) : string :=
  if String.eqb old "" then insertEach new n s else replaceFrom old new 0 n s.

Fixpoint isPrintText (s : string) : bool :=
  match s with
  | EmptyString => true
  | String c r =>
      let b := Z.of_nat (nat_of_ascii c) in
      ((32 <=? b) && (b <=? 126) || (b =? 9) || (b =? 10) || (b =? 13)) && isPrintText r
  end.

#[export] Instance copyEnv : CopyEnv := {
  FileInfo := fileInfo;
  Size := fi_Size;
  AdjustInfoSize := fun info size => mkFileInfo (fi_Name info) size;
  Count := count;
  Replace := replace;
  IsPrintText := isPrintText;
}.

End CopyReference.

(** * Properties *)

(** ** Strings *)

Lemma HasPrefix_byte (s : string) (c : ascii) :
  HasPrefix s (String c "") = match s with
                              | EmptyString => false
                              | String b _ => Ascii.eqb c b
                              end.
Proof.
  destruct s as [|b r]; simpl; [reflexivity|].
  destruct (Ascii.eqb c b); reflexivity.
Qed.

Lemma Contains_byte_cons (b c : ascii) (r : string) :
  Contains (String b r) (String c "") = Ascii.eqb c b || Contains r (String c "").
Proof.
  change (Contains (String b r) (String c ""))
    with (if HasPrefix (String b r) (String c "") then true else Contains r (String c "")).
  rewrite HasPrefix_byte. destruct (Ascii.eqb c b); reflexivity.
Qed.

Lemma Contains_byte_nil (c : ascii) : Contains "" (String c "") = false.
Proof. reflexivity. Qed.

Lemma Split_without_sep (s : string) (c : ascii) :
  Contains s (String c "") = false → Split s c = [s].
Proof.
  induction s as [|b r IH]; intros Hc; [reflexivity|].
  rewrite Contains_byte_cons in Hc. apply orb_false_iff in Hc as [Hb Hr].
  simpl. rewrite Ascii.eqb_sym, Hb, (IH Hr). reflexivity.
Qed.

Lemma Split_at_sep (before rest : string) (c : ascii) :
  Contains before (String c "") = false →
  Split (before +:+ String c rest) c = before :: Split rest c.
Proof.
  induction before as [|b r IH]; intros Hc; simpl.
  - rewrite Ascii.eqb_refl. reflexivity.
  - rewrite Contains_byte_cons in Hc. apply orb_false_iff in Hc as [Hb Hr].
    rewrite Ascii.eqb_sym, Hb. fold (r +:+ String c rest). rewrite (IH Hr). reflexivity.
Qed.

Lemma Split_nonempty (s : string) (c : ascii) : Split s c ≠ [].
Proof.
  destruct s as [|b r]; cbn [Split]; [discriminate|].
  destruct (Ascii.eqb b c); [discriminate|].
  destruct (Split r c); discriminate.
Qed.

Lemma Index_bounds (s : string) (c : ascii) : -1 <= Index s c.
Proof.
  induction s as [|b r IH]; simpl; [lia|].
  destruct (Ascii.eqb b c); [lia|].
  destruct (Z.eqb_spec (Index r c) (-1)); lia.
Qed.

Lemma Index_without_sep (s : string) (c : ascii) :
  Contains s (String c "") = false → Index s c = -1.
Proof.
  induction s as [|b r IH]; intros Hc; [reflexivity|].
  rewrite Contains_byte_cons in Hc. apply orb_false_iff in Hc as [Hb Hr].
  simpl. rewrite Ascii.eqb_sym, Hb, (IH Hr). reflexivity.
Qed.

(** Where [Index] finds the separator, [Split] yields two fragments or more:
    [fragments[0]] and [fragments[1]] of [evaluateRunCriteria] are in range. *)
Lemma Split_fragments_in_range (s : string) (c : ascii) :
  0 <= Index s c → (2 ≤ length (Split s c))%nat.
Proof.
  induction s as [|b r IH]; cbn [Index Split]; [lia|].
  destruct (Ascii.eqb b c).
  - intros _. pose proof (Split_nonempty r c) as Hne.
    destruct (Split r c); [contradiction|cbn; lia].
  - destruct (Z.eqb_spec (Index r c) (-1)) as [Heq|Hne]; [lia|].
    intros _. pose proof (Index_bounds r c) as Hb.
    assert (Hr : 0 <= Index r c) by lia. specialize (IH Hr).
    destruct (Split r c); cbn in *; lia.
Qed.

Lemma Index_at_sep (before rest : string) (c : ascii) :
  0 <= Index (before +:+ String c rest) c.
Proof.
  induction before as [|b r IH]; simpl.
  - rewrite Ascii.eqb_refl. lia.
  - destruct (Ascii.eqb b c); [lia|].
    fold (r +:+ String c rest).
    destruct (Z.eqb_spec (Index (r +:+ String c rest) c) (-1)); lia.
Qed.

(** ** Workflow runtime *)

Section WorkflowProperties.
Context `{WorkflowEnv}.

Lemma isTaskAllowed_entries_unrestricted (candidate : WorkflowTask) (tasks : list string) :
  snd (isTaskAllowed_entries candidate tasks) = None.
Proof.
  induction tasks as [|task rest IH]; [reflexivity|].
  cbn [isTaskAllowed_entries].
  destruct (Contains task "=") eqn:Hc; cbn [negb].
  - destruct (String.eqb task (task_Name candidate)); [reflexivity | exact IH].
  - rewrite (Split_without_sep task "=" Hc). cbn [nth length].
    destruct (String.eqb task (task_Name candidate)); [reflexivity | exact IH].
Qed.

(** C1 (not met by the code): an entry [name=idx1:idx2] of the
    selector is compared whole with the task name, so it does not allow the
    task [name], and no selector ever restricts the actions.  With the
    selector ["T1=0:2"], [isTaskAllowed] refuses task T1 and [runTask] returns
    before any action, where A0 and A2 were to run. *)
Theorem isTaskAllowed_indexed_entry_refused :
  isTaskAllowed Scenario.T1 (Scenario.selector "T1=0:2") = (false, None)
  ∧ (∀ candidate request, snd (isTaskAllowed candidate request) = None)
  ∧ (∀ context workflow,
       runTask context workflow Scenario.T1 (Scenario.selector "T1=0:2")
       = (Put context ":task" (VStruct "WorkflowTask" [("Name", VString "T1")]), None)).
Proof.
  split; [reflexivity|]. split.
  - intros candidate request. unfold isTaskAllowed.
    destruct (String.eqb (req_Tasks request) "" || String.eqb (req_Tasks request) "*");
      [reflexivity | apply isTaskAllowed_entries_unrestricted].
  - intros context workflow. reflexivity.
Qed.

Lemma append_sep_nonempty (before rest : string) (c : ascii) :
  String.eqb (before +:+ String c rest) "" = false.
Proof. destruct before; reflexivity. Qed.

Lemma evaluateRunCriteria_split (context : Context) (before expected : string)
    (others : list string) (criteria : string) :
  String.eqb criteria "" = false →
  0 <= Index criteria ":" →
  Split criteria ":" = before :: expected :: others →
  snd (evaluateRunCriteria context criteria)
  = Check (Expand (state context) (TrimSpace expected))
          (Expand (state context) (TrimSpace before)).
Proof.
  intros Hne Hidx Hsplit. unfold evaluateRunCriteria. rewrite Hne.
  destruct (Z.eqb_spec (Index criteria ":") (-1)) as [Heq|_]; [lia|].
  rewrite Hsplit. cbn [nth].
  destruct (Check _ _) as [result err]. reflexivity.
Qed.

(** C9 (as amended): the empty criterion is eligible with no error; a
    criterion without a colon yields an error; otherwise the criterion is cut
    at every colon, ACTUAL being the text before the first colon and EXPECTED
    the text between the first colon and the second, or the end when there is
    no second colon; each, trimmed of white space, is expanded against the
    state and the result is the validator's comparison of EXPECTED against
    ACTUAL. *)
Theorem evaluateRunCriteria_fragments (context : Context) (before expected tail : string) :
  Contains before ":" = false →
  Contains expected ":" = false →
  snd (evaluateRunCriteria context "") = (true, None)
  ∧ (before = "" ∨ ∃ err, snd (evaluateRunCriteria context before) = (false, Some err))
  ∧ snd (evaluateRunCriteria context (before +:+ ":" +:+ expected))
    = Check (Expand (state context) (TrimSpace expected))
            (Expand (state context) (TrimSpace before))
  ∧ snd (evaluateRunCriteria context (before +:+ ":" +:+ expected +:+ ":" +:+ tail))
    = Check (Expand (state context) (TrimSpace expected))
            (Expand (state context) (TrimSpace before)).
Proof.
  intros Hbefore Hexpected. split; [reflexivity|]. split; [|split].
  - destruct before as [|b r]; [left; reflexivity|right].
    unfold evaluateRunCriteria. cbn [String.eqb].
    rewrite (Index_without_sep _ _ Hbefore). cbn. eauto.
  - apply evaluateRunCriteria_split with (others := []).
    + apply append_sep_nonempty.
    + apply Index_at_sep.
    + change (":" +:+ expected) with (String ":" expected).
      rewrite (Split_at_sep _ _ _ Hbefore), (Split_without_sep _ _ Hexpected). reflexivity.
  - apply evaluateRunCriteria_split with (others := Split tail ":").
    + apply append_sep_nonempty.
    + apply Index_at_sep.
    + change (":" +:+ expected +:+ ":" +:+ tail)
        with (String ":" (expected +:+ String ":" tail)).
      rewrite (Split_at_sep _ _ _ Hbefore), (Split_at_sep _ _ _ Hexpected). reflexivity.
Qed.

(** C3 (as amended): [Register] validates the workflow and, when it is valid,
    stores it in the registry under its name; it fails only when validation
    fails.  A duplicate name is never refused: a workflow registered again
    leaves the registry as it was, and a different workflow of a registered
    name takes the place of the registered one.  The [register] request of
    [Run] answers [ok] or [err] accordingly. *)
Theorem Register_replaces (s : workflowService) (context : Context) (w : Workflow) :
  match Validate w with
  | Some err =>
      Register s w = (s, Some err)
      ∧ Status (snd (Run s context (RegisterRequest w))) = "err"
  | None =>
      snd (Register s w) = None
      ∧ registry (fst (Register s w)) !! wf_Name w = Some w
      ∧ (∀ name, name ≠ wf_Name w →
                 registry (fst (Register s w)) !! name = registry s !! name)
      ∧ sessions (fst (Register s w)) = sessions s
      ∧ (∀ registered, registry s !! wf_Name w = Some registered →
                       registered = w → registry (fst (Register s w)) = registry s)
      ∧ Status (snd (Run s context (RegisterRequest w))) = "ok"
  end.
Proof.
  unfold Run, startSession, Register.
  destruct (Validate w) as [err|] eqn:Hv.
  - split; [reflexivity|].
    destruct (bool_decide _); cbn; rewrite ?Hv; reflexivity.
  - cbn [fst snd registry sessions]. split; [reflexivity|].
    split; [apply lookup_insert_eq|]. split.
    { intros name Hne. apply lookup_insert_ne. congruence. }
    split; [reflexivity|]. split.
    { intros registered Hreg ->. apply insert_id. exact Hreg. }
    destruct (bool_decide _); cbn; rewrite ?Hv; reflexivity.
Qed.

End WorkflowProperties.

Section WorkflowRun.
Context `{WorkflowEnv}.

Lemma loadWorkflowIfNeeded_registered (s : workflowService) (context : Context)
    (name URL : string) (w : Workflow) :
  registry s !! name = Some w → loadWorkflowIfNeeded s context name URL = (s, None).
Proof.
  intros Hreg. unfold loadWorkflowIfNeeded, HasWorkflow.
  rewrite bool_decide_eq_true_2 by (rewrite Hreg; eauto). reflexivity.
Qed.

(** C4 (not met by the code): [runWorkflow] calls
    [workflow.Post.Apply] and drops the error it returns.  A registered
    workflow whose [Init] bindings and tasks succeed runs to a response with
    no error even when its [Post] bindings fail on every state. *)
Theorem runWorkflow_Post_error_dropped (s : workflowService) (context : Context)
    (request : WorkflowRunRequest) (w : Workflow) :
  registry s !! req_Name request = Some w →
  URL (wf_Source w) ≠ "" →
  (∀ st, snd (ApplyInPlace (wf_Init w) st) = None) →
  (∀ c, snd (runWorkflow_tasks c w request (wf_Tasks w)) = None) →
  (∀ st data, snd (Apply (wf_Post w) st data) ≠ None) →
  ∃ response, snd (runWorkflow s context request) = (Some response, None).
Proof.
  intros Hreg Hurl Hinit Htasks _. unfold runWorkflow.
  rewrite (loadWorkflowIfNeeded_registered _ _ _ _ _ Hreg).
  unfold lookupWorkflow. rewrite Hreg.
  destruct (String.eqb_spec (URL (wf_Source w)) "") as [Heq|_]; [contradiction|].
  match goal with
  | |- context [ApplyInPlace (wf_Init w) ?st] =>
      pose proof (Hinit st) as Hi; destruct (ApplyInPlace (wf_Init w) st) as [st' err]
  end.
  cbn [snd] in Hi. subst err.
  match goal with
  | |- context [runWorkflow_tasks ?c w request (wf_Tasks w)] =>
      pose proof (Htasks c) as Ht;
      destruct (runWorkflow_tasks c w request (wf_Tasks w)) as [c' err]
  end.
  cbn [snd] in Ht. subst err.
  destruct (Apply (wf_Post w) _ _) as [data err]. cbn [snd]. eauto.
Qed.

End WorkflowRun.

(** The workflow [wPost]: its [Post] binding fails on every state, and the run
    returns a response and no error. *)
Lemma runWorkflow_Post_error_dropped_witness :
  (∀ st data, snd (@Apply Reference.workflowEnv (wf_Post Scenario.wPost) st data)
              = Some "variable out is required")
  ∧ ∃ response,
      snd (@runWorkflow Reference.workflowEnv
             (mkWorkflowService {["p" := Scenario.wPost]} ∅) Scenario.context0
             (mkWorkflowRunRequest false "" "" "p" ∅ "" false false))
      = (Some response, None).
Proof.
  split; [reflexivity|].
  apply (@runWorkflow_Post_error_dropped Reference.workflowEnv _ _ _ Scenario.wPost).
  - reflexivity.
  - discriminate.
  - reflexivity.
  - reflexivity.
  - discriminate.
Defined.

(** With [w1] registered as "a", registering the different workflow [w2] of
    the same name returns no error and puts [w2] in its place. *)
Lemma Register_duplicate_counterexample :
  let s := mkWorkflowService {["a" := Scenario.w1]} ∅ in
  registry s !! wf_Name Scenario.w2 = Some Scenario.w1
  ∧ Scenario.w2 ≠ Scenario.w1
  ∧ @Register Reference.workflowEnv s Scenario.w2
    = (mkWorkflowService {["a" := Scenario.w2]} ∅, None).
Proof.
  cbn zeta. split; [reflexivity|]. split; [discriminate|]. reflexivity.
Defined.

(** The criterion "a:a:b" is eligible: "a" is compared with "a".  Cut at
    either colon, the text after the cut differs from the text before it. *)
Lemma evaluateRunCriteria_second_colon_counterexample :
  snd (@evaluateRunCriteria Reference.workflowEnv Scenario.context0 "a:a:b") = (true, None)
  ∧ ∀ before after : string,
      "a:a:b" = before +:+ ":" +:+ after →
      @Check Reference.workflowEnv
        (@Expand Reference.workflowEnv (state Scenario.context0)
                 (@TrimSpace Reference.workflowEnv after))
        (@Expand Reference.workflowEnv (state Scenario.context0)
                 (@TrimSpace Reference.workflowEnv before))
      = (false, None).
Proof.
  split; [reflexivity|].
  intros before after Heq.
  do 6 (destruct before as [|? before];
        cbv [String.append] in Heq; fold String.append in Heq;
        [ first [ discriminate Heq | injection Heq as Heq; subst; reflexivity ]
        | first [ discriminate Heq | injection Heq as ? Heq; subst ] ]).
Qed.

(** The criterion "a:a:b", with [before = "a"], [expected = "a"] and
    [tail = "b"]. *)
Lemma evaluateRunCriteria_fragments_witness :
  snd (@evaluateRunCriteria Reference.workflowEnv Scenario.context0 "a:a:b") = (true, None).
Proof.
  pose proof (@evaluateRunCriteria_fragments Reference.workflowEnv Scenario.context0
                "a" "a" "b" eq_refl eq_refl) as (_ & _ & _ & W).
  exact W.
Defined.

(** ** The record queue of a log file *)

Lemma recordsWithout_from (result : LogRecord) (records kept : list LogRecord) :
  fold_left (fun records candidate =>
               if samePointer candidate result then records else records ++ [candidate])
            records kept
  = kept ++ filter (λ c, rec_addr c ≠ rec_addr result) records.
Proof.
  revert kept. induction records as [|c rest IH]; intros kept; cbn [fold_left].
  - rewrite filter_nil, app_nil_r. reflexivity.
  - rewrite IH. unfold samePointer.
    destruct (Nat.eqb_spec (rec_addr c) (rec_addr result)) as [Heq|Hne].
    + rewrite filter_cons_False by (intros Hc; apply Hc, Heq). reflexivity.
    + rewrite filter_cons_True by exact Hne. rewrite <- app_assoc. reflexivity.
Qed.

Lemma recordsWithout_filter (result : LogRecord) (records : list LogRecord) :
  recordsWithout result records = filter (λ c, rec_addr c ≠ rec_addr result) records.
Proof. unfold recordsWithout. rewrite recordsWithout_from. reflexivity. Qed.

(** C7: on a file with queued records, [ShiftLogRecordByIndex(key)] returns
    the record [IndexedRecords] holds under [key] and leaves in [Records] the
    other records in their order; when the key is absent it returns the head
    of [Records] and leaves the rest. *)
Theorem ShiftLogRecordByIndex_spec (f : LogFile) (key : string) :
  lf_Records f ≠ [] →
  match lf_IndexedRecords f !! key with
  | Some result =>
      ShiftLogRecordByIndex f key
      = (withRecords f (filter (λ c, rec_addr c ≠ rec_addr result) (lf_Records f)),
         Some result)
  | None =>
      ∃ head rest,
        lf_Records f = head :: rest
        ∧ ShiftLogRecordByIndex f key = (withRecords f rest, Some head)
  end.
Proof.
  intros Hne. unfold ShiftLogRecordByIndex.
  destruct (lf_Records f) as [|head rest] eqn:Hrec; [contradiction|].
  destruct (lf_IndexedRecords f !! key) as [result|].
  - rewrite recordsWithout_filter. reflexivity.
  - exists head, rest. split; reflexivity.
Qed.

(** A queue A, B, C with B indexed under "B": shifting by "B" leaves A, C;
    shifting by an absent key pops A. *)
Lemma ShiftLogRecordByIndex_spec_witness :
  let f := withIndexedRecords
             (withRecords (Scenario.file0 Scenario.indexedType)
                          [Scenario.recordA; Scenario.recordB; Scenario.recordC])
             {["B" := Scenario.recordB]} in
  lf_Records f ≠ []
  ∧ ShiftLogRecordByIndex f "B"
    = (withRecords f [Scenario.recordA; Scenario.recordC], Some Scenario.recordB)
  ∧ ShiftLogRecordByIndex f "Z"
    = (withRecords f [Scenario.recordB; Scenario.recordC], Some Scenario.recordA).
Proof.
  intros f.
  assert (Hne : lf_Records f ≠ []) by discriminate.
  split; [exact Hne|]. split.
  - exact (ShiftLogRecordByIndex_spec f "B" Hne).
  - destruct (ShiftLogRecordByIndex_spec f "Z" Hne) as (head & rest & Hrec & Hshift).
    injection Hrec as <- <-. exact Hshift.
Defined.

Section QueueProperties.
Context `{RegexpLib}.

Lemma pointsInto_app (r : LogRecord) (l1 l2 : list LogRecord) :
  pointsInto r (l1 ++ l2) ↔ pointsInto r l1 ∨ pointsInto r l2.
Proof.
  unfold pointsInto. split.
  - intros (r' & Hin & Haddr). apply elem_of_app in Hin as [Hin|Hin]; eauto.
  - intros [(r' & Hin & Haddr)|(r' & Hin & Haddr)]; exists r'; rewrite elem_of_app; eauto.
Qed.

Lemma PushLogRecord_Records (f : LogFile) (record : LogRecord) :
  lf_Records (PushLogRecord f record) = lf_Records f ++ [record].
Proof.
  unfold PushLogRecord. cbn.
  destruct (UseIndex (lf_LogType f)); [|reflexivity].
  destruct (GetIndexExpr (lf_LogType f)) as [expr|]; [|reflexivity].
  destruct (negb _); reflexivity.
Qed.

Lemma PushLogRecord_IndexedRecords (f : LogFile) (record : LogRecord) (k : string)
    (r : LogRecord) :
  lf_IndexedRecords (PushLogRecord f record) !! k = Some r →
  r = record ∨ lf_IndexedRecords f !! k = Some r.
Proof.
  unfold PushLogRecord. cbn.
  destruct (UseIndex (lf_LogType f)); [|auto].
  destruct (GetIndexExpr (lf_LogType f)) as [expr|]; [|auto].
  destruct (negb _); [|auto]. cbn.
  destruct (decide (matchLogIndex expr (rec_Line record) = k)) as [<-|Hne].
  - rewrite lookup_insert_eq. intros [= <-]. auto.
  - rewrite lookup_insert_ne by exact Hne. auto.
Qed.

Lemma applyOp_keeps (f : LogFile) (returned : list LogRecord) (op : QueueOp) :
  indexedQueuedOrShifted f returned →
  indexedQueuedOrShifted (fst (applyOp (f, returned) op)) (snd (applyOp (f, returned) op)).
Proof.
  intros Hinv. destruct op as [record| |value]; cbn [applyOp].
  - cbn [fst snd]. intros k r Hk. rewrite PushLogRecord_Records, pointsInto_app.
    apply PushLogRecord_IndexedRecords in Hk as [->|Hk].
    + left. right. exists record. split; [apply list_elem_of_singleton|]; reflexivity.
    + destruct (Hinv k r Hk); auto.
  - unfold ShiftLogRecord. destruct (lf_Records f) as [|head rest] eqn:Hrec.
    + exact Hinv.
    + cbn [fst snd lf_Records lf_IndexedRecords withRecords]. intros k r Hk. rewrite pointsInto_app.
      destruct (Hinv k r Hk) as [(r' & Hin & Haddr)|Hret]; [|auto].
      rewrite Hrec in Hin. apply elem_of_cons in Hin as [->|Hin].
      * right. right. exists head. split; [apply list_elem_of_singleton; reflexivity|exact Haddr].
      * left. exists r'. auto.
  - unfold ShiftLogRecordByIndex. destruct (lf_Records f) as [|head rest] eqn:Hrec.
    + exact Hinv.
    + destruct (lf_IndexedRecords f !! value) as [result|] eqn:Hidx.
      * rewrite recordsWithout_filter. cbn [fst snd lf_Records lf_IndexedRecords withRecords]. intros k r Hk. rewrite pointsInto_app.
        destruct (Hinv k r Hk) as [(r' & Hin & Haddr)|Hret]; [|auto].
        rewrite Hrec in Hin.
        destruct (decide (rec_addr r' = rec_addr result)) as [Heq|Hne].
        -- right. right. exists result.
           split; [apply list_elem_of_singleton; reflexivity|congruence].
        -- left. exists r'. split; [|exact Haddr].
           apply list_elem_of_filter. auto.
      * cbn [fst snd lf_Records lf_IndexedRecords withRecords]. intros k r Hk. rewrite pointsInto_app.
        destruct (Hinv k r Hk) as [(r' & Hin & Haddr)|Hret]; [|auto].
        rewrite Hrec in Hin. apply elem_of_cons in Hin as [->|Hin].
        -- right. right. exists head.
           split; [apply list_elem_of_singleton; reflexivity|exact Haddr].
        -- left. exists r'. auto.
Qed.

Lemma applyOps_from_keeps (ops : list QueueOp) (st : LogFile * list LogRecord) :
  indexedQueuedOrShifted (fst st) (snd st) →
  indexedQueuedOrShifted (fst (fold_left applyOp ops st)) (snd (fold_left applyOp ops st)).
Proof.
  revert st. induction ops as [|op ops IH]; intros [f returned] Hinv; [exact Hinv|].
  cbn [fold_left]. apply IH.
  destruct (applyOp (f, returned) op) as [f' returned'] eqn:Hop.
  pose proof (applyOp_keeps f returned op Hinv) as Hkeep. rewrite Hop in Hkeep. exact Hkeep.
Qed.

(** C2 (as amended): on a file whose indexed records are all queued, after any
    sequence of [PushLogRecord], [ShiftLogRecord] and [ShiftLogRecordByIndex],
    every key of [IndexedRecords] maps to a record that is in [Records] or
    that a shift has handed out: a shift takes a record out of [Records] and
    leaves its entry in [IndexedRecords].  As long as no shift has handed a
    record out, every indexed record is in [Records]. *)
Theorem indexed_records_queued_or_shifted (f : LogFile) (ops : list QueueOp) :
  indexedInRecords f →
  indexedQueuedOrShifted (fst (applyOps f ops)) (snd (applyOps f ops))
  ∧ (snd (applyOps f ops) = [] → indexedInRecords (fst (applyOps f ops))).
Proof.
  intros Hinv.
  assert (Hkeep : indexedQueuedOrShifted (fst (applyOps f ops)) (snd (applyOps f ops))).
  { apply applyOps_from_keeps. intros k r Hk. left. exact (Hinv k r Hk). }
  split; [exact Hkeep|].
  intros Hnone k r Hk. destruct (Hkeep k r Hk) as [Hq|(r' & Hin & _)]; [exact Hq|].
  rewrite Hnone in Hin. apply elem_of_nil in Hin. contradiction.
Qed.

End QueueProperties.

Lemma indexedInRecords_fresh (logType : LogType) :
  indexedInRecords (Scenario.file0 logType).
Proof. intros k r Hk. cbn in Hk. rewrite lookup_empty in Hk. discriminate. Qed.

(** A fresh indexed file, one record pushed and shifted: [Records] is empty and
    [IndexedRecords] still maps "A" to the record. *)
Lemma indexedInRecords_counterexample :
  indexedInRecords (Scenario.file0 Scenario.indexedType)
  ∧ ¬ indexedInRecords
        (fst (@applyOps Reference.regexpLib (Scenario.file0 Scenario.indexedType)
                [OpPush Scenario.recordA; OpShift])).
Proof.
  split; [apply indexedInRecords_fresh|].
  intros Hinv.
  destruct (Hinv "A" Scenario.recordA) as (r' & Hin & _); [reflexivity|].
  vm_compute in Hin. inversion Hin.
Qed.

(** A and B pushed, B shifted by index, A shifted. *)
Lemma indexed_records_queued_or_shifted_witness :
  let run := @applyOps Reference.regexpLib (Scenario.file0 Scenario.indexedType)
               [OpPush Scenario.recordA; OpPush Scenario.recordB;
                OpShiftByIndex "B"; OpShift] in
  indexedInRecords (Scenario.file0 Scenario.indexedType)
  ∧ indexedQueuedOrShifted (fst run) (snd run).
Proof.
  intros run. split; [apply indexedInRecords_fresh|].
  exact (proj1 (@indexed_records_queued_or_shifted Reference.regexpLib _ _
                  (indexedInRecords_fresh Scenario.indexedType))).
Defined.

(** ** reset *)

Section ResetProperties.
Context `{LogEnv}.

Lemma reset_files_fold (l : list (string * LogFile)) (m : gmap string LogFile)
    (names : list string) :
  fold_left (fun acc entry =>
               (<[fst entry := resetLogFile (snd entry)]> (fst acc),
                snd acc ++ [lf_Name (snd entry)]))
            l (m, names)
  = (fold_left (fun acc entry => <[fst entry := resetLogFile (snd entry)]> acc) l m,
     names ++ ((λ entry, lf_Name (snd entry)) <$> l)).
Proof.
  revert m names. induction l as [|e l IH]; intros m names; cbn [fold_left fmap list_fmap].
  - rewrite app_nil_r. reflexivity.
  - cbn [fst snd]. rewrite IH, <- app_assoc. reflexivity.
Qed.

Lemma fold_insert_lookup (g : LogFile → LogFile) (l : list (string * LogFile))
    (m : gmap string LogFile) (i : string) :
  NoDup (l.*1) →
  (∀ v, (i, v) ∈ l →
        fold_left (fun acc entry => <[fst entry := g (snd entry)]> acc) l m !! i = Some (g v))
  ∧ (i ∉ l.*1 →
     fold_left (fun acc entry => <[fst entry := g (snd entry)]> acc) l m !! i = m !! i).
Proof.
  revert m. induction l as [|[k x] l IH]; intros m Hnd.
  - split; [intros v Hin; apply elem_of_nil in Hin; contradiction | reflexivity].
  - cbn [fmap list_fmap fst] in Hnd. apply NoDup_cons in Hnd as [Hk Hnd].
    cbn [fold_left fst snd].
    destruct (IH (<[k := g x]> m) Hnd) as [IHin IHout]. split.
    + intros v Hin. apply elem_of_cons in Hin as [Heq|Hin].
      * injection Heq as -> ->. rewrite (IHout Hk). apply lookup_insert_eq.
      * apply IHin. exact Hin.
    + intros Hi. cbn [fmap list_fmap fst] in Hi. apply not_elem_of_cons in Hi as [Hne Hi].
      rewrite (IHout Hi). apply lookup_insert_ne. congruence.
Qed.

Lemma reset_files_spec (logFiles : gmap string LogFile) (names : list string) :
  reset_files logFiles names
  = (resetLogFile <$> logFiles,
     names ++ ((λ entry, lf_Name (snd entry)) <$> map_to_list logFiles)).
Proof.
  unfold reset_files. rewrite reset_files_fold. f_equal.
  apply map_eq. intros i. rewrite lookup_fmap.
  destruct (fold_insert_lookup resetLogFile (map_to_list logFiles) logFiles i
              (NoDup_fst_map_to_list logFiles)) as [Hin Hout].
  destruct (logFiles !! i) as [v|] eqn:Hi.
  - cbn. apply Hin. apply elem_of_map_to_list. exact Hi.
  - cbn. rewrite Hout; [reflexivity|].
    intros Hel. apply list_elem_of_fmap in Hel as ([k v] & -> & Hel).
    apply elem_of_map_to_list in Hel. cbn in Hi. congruence.
Qed.

Lemma resetMetaTimes_0 (m : LogTypeMeta) : resetMetaTimes 0 m = m.
Proof.
  unfold resetMetaTimes. cbn [Nat.iter].
  rewrite (map_fmap_id (meta_LogFiles m)). destruct m; reflexivity.
Qed.

Lemma resetMetaTimes_S (n : nat) (m : LogTypeMeta) :
  resetMetaTimes n
    (mkLogTypeMeta (meta_Source m) (meta_LogType m) (resetLogFile <$> meta_LogFiles m))
  = resetMetaTimes (S n) m.
Proof.
  unfold resetMetaTimes. cbn [meta_Source meta_LogType meta_LogFiles]. f_equal.
  rewrite <- map_fmap_compose. apply map_fmap_ext. intros i x _.
  unfold compose. symmetry. apply Nat.iter_succ_r.
Qed.

Lemma registeredFileNames_reset (s : logValidatorService) (key : string) (m : LogTypeMeta)
    (name : string) :
  metas s !! key = Some m →
  registeredFileNames
    (withMetas s
       (<[key := mkLogTypeMeta (meta_Source m) (meta_LogType m)
                                (resetLogFile <$> meta_LogFiles m)]> (metas s)))
    name
  ≡ₚ registeredFileNames s name.
Proof.
  intros Hm. unfold registeredFileNames. cbn [metas withMetas].
  destruct (decide (key = logTypeMetaKey name)) as [<-|Hne].
  - rewrite lookup_insert_eq, Hm. cbn [meta_LogFiles].
    rewrite map_to_list_fmap, <- list_fmap_compose.
    match goal with |- ?a ≡ₚ ?b => assert (a = b) as ->; [|reflexivity] end.
    apply list_fmap_ext. intros i [k v] _. reflexivity.
  - rewrite lookup_insert_ne by exact Hne. reflexivity.
Qed.

Lemma mjoin_fmap_Permutation (f g : string → list string) (l : list string) :
  (∀ x, f x ≡ₚ g x) → mjoin (f <$> l) ≡ₚ mjoin (g <$> l).
Proof.
  intros Hfg. induction l as [|x l IH]; [reflexivity|].
  cbn. rewrite (Hfg x), IH. reflexivity.
Qed.

Lemma occurrences_cons (key name : string) (rest : list string) :
  occurrences key (name :: rest)
  = if decide (logTypeMetaKey name = key) then S (occurrences key rest)
    else occurrences key rest.
Proof.
  unfold occurrences. destruct (decide (logTypeMetaKey name = key)) as [Heq|Hne].
  - rewrite filter_cons_True by exact Heq. reflexivity.
  - rewrite filter_cons_False by exact Hne. reflexivity.
Qed.

Lemma reset_types_spec (logTypes : list string) (s : logValidatorService)
    (names : list string) :
  (∀ key, metas (fst (reset_types s logTypes names)) !! key
          = resetMetaTimes (occurrences key logTypes) <$> metas s !! key)
  ∧ allocated (fst (reset_types s logTypes names)) = allocated s
  ∧ tailers (fst (reset_types s logTypes names)) = tailers s
  ∧ snd (reset_types s logTypes names)
    ≡ₚ names ++ mjoin (registeredFileNames s <$> logTypes).
Proof.
  revert s names. induction logTypes as [|name rest IH]; intros s names.
  - cbn. rewrite app_nil_r. repeat split; try reflexivity.
    intros key. destruct (metas s !! key) as [m|]; cbn; [|reflexivity].
    rewrite resetMetaTimes_0. reflexivity.
  - cbn [reset_types].
    destruct (metas s !! logTypeMetaKey name) as [m|] eqn:Hm.
    + rewrite reset_files_spec.
      match goal with
      | |- context [reset_types ?s1 rest ?names1] =>
          destruct (IH s1 names1) as (Hmetas & Halloc & Htail & Hnames)
      end.
      split; [|split; [exact Halloc|split; [exact Htail|]]].
      * intros key. rewrite Hmetas, occurrences_cons. cbn [metas withMetas].
        destruct (decide (logTypeMetaKey name = key)) as [<-|Hne].
        -- rewrite lookup_insert_eq, Hm. cbn. rewrite resetMetaTimes_S. reflexivity.
        -- rewrite lookup_insert_ne by exact Hne. reflexivity.
      * rewrite Hnames. cbn [fmap list_fmap mjoin list_join].
        rewrite <- app_assoc. apply Permutation_app_head.
        unfold registeredFileNames at 2. rewrite Hm.
        apply Permutation_app_head.
        apply mjoin_fmap_Permutation. intros x.
        apply registeredFileNames_reset. exact Hm.
    + destruct (IH s names) as (Hmetas & Halloc & Htail & Hnames).
      split; [|split; [exact Halloc|split; [exact Htail|]]].
      * intros key. rewrite Hmetas, occurrences_cons.
        destruct (decide (logTypeMetaKey name = key)) as [<-|Hne]; [|reflexivity].
        rewrite Hm. reflexivity.
      * rewrite Hnames. cbn [fmap list_fmap mjoin list_join].
        unfold registeredFileNames at 2. rewrite Hm. reflexivity.
Qed.

(** C10: [reset] returns no error, whatever the request.  A requested name
    with no registered meta changes nothing and adds no file name; every file
    of a registered, requested type goes through
    [ProcessingState = {Position: Size, Line: len(Records)}] and
    [Records = []], once for each time its type is named; the names returned
    are those of these files and no others. *)
Theorem reset_spec (s : logValidatorService) (context : Context)
    (request : LogValidatorResetRequest) :
  snd (snd (reset s context request)) = None
  ∧ (∀ key, metas (fst (reset s context request)) !! key
            = resetMetaTimes (occurrences key (reset_LogTypes request)) <$> metas s !! key)
  ∧ (∀ logFile,
       resetLogFile logFile
       = mkLogFile (lf_URL logFile) (lf_Content logFile) (lf_Name logFile)
                   (lf_LogType logFile)
                   (mkLogProcessingState (Z.of_nat (length (lf_Records logFile)))
                                         (lf_Size logFile))
                   (lf_LastModified logFile) (lf_Size logFile) []
                   (lf_IndexedRecords logFile))
  ∧ reset_LogFiles (fst (snd (reset s context request)))
    ≡ₚ mjoin (registeredFileNames s <$> reset_LogTypes request).
Proof.
  unfold reset.
  destruct (reset_types_spec (reset_LogTypes request) s []) as (Hmetas & _ & _ & Hnames).
  destruct (reset_types s (reset_LogTypes request) []) as [s' names].
  cbn [fst snd reset_LogFiles] in *.
  split; [reflexivity|]. split; [exact Hmetas|]. split; [reflexivity|]. exact Hnames.
Qed.

End ResetProperties.


(** ** listen and readLogFile *)

Section ListenProperties.
Context `{LogEnv}.

Lemma listen_registered_found (s : logValidatorService) (types : list LogType)
    (logType : LogType) :
  logType ∈ types →
  is_Some (metas s !! logTypeMetaKey (lt_Name logType)) →
  ∃ name, listen_registered s types = Some name.
Proof.
  intros Hin Hreg. induction types as [|t rest IH]; [apply elem_of_nil in Hin; contradiction|].
  cbn [listen_registered]. destruct (bool_decide _) eqn:Hb; [eauto|].
  apply elem_of_cons in Hin as [->|Hin]; [|exact (IH Hin)].
  apply bool_decide_eq_false in Hb. contradiction.
Qed.

(** C8: a [listen] call that names a log type whose [meta_<name>] key is in
    the service state returns an error and leaves the service as it was: no
    meta is installed or replaced, no file is read and no tailer is started. *)
Theorem listen_rejects_registered (s : logValidatorService) (context : Context)
    (request : LogValidatorListenRequest) (logType : LogType) :
  logType ∈ listen_Types request →
  is_Some (metas s !! logTypeMetaKey (lt_Name logType)) →
  ∃ err, listen s context request = (s, Err err).
Proof.
  intros Hin Hreg. unfold listen.
  destruct (ExpandResource context (listen_Source request)) as [source|err]; [|eauto].
  destruct (listen_registered_found s _ _ Hin Hreg) as [name ->]. eauto.
Qed.

Lemma storeLogFile_lookup (s : logValidatorService) (key name : string) (f : LogFile)
    (m : LogTypeMeta) :
  metas s !! key = Some m →
  metas (storeLogFile s key name f) !! key
  = Some (mkLogTypeMeta (meta_Source m) (meta_LogType m) (<[name := f]> (meta_LogFiles m))).
Proof.
  intros Hm. unfold storeLogFile. cbn [metas withMetas].
  rewrite lookup_alter_eq, Hm. reflexivity.
Qed.

Lemma readLogRecords_from_start (f : LogFile) (next : nat) (content : string) :
  ps_Position (lf_ProcessingState f) = 0 →
  readLogRecords f next content
  = Ok (scan_file (readLogRecords_loop
                     (mkScanState f next "" (ps_Line (lf_ProcessingState f)) 0) content),
        scan_allocated (readLogRecords_loop
                          (mkScanState f next "" (ps_Line (lf_ProcessingState f)) 0) content)).
Proof.
  intros Hpos. unfold readLogRecords. rewrite Hpos.
  destruct (Z.ltb_spec (len content) 0) as [Hlt|_]; [unfold len in Hlt; lia|].
  reflexivity.
Qed.

(** C6: when [readLogFile] downloads a tracked file and the new content is
    shorter than the cached [Content], or the new size is greater than the
    cached [Size] and the new content does not start with the cached
    [Content], the file goes through [Reset] - [Size] set to the new file
    size, [Position] and [Line] to 0 - and its records are read again from
    offset 0 of the new content. *)
Theorem readLogFile_resets (s : logValidatorService) (source : Resource)
    (service : StorageService) (candidate : Object) (logType : LogType)
    (meta : LogTypeMeta) (cached : LogFile) (content : string) :
  let key := logTypeMetaKey (lt_Name logType) in
  let name := snd (URLSplit (obj_URL candidate)) in
  metas s !! key = Some meta →
  meta_LogFiles meta !! name = Some cached →
  (lf_Size cached =? obj_Size candidate)
  && (Unix (lf_LastModified cached) =? Unix (obj_ModTime candidate)) = false →
  storage_Download service candidate = inl content →
  len content < len (lf_Content cached)
  ∨ (lf_Size cached < obj_Size candidate ∧ HasPrefix content (lf_Content cached) = false) →
  let fresh := LogFile_Reset cached candidate in
  let scanned :=
    readLogRecords_loop
      (mkScanState (withSize (withContent fresh content) (len content)) (allocated s) "" 0 0)
      content in
  lf_Size fresh = obj_Size candidate
  ∧ lf_ProcessingState fresh = mkLogProcessingState 0 0
  ∧ ∃ s' meta',
      readLogFile s source service candidate logType = (s', Ok meta')
      ∧ metas s' !! key = Some meta'
      ∧ meta_LogFiles meta' !! name = Some (scan_file scanned).
Proof.
  intros key name Hmeta Hfile Hskip Hdownload Hreset fresh scanned.
  split; [reflexivity|]. split; [reflexivity|].
  unfold readLogFile. fold key. fold name.
  rewrite bool_decide_eq_true_2 by (rewrite Hmeta; eauto).
  rewrite Hmeta, Hfile. cbn [negb andb]. rewrite Hskip, Hdownload.
  set (s1 := storeLogFile s key name cached).
  assert (Hs1 : metas s1 !! key
                = Some (mkLogTypeMeta (meta_Source meta) (meta_LogType meta)
                                      (<[name := cached]> (meta_LogFiles meta))))
    by (apply storeLogFile_lookup; exact Hmeta).
  assert (Hfinal :
    (let '(logFile, fileOverridden) :=
       if len content <? len (lf_Content cached)
       then (withContent (LogFile_Reset cached candidate) content, true)
       else (cached, false) in
     withSize
       (withContent
          (if negb fileOverridden && (lf_Size logFile <? obj_Size candidate)
              && negb (HasPrefix content (lf_Content logFile))
           then LogFile_Reset logFile candidate else logFile) content) (len content))
    = withSize (withContent fresh content) (len content)).
  { destruct (Z.ltb_spec (len content) (len (lf_Content cached))) as [Hlt|Hge].
    - reflexivity.
    - destruct Hreset as [Hlt|[Hsize Hprefix]]; [lia|].
      cbn [negb andb]. rewrite Hprefix.
      destruct (Z.ltb_spec (lf_Size cached) (obj_Size candidate)) as [_|Hle]; [|lia].
      reflexivity. }
  destruct (if len content <? len (lf_Content cached)
            then (withContent (LogFile_Reset cached candidate) content, true)
            else (cached, false)) as [logFile fileOverridden].
  rewrite Hfinal.
  set (reset := withSize (withContent fresh content) (len content)).
  assert (Hscan : readLogRecords reset (allocated s1) content
                  = Ok (scan_file scanned, scan_allocated scanned))
    by (apply readLogRecords_from_start; reflexivity).
  destruct (Z.ltb_spec 0 (len content)) as [Hpos|Hzero].
  - rewrite Hscan.
    set (s2 := storeLogFile s1 key name (scan_file scanned)).
    assert (Hs2 : metas s2 !! key
                  = Some (mkLogTypeMeta (meta_Source meta) (meta_LogType meta)
                            (<[name := scan_file scanned]>
                               (<[name := cached]> (meta_LogFiles meta)))))
      by (unfold s2; rewrite (storeLogFile_lookup _ _ _ _ _ Hs1); reflexivity).
    cbn [metas]. rewrite Hs2. eexists _, _. split; [reflexivity|].
    split; [exact Hs2|]. apply lookup_insert_eq.
  - assert (Hempty : content = "").
    { destruct content; [reflexivity|]. unfold len in Hzero. cbn in Hzero. lia. }
    set (s2 := storeLogFile s1 key name reset).
    assert (Hs2 : metas s2 !! key
                  = Some (mkLogTypeMeta (meta_Source meta) (meta_LogType meta)
                            (<[name := reset]> (<[name := cached]> (meta_LogFiles meta)))))
      by (unfold s2; rewrite (storeLogFile_lookup _ _ _ _ _ Hs1); reflexivity).
    rewrite Hs2. eexists _, _. split; [reflexivity|].
    split; [exact Hs2|]. cbn [meta_LogFiles]. rewrite lookup_insert_eq.
    unfold scanned, reset. rewrite Hempty. reflexivity.
Qed.

End ListenProperties.

(** ** assert *)

Section AssertProperties.
Context `{LogEnv}.

Lemma HasNext_scan_idle (s : logValidatorService) (key : string) (logFiles : list string)
    (index : nat) :
  noPendingLogs s key → HasNext_scan s key logFiles index = None.
Proof.
  intros Hidle. revert index. induction logFiles as [|name rest IH]; intros index;
    [reflexivity|].
  cbn [HasNext_scan]. rewrite (Hidle name). apply IH.
Qed.

Lemma HasNext_idle (s : logValidatorService) (i : logRecordIterator) :
  noPendingLogs s (it_meta i) →
  ∃ i', HasNext s i = (i', false) ∧ it_meta i' = it_meta i.
Proof.
  intros Hidle. unfold HasNext. rewrite !(HasNext_scan_idle _ _ _ _ Hidle).
  eexists. split; reflexivity.
Qed.

Lemma withEvents_same (context : Context) : withEvents context (Events context) = context.
Proof. destruct context; reflexivity. Qed.

Lemma AddEvent_sleepEvent (context : Context) (d : Z) :
  AddEvent context (evType (sleepEvent d)) (evValue (sleepEvent d))
  = withEvents context (Events context ++ [sleepEvent d]).
Proof. reflexivity. Qed.

Lemma assert_wait_idle (d : Z) (rounds : nat) (a : assertState) :
  (∀ k, (k < rounds)%nat →
        noPendingLogs (sleptService (as_sleeps a) k d (as_service a))
                      (it_meta (as_iterator a))) →
  ∃ i',
    assert_wait rounds d a
    = mkAssertState (sleptService (as_sleeps a) rounds d (as_service a))
                    (withEvents (as_context a)
                       (Events (as_context a) ++ replicate rounds (sleepEvent d)))
                    i' (as_response a) (as_sleeps a + rounds)
    ∧ it_meta i' = it_meta (as_iterator a).
Proof.
  revert a. induction rounds as [|rounds IH]; intros a Hidle.
  - exists (as_iterator a). cbn [assert_wait sleptService replicate].
    rewrite app_nil_r, withEvents_same, Nat.add_0_r. destruct a; split; reflexivity.
  - cbn [assert_wait].
    destruct (HasNext_idle (as_service a) (as_iterator a)) as (i1 & -> & Hi1).
    { apply (Hidle 0%nat). lia. }
    rewrite AddEvent_sleepEvent.
    match goal with
    | |- context [assert_wait rounds d ?a1] => destruct (IH a1) as (i' & -> & Hi')
    end.
    { intros k Hk. cbn [as_sleeps as_service as_iterator]. rewrite Hi1.
      apply (Hidle (S k)). lia. }
    exists i'. cbn [as_sleeps as_service as_iterator as_context as_response].
    split; [|cbn [as_iterator] in Hi'; congruence].
    cbn [sleptService]. unfold withEvents. cbn [state Events Workflows SessionID EventLogger].
    rewrite <- app_assoc. cbn [replicate app]. rewrite Nat.add_succ_r. reflexivity.
Qed.

Lemma assert_wait_bound (d : Z) (rounds : nat) (a : assertState) :
  (as_sleeps a ≤ as_sleeps (assert_wait rounds d a) ≤ as_sleeps a + rounds)%nat
  ∧ as_context (assert_wait rounds d a)
    = withEvents (as_context a)
        (Events (as_context a)
         ++ replicate (as_sleeps (assert_wait rounds d a) - as_sleeps a) (sleepEvent d))
  ∧ as_response (assert_wait rounds d a) = as_response a.
Proof.
  revert a. induction rounds as [|rounds IH]; intros a.
  - cbn [assert_wait]. rewrite Nat.sub_diag. cbn [replicate].
    rewrite app_nil_r, withEvents_same. repeat split; lia.
  - cbn [assert_wait]. destruct (HasNext (as_service a) (as_iterator a)) as [i available].
    destruct available.
    + cbn [as_sleeps as_context as_response]. rewrite Nat.sub_diag. cbn [replicate].
      rewrite app_nil_r, withEvents_same. repeat split; lia.
    + rewrite AddEvent_sleepEvent.
      match goal with
      | |- context [assert_wait rounds d ?a1] =>
          destruct (IH a1) as ([Hlo Hhi] & Hctx & Hresp); set (a' := assert_wait rounds d a1) in *
      end.
      cbn [as_sleeps as_context as_response] in Hlo, Hhi, Hctx, Hresp.
      split; [lia|]. split; [|exact Hresp].
      rewrite Hctx. unfold withEvents. cbn [state Events Workflows SessionID EventLogger].
      rewrite <- app_assoc. cbn [app].
      replace (as_sleeps a' - as_sleeps a)%nat with (S (as_sleeps a' - S (as_sleeps a))) by lia.
      reflexivity.
Qed.

Lemma assert_record_missing (request : LogValidatorAssertRequest)
    (expectedLogRecords : ExpectedLogRecord) (logTypeMeta : LogTypeMeta)
    (expectedLogRecord : Value) (a : assertState) :
  let rounds := Z.to_nat (assert_LogWaitRetryCount request) in
  let d := millisecondsDuration (assert_LogWaitTimeMs request) in
  (∀ k, (k ≤ rounds)%nat →
        noPendingLogs (sleptService (as_sleeps a) k d (as_service a))
                      (it_meta (as_iterator a))) →
  let response :=
    mkAssertResponse (assert_Description' (as_response a))
      (assert_Validations (as_response a)
       ++ [missingValidation expectedLogRecords expectedLogRecord]) in
  ∃ i',
    assert_record request expectedLogRecords logTypeMeta expectedLogRecord a
    = Return (mkAssertState (sleptService (as_sleeps a) rounds d (as_service a))
                (withEvents (as_context a)
                   (Events (as_context a) ++ replicate rounds (sleepEvent d)))
                i' response (as_sleeps a + rounds))
             (Ok response).
Proof.
  intros rounds d Hidle response. unfold assert_record. fold rounds. fold d.
  match goal with
  | |- context [assert_wait rounds d ?a1] =>
      destruct (assert_wait_idle d rounds a1) as (i1 & -> & Hi1)
  end.
  { intros k Hk. apply (Hidle k). lia. }
  cbn [as_service as_iterator as_context as_response as_sleeps] in *.
  destruct (HasNext_idle (sleptService (as_sleeps a) rounds d (as_service a)) i1)
    as (i2 & -> & Hi2).
  { rewrite Hi1. apply (Hidle rounds). lia. }
  cbn [negb as_service as_iterator as_context as_response as_sleeps].
  exists i2. unfold updateValidation. cbn [assert_Description' assert_Validations].
  rewrite removelast_last. reflexivity.
Qed.

Lemma Next_error (s : logValidatorService) (i : logRecordIterator) (itemPointer : ItemPointer)
    (s' : logValidatorService) (e : error) :
  Next s i itemPointer = (s', Err e) → ∃ type, itemPointer = OtherPointer type.
Proof.
  unfold Next. destruct itemPointer as [IndexValue| |type]; [| |eauto].
  all: destruct (it_logFiles i !! it_logFileIndex i) as [name|]; [|discriminate].
  all: destruct (metas s !! it_meta i) as [m|]; [|discriminate].
  all: destruct (meta_LogFiles m !! name) as [logFile|]; [|discriminate].
  - destruct (ShiftLogRecordByIndex logFile IndexValue). discriminate.
  - destruct (ShiftLogRecord logFile). discriminate.
Qed.

Lemma assert_record_errors (request : LogValidatorAssertRequest)
    (expectedLogRecords : ExpectedLogRecord) (logTypeMeta : LogTypeMeta)
    (expectedLogRecord : Value) (a a' : assertState) (e : error) :
  assert_record request expectedLogRecords logTypeMeta expectedLogRecord a = Return a' (Err e) →
  (∃ line, DecodeJSON line = inr e)
  ∨ (∃ context root actual context',
       Assert context root expectedLogRecord actual = (context', inr e)).
Proof.
  unfold assert_record.
  match goal with |- context [assert_wait ?r ?d ?a1] => generalize (assert_wait r d a1) end.
  intros a1. destruct (HasNext (as_service a1) (as_iterator a1)) as [i available].
  destruct available; cbn [negb]; [|discriminate].
  match goal with |- context [Next ?s ?i ?p] => destruct (Next s i p) as [s1 r] eqn:Hnext end.
  destruct r as [[logRecord|]|e1|].
  - destruct (IsMap expectedLogRecord).
    + destruct (DecodeJSON (rec_Line logRecord)) as [result|err] eqn:Hdecode.
      * destruct (Assert _ _ _ _) as [context' [logValidation|err]] eqn:Hassert;
          [discriminate|].
        intros [= _ <-]. right. eauto.
      * intros [= _ <-]. left. eauto.
    + destruct (Assert _ _ _ _) as [context' [logValidation|err]] eqn:Hassert;
        [discriminate|].
      intros [= _ <-]. right. eauto.
  - discriminate.
  - apply Next_error in Hnext as [type Hptr].
    destruct (negb _) in Hptr; discriminate.
  - discriminate.
Qed.

Lemma sleepEvent_milliseconds (ms : Z) :
  -9223372036854 <= ms <= 9223372036854 →
  sleepEvent (millisecondsDuration ms) = sleepEventOf ms.
Proof.
  intros Hrange. unfold sleepEvent, sleepEventOf, millisecondsDuration, wrap64.
  rewrite Z.mod_small by lia.
  replace (ms * 1000000 + 2 ^ 63 - 2 ^ 63) with (ms * 1000000) by lia.
  rewrite Z.quot_mul by lia. reflexivity.
Qed.

Lemma assert_missing_first (s : logValidatorService) (context : Context)
    (request : LogValidatorAssertRequest) (group : ExpectedLogRecord)
    (rest : list ExpectedLogRecord) (expected : Value) (more : list Value)
    (meta : LogTypeMeta) :
  let waitMs :=
    if assert_LogWaitTimeMs request =? 0 then 500 else assert_LogWaitTimeMs request in
  let retryCount :=
    if assert_LogWaitRetryCount request =? 0 then 3 else assert_LogWaitRetryCount request in
  let rounds := Z.to_nat retryCount in
  let d := millisecondsDuration waitMs in
  assert_ExpectedLogRecords request = group :: rest →
  exp_Records group = expected :: more →
  metas s !! logTypeMetaKey (exp_Type group) = Some meta →
  (∀ k, (k ≤ rounds)%nat →
        noPendingLogs (sleptService 0 k d s) (logTypeMetaKey (exp_Type group))) →
  assert s context request
  = (sleptService 0 rounds d s,
     withEvents context (Events context ++ replicate rounds (sleepEvent d)),
     Ok (mkAssertResponse (assert_Description request) [missingValidation group expected])).
Proof.
  intros waitMs retryCount rounds d Hgroups Hrecords Hmeta Hidle.
  subst d rounds retryCount waitMs.
  unfold assert. rewrite Hgroups. cbn [length].
  destruct (Z.eqb_spec (Z.of_nat (S (length rest))) 0) as [Hz|_]; [lia|].
  destruct (assert_LogWaitTimeMs request =? 0) eqn:Hw;
    cbn [assert_LogWaitRetryCount assert_LogWaitTimeMs assert_ExpectedLogRecords
         assert_Description];
    destruct (assert_LogWaitRetryCount request =? 0) eqn:Hr;
    cbn [assert_LogWaitRetryCount assert_LogWaitTimeMs assert_ExpectedLogRecords
         assert_Description];
    rewrite ?Hgroups; cbv iota in Hidle |- *.
  all: cbn [assert_groups as_service]; unfold getLogTypeMeta; rewrite Hmeta, Hrecords;
    cbn [assert_records].
  all: match goal with
       | |- context [assert_record ?rq ?g ?m ?e ?a1] =>
           destruct (assert_record_missing rq g m e a1) as (i' & ->);
             [exact Hidle|]
       end.
  all: cbn [as_service as_context as_sleeps as_response assert_Description'
            assert_Validations app assert_LogWaitRetryCount assert_LogWaitTimeMs].
  all: reflexivity.
Qed.

(** C5: [assert] takes [LogWaitTimeMs] and [LogWaitRetryCount] as 500 and 3
    when they are 0.  For an expected record it polls [HasNext] at most
    [LogWaitRetryCount] times, sleeping [LogWaitTimeMs] after each poll that
    finds nothing (the sleep event carries [LogWaitTimeMs] as long as the
    duration in nanoseconds fits 64 bits); when no record has come after the
    last sleep it adds the failure "missing log record" to the validation of
    that record in [Validations] and returns the response with no error, which
    the route answers with [Status] ["ok"].  The only errors of the body of the loop are
    those of the JSON decoder and of [Assert]: a missing record and a
    validation that carries failures are none. *)
Theorem assert_missing_record (s : logValidatorService) (context : Context)
    (request : LogValidatorAssertRequest) (group : ExpectedLogRecord)
    (rest : list ExpectedLogRecord) (expected : Value) (more : list Value)
    (meta : LogTypeMeta) :
  let waitMs :=
    if assert_LogWaitTimeMs request =? 0 then 500 else assert_LogWaitTimeMs request in
  let retryCount :=
    if assert_LogWaitRetryCount request =? 0 then 3 else assert_LogWaitRetryCount request in
  let rounds := Z.to_nat retryCount in
  let d := millisecondsDuration waitMs in
  assert_ExpectedLogRecords request = group :: rest →
  exp_Records group = expected :: more →
  metas s !! logTypeMetaKey (exp_Type group) = Some meta →
  (∀ k, (k ≤ rounds)%nat →
        noPendingLogs (sleptService 0 k d s) (logTypeMetaKey (exp_Type group))) →
  assert s context request
  = (sleptService 0 rounds d s,
     withEvents context (Events context ++ replicate rounds (sleepEvent d)),
     Ok (mkAssertResponse (assert_Description request) [missingValidation group expected]))
  ∧ routeStatus (snd (assert s context request)) = Some "ok"
  ∧ (∀ request' group' meta' expected' a,
       (∀ k, (k ≤ Z.to_nat (assert_LogWaitRetryCount request'))%nat →
             noPendingLogs
               (sleptService (as_sleeps a) k
                  (millisecondsDuration (assert_LogWaitTimeMs request')) (as_service a))
               (it_meta (as_iterator a))) →
       ∃ a',
         assert_record request' group' meta' expected' a
         = Return a' (Ok (mkAssertResponse (assert_Description' (as_response a))
                            (assert_Validations (as_response a)
                             ++ [missingValidation group' expected']))))
  ∧ (∀ n a,
       (as_sleeps (assert_wait n d a) ≤ as_sleeps a + n)%nat
       ∧ Events (as_context (assert_wait n d a))
         = Events (as_context a)
           ++ replicate (as_sleeps (assert_wait n d a) - as_sleeps a) (sleepEvent d))
  ∧ (-9223372036854 <= waitMs <= 9223372036854 → sleepEvent d = sleepEventOf waitMs)
  ∧ (∀ request' group' meta' expected' a a' e,
       assert_record request' group' meta' expected' a = Return a' (Err e) →
       (∃ line, DecodeJSON line = inr e)
       ∨ (∃ c root actual c', Assert c root expected' actual = (c', inr e))).
Proof.
  intros waitMs retryCount rounds d Hgroups Hrecords Hmeta Hidle.
  assert (Hmain := assert_missing_first s context request group rest expected more meta
                      Hgroups Hrecords Hmeta Hidle).
  fold waitMs retryCount in Hmain. fold rounds in Hmain. fold d in Hmain.
  split; [exact Hmain|]. split; [rewrite Hmain; reflexivity|]. split; [|split; [|split]].
  - intros request' group' meta' expected' a Ha.
    destruct (assert_record_missing request' group' meta' expected' a Ha) as (i' & ->).
    eexists. reflexivity.
  - intros n a. destruct (assert_wait_bound d n a) as ([_ Hhi] & Hctx & _).
    split; [exact Hhi|]. rewrite Hctx. reflexivity.
  - apply sleepEvent_milliseconds.
  - intros request' group' meta' expected' a a' e. apply assert_record_errors.
Qed.

End AssertProperties.

(** ** The properties at concrete inputs *)

(** [event1] is registered; a request for [event2] and [event1] is refused. *)
Lemma listen_rejects_registered_witness :
  let s :=
    mkLogValidatorService
      {["meta_event1" := NewLogTypeMeta (mkResource "mem://logs" "") Scenario.indexedType]}
      0 [] in
  let request :=
    mkListenRequest 0 (mkResource "mem://logs" "") [Scenario.plainType; Scenario.indexedType] in
  Scenario.indexedType ∈ listen_Types request
  ∧ ∃ err, @listen Reference.logEnv s Scenario.context0 request = (s, Err err).
Proof.
  intros s request.
  assert (Hin : Scenario.indexedType ∈ listen_Types request)
    by (apply list_elem_of_further, list_elem_of_here).
  split; [exact Hin|].
  apply (@listen_rejects_registered Reference.logEnv s Scenario.context0 request
           Scenario.indexedType Hin).
  eexists. reflexivity.
Defined.

(** A file tracked with two lines read; the new content is one shorter line,
    which is queued as line 1 with [Position] at its end. *)
Lemma readLogFile_resets_witness :
  let cached :=
    mkLogFile "elog1.log" ("id=A" +:+ String LF ("id=B" +:+ String LF "")) "elog1.log"
              Scenario.indexedType (mkLogProcessingState 2 10) 0 10 [] ∅ in
  let s :=
    mkLogValidatorService
      {["meta_event1" := mkLogTypeMeta (mkResource "mem://logs" "") Scenario.indexedType
                                       {["elog1.log" := cached]}]}
      2 [] in
  let candidate := mkObject "elog1.log" false 5 1000000000 in
  let service :=
    mkStorageService (fun _ => inl [candidate]) (fun _ => inl ("id=C" +:+ String LF "")) in
  ∃ s' meta' logFile,
    @readLogFile Reference.logEnv s (mkResource "mem://logs" "") service candidate
                 Scenario.indexedType
    = (s', Ok meta')
    ∧ meta_LogFiles meta' !! "elog1.log" = Some logFile
    ∧ lf_Records logFile = [mkLogRecord 2 "elog1.log" 1 "id=C"]
    ∧ lf_ProcessingState logFile = mkLogProcessingState 1 5
    ∧ lf_Size logFile = 5.
Proof.
  intros cached s candidate service.
  destruct (@readLogFile_resets Reference.logEnv s (mkResource "mem://logs" "") service
              candidate Scenario.indexedType
              (mkLogTypeMeta (mkResource "mem://logs" "") Scenario.indexedType
                             {["elog1.log" := cached]})
              cached ("id=C" +:+ String LF ""))
    as (_ & _ & s' & meta' & Hread & _ & Hfile).
  - reflexivity.
  - reflexivity.
  - reflexivity.
  - reflexivity.
  - left. reflexivity.
  - exists s', meta'. eexists. split; [exact Hread|]. split; [exact Hfile|].
    repeat split; reflexivity.
Defined.

(** A registered type with no file, one expected record, both waits given as
    0: three sleeps of 500 ms, then the missing-record failure. *)
Lemma assert_missing_record_witness :
  let s :=
    mkLogValidatorService
      {["meta_event1" := NewLogTypeMeta (mkResource "mem://logs" "") Scenario.indexedType]}
      0 [] in
  let group := mkExpectedLogRecord "tag1" "event1" [VString "id=A"] in
  let request := mkAssertRequest "logs" 0 0 [group] in
  @assert Reference.logEnv s Scenario.context0 request
  = (s,
     withEvents Scenario.context0 [sleepEventOf 500; sleepEventOf 500; sleepEventOf 500],
     Ok (mkAssertResponse "logs" [missingValidation group (VString "id=A")])).
Proof.
  intros s group request.
  refine (proj1 (@assert_missing_record Reference.logEnv s Scenario.context0 request group []
                   (VString "id=A") []
                   (NewLogTypeMeta (mkResource "mem://logs" "") Scenario.indexedType)
                   eq_refl eq_refl eq_refl _)).
  intros k _ name.
  assert (Hs : @sleptService Reference.logEnv 0 k (millisecondsDuration 500) s = s).
  { generalize 0%nat. induction k as [|k IH]; intros first; [reflexivity|].
    cbn [sleptService]. apply IH. }
  cbn [Z.eqb assert_LogWaitTimeMs request]. rewrite Hs. reflexivity.
Defined.

(** * Further properties *)

(** ** The queue of a file *)

Section QueueOrder.
Context `{RegexpLib}.

Lemma applyOps_pushes (records : list LogRecord) (f : LogFile) (returned : list LogRecord) :
  snd (fold_left applyOp (OpPush <$> records) (f, returned)) = returned
  ∧ lf_Records (fst (fold_left applyOp (OpPush <$> records) (f, returned)))
    = lf_Records f ++ records.
Proof.
  revert f. induction records as [|r records IH]; intros f.
  - cbn. rewrite app_nil_r. split; reflexivity.
  - cbn [fmap list_fmap fold_left applyOp]. destruct (IH (PushLogRecord f r)) as [Hret Hrec].
    split; [exact Hret|]. rewrite Hrec, PushLogRecord_Records, <- app_assoc. reflexivity.
Qed.

Lemma applyOps_shifts (queue : list LogRecord) (f : LogFile) (returned : list LogRecord) :
  lf_Records f = queue →
  fold_left applyOp (replicate (length queue) OpShift) (f, returned)
  = (withRecords f [], returned ++ queue).
Proof.
  revert f returned. induction queue as [|r queue IH]; intros f returned Hq.
  - cbn. rewrite app_nil_r. destruct f; cbn in Hq; subst; reflexivity.
  - cbn [length replicate fold_left applyOp]. unfold ShiftLogRecord. rewrite Hq.
    rewrite (IH (withRecords f queue) (returned ++ [r]) eq_refl).
    rewrite <- app_assoc. reflexivity.
Qed.

(** Records leave a file in the order they were pushed: after any pushes, as
    many [ShiftLogRecord] calls as there are queued records hand out the old
    queue followed by the pushed records and leave the queue empty, and one
    more call returns nil. *)
Theorem ShiftLogRecord_fifo (f : LogFile) (records : list LogRecord) :
  let ops :=
    (OpPush <$> records) ++ replicate (length (lf_Records f) + length records) OpShift in
  snd (applyOps f ops) = lf_Records f ++ records
  ∧ lf_Records (fst (applyOps f ops)) = []
  ∧ snd (ShiftLogRecord (fst (applyOps f ops))) = None.
Proof.
  intros ops. unfold applyOps, ops. rewrite fold_left_app.
  destruct (applyOps_pushes records f []) as [Hret Hrec].
  destruct (fold_left applyOp (OpPush <$> records) (f, [])) as [f1 returned1].
  cbn [fst snd] in Hret, Hrec. subst returned1.
  rewrite <- length_app, <- Hrec, (applyOps_shifts _ f1 [] eq_refl).
  cbn [fst snd app]. split; [reflexivity|]. split; reflexivity.
Qed.

Lemma filter_all (P : LogRecord → Prop) `{∀ x, Decision (P x)} (l : list LogRecord) :
  (∀ x, x ∈ l → P x) → filter P l = l.
Proof.
  induction l as [|x l IH]; intros Hall; [reflexivity|].
  rewrite filter_cons_True by (apply Hall, list_elem_of_here).
  f_equal. apply IH. intros y Hy. apply Hall, list_elem_of_further, Hy.
Qed.

Lemma filter_none (P : LogRecord → Prop) `{∀ x, Decision (P x)} (l : list LogRecord) :
  (∀ x, x ∈ l → ¬ P x) → filter P l = [].
Proof.
  induction l as [|x l IH]; intros Hall; [reflexivity|].
  rewrite filter_cons_False by (apply Hall, list_elem_of_here).
  apply IH. intros y Hy. apply Hall, list_elem_of_further, Hy.
Qed.

Lemma withRecords_same (f : LogFile) : withRecords f (lf_Records f) = f.
Proof. destruct f; reflexivity. Qed.

(** A record pushed on an indexed file is found again under its key: where the
    index expression captures a key that is not empty from the line,
    [ShiftLogRecordByIndex] with that key returns the record just pushed and
    leaves in the queue the records that were there, less those of the same
    address. *)
Theorem PushLogRecord_then_ShiftLogRecordByIndex (f : LogFile) (record : LogRecord)
    (expr : Regexp) (key : string) :
  UseIndex (lf_LogType f) = true →
  GetIndexExpr (lf_LogType f) = inl expr →
  matchLogIndex expr (rec_Line record) = key →
  key ≠ "" →
  snd (ShiftLogRecordByIndex (PushLogRecord f record) key) = Some record
  ∧ lf_Records (fst (ShiftLogRecordByIndex (PushLogRecord f record) key))
    = filter (λ c, rec_addr c ≠ rec_addr record) (lf_Records f)
  ∧ lf_IndexedRecords (fst (ShiftLogRecordByIndex (PushLogRecord f record) key)) !! key
    = Some record.
Proof.
  intros Huse Hexpr Hkey Hne.
  assert (Hidx : lf_IndexedRecords (PushLogRecord f record) !! key = Some record).
  { unfold PushLogRecord. cbn [lf_LogType withRecords]. rewrite Huse, Hexpr, Hkey.
    destruct (String.eqb_spec key "") as [Heq|_]; [contradiction|].
    cbn. apply lookup_insert_eq. }
  pose proof (PushLogRecord_Records f record) as Hrec.
  unfold ShiftLogRecordByIndex. rewrite Hrec, Hidx.
  destruct (lf_Records f ++ [record]) as [|head rest] eqn:Hq.
  { destruct (lf_Records f); discriminate. }
  rewrite <- Hq, recordsWithout_filter. cbn [fst snd lf_Records lf_IndexedRecords withRecords].
  split; [reflexivity|]. split; [|exact Hidx].
  rewrite filter_app, (filter_none _ [record]), app_nil_r; [reflexivity|].
  intros x Hx Hp. apply list_elem_of_singleton in Hx. subst x. apply Hp. reflexivity.
Qed.

(** An entry of [IndexedRecords] outlives its record: when the record under
    the key has left the queue and other records are queued,
    [ShiftLogRecordByIndex] hands the departed record out again and takes
    nothing from the queue. *)
Theorem ShiftLogRecordByIndex_departed (f : LogFile) (key : string) (record : LogRecord) :
  lf_Records f ≠ [] →
  lf_IndexedRecords f !! key = Some record →
  (∀ c, c ∈ lf_Records f → rec_addr c ≠ rec_addr record) →
  ShiftLogRecordByIndex f key = (f, Some record).
Proof.
  intros Hne Hidx Hgone. unfold ShiftLogRecordByIndex.
  destruct (lf_Records f) as [|head rest] eqn:Hq; [contradiction|].
  rewrite Hidx, <- Hq, recordsWithout_filter, (filter_all _ _ ); [|rewrite Hq; exact Hgone].
  rewrite withRecords_same. reflexivity.
Qed.

End QueueOrder.

(** A and B pushed on an indexed file, B taken by its key. *)
Lemma PushLogRecord_then_ShiftLogRecordByIndex_witness :
  let f := @PushLogRecord Reference.regexpLib (Scenario.file0 Scenario.indexedType)
             Scenario.recordA in
  snd (ShiftLogRecordByIndex (@PushLogRecord Reference.regexpLib f Scenario.recordB) "B")
  = Some Scenario.recordB.
Proof.
  intros f.
  exact (proj1 (@PushLogRecord_then_ShiftLogRecordByIndex Reference.regexpLib f
                  Scenario.recordB "id=" "B" eq_refl eq_refl eq_refl ltac:(discriminate))).
Defined.

(** A pushed and shifted, B pushed: the key of A still yields A, and B stays
    queued. *)
Lemma ShiftLogRecordByIndex_departed_witness :
  let f := fst (@applyOps Reference.regexpLib (Scenario.file0 Scenario.indexedType)
                  [OpPush Scenario.recordA; OpShift; OpPush Scenario.recordB]) in
  lf_Records f = [Scenario.recordB]
  ∧ ShiftLogRecordByIndex f "A" = (f, Some Scenario.recordA).
Proof.
  intros f. split; [reflexivity|].
  apply (ShiftLogRecordByIndex_departed f "A" Scenario.recordA).
  - discriminate.
  - reflexivity.
  - intros c Hc. apply list_elem_of_singleton in Hc. subst c. discriminate.
Defined.

(** ** Reading the records of a file *)

Lemma append_cons (c : ascii) (a b : string) : String c a +:+ b = String c (a +:+ b).
Proof. reflexivity. Qed.

Lemma append_empty_l (b : string) : "" +:+ b = b.
Proof. reflexivity. Qed.

Lemma length_append_bytes (a b : string) :
  String.length (a +:+ b) = (String.length a + String.length b)%nat.
Proof.
  induction a as [|c a IH]; [reflexivity|].
  rewrite append_cons. cbn [String.length]. rewrite IH. reflexivity.
Qed.

Lemma append_empty_r (a : string) : a +:+ "" = a.
Proof. induction a as [|c a IH]; [reflexivity|]. rewrite append_cons, IH. reflexivity. Qed.

Lemma append_assoc_bytes (a b c : string) : (a +:+ b) +:+ c = a +:+ (b +:+ c).
Proof.
  induction a as [|x a IH]; [reflexivity|]. rewrite !append_cons, IH. reflexivity.
Qed.

Lemma dropBytes_append_exact (a b : string) : dropBytes (String.length a) (a +:+ b) = b.
Proof.
  induction a as [|c a IH]; [reflexivity|].
  rewrite append_cons. cbn [String.length dropBytes]. exact IH.
Qed.

Lemma dropBytes_add (n m : nat) (s : string) :
  dropBytes (n + m) s = dropBytes m (dropBytes n s).
Proof.
  revert s. induction n as [|n IH]; intros s; [reflexivity|].
  destruct s as [|c s]; cbn [Nat.add dropBytes]; [destruct m; reflexivity|apply IH].
Qed.

Lemma dropBytes_append_within (n : nat) (a b : string) :
  (n ≤ String.length a)%nat → dropBytes n (a +:+ b) = dropBytes n a +:+ b.
Proof.
  revert a. induction n as [|n IH]; intros a Hn; [reflexivity|].
  destruct a as [|c a]; cbn [String.length] in Hn; [lia|].
  rewrite append_cons. cbn [dropBytes]. apply IH. lia.
Qed.

Lemma dropBytes_length (n : nat) (s : string) :
  String.length (dropBytes n s) = (String.length s - n)%nat.
Proof.
  revert s. induction n as [|n IH]; intros s; cbn [dropBytes]; [lia|].
  destruct s as [|c s]; cbn [String.length]; [reflexivity|]. rewrite IH. lia.
Qed.

Lemma noTerminator_append (a b : string) :
  noTerminator (a +:+ b) = noTerminator a && noTerminator b.
Proof.
  induction a as [|c a IH]; [reflexivity|].
  rewrite append_cons. cbn [noTerminator]. rewrite IH, andb_assoc. reflexivity.
Qed.

Lemma terminator_test (b : ascii) :
  negb (String.eqb (byteString b) (String LF "")) && negb (String.eqb (byteString b) (String CR ""))
  = negb (isTerminator b).
Proof. destruct b as [[] [] [] [] [] [] [] []]; reflexivity. Qed.

Section ReadProperties.
Context `{RegexpLib}.

Lemma PushLogRecord_fields (f : LogFile) (record : LogRecord) :
  lf_URL (PushLogRecord f record) = lf_URL f
  ∧ lf_Content (PushLogRecord f record) = lf_Content f
  ∧ lf_Name (PushLogRecord f record) = lf_Name f
  ∧ lf_LogType (PushLogRecord f record) = lf_LogType f
  ∧ lf_ProcessingState (PushLogRecord f record) = lf_ProcessingState f
  ∧ lf_LastModified (PushLogRecord f record) = lf_LastModified f
  ∧ lf_Size (PushLogRecord f record) = lf_Size f.
Proof.
  unfold PushLogRecord. cbn [lf_LogType withRecords].
  destruct (UseIndex (lf_LogType f)); [|repeat split].
  destruct (GetIndexExpr (lf_LogType f)) as [expr|]; [|repeat split].
  destruct (negb _); repeat split.
Qed.

Lemma readLogRecords_step_plain (st : scanState) (b : ascii) :
  isTerminator b = false →
  readLogRecords_step st b
  = mkScanState (scan_file st) (scan_allocated st) (scan_line st +:+ byteString b)
                (scan_lineIndex st) (scan_dataProcessed st + 1).
Proof.
  intros Hb. unfold readLogRecords_step. rewrite terminator_test, Hb. reflexivity.
Qed.

(** A turn at a line terminator: the file after it is the file before it or
    that file with one admitted record pushed, and the state after it is a
    start state. *)
Lemma readLogRecords_step_commit (st : scanState) (b : ascii) :
  isTerminator b = true →
  ∃ f' a',
    readLogRecords_step st b
    = scanUpdate f' a' (scan_lineIndex st + 1) (scan_dataProcessed st + 1)
    ∧ (f' = scan_file st
       ∨ ∃ r, f' = PushLogRecord (scan_file st) r ∧ admitted (scan_file st) r).
Proof.
  intros Hb. unfold readLogRecords_step. rewrite terminator_test, Hb. cbn [negb].
  set (line := Trim (scan_line st) _).
  destruct (negb (String.eqb (lt_Exclusion (lf_LogType (scan_file st))) "")
            && Contains line (lt_Exclusion (lf_LogType (scan_file st)))) eqn:Hex;
    [eauto|].
  destruct (negb (String.eqb (lt_Inclusion (lf_LogType (scan_file st))) "")
            && negb (Contains line (lt_Inclusion (lf_LogType (scan_file st))))) eqn:Hin;
    [eauto|].
  destruct (Z.ltb_spec 0 (len line)) as [Hlen|_]; [|eauto].
  eexists _, _. split; [reflexivity|]. right. eexists. split; [reflexivity|].
  unfold admitted. cbn [rec_URL rec_Line]. split; [reflexivity|]. split; [|split].
  - intros Hempty. rewrite Hempty in Hlen. unfold len in Hlen. cbn in Hlen. lia.
  - intros Hset. apply andb_false_iff in Hex as [Hex|Hex]; [|exact Hex].
    apply negb_false_iff, String.eqb_eq in Hex. contradiction.
  - intros Hset. apply andb_false_iff in Hin as [Hin|Hin].
    + apply negb_false_iff, String.eqb_eq in Hin. contradiction.
    + apply negb_false_iff in Hin. exact Hin.
Qed.

Lemma readLogRecords_loop_app (u v : string) (st : scanState) :
  readLogRecords_loop st (u +:+ v) = readLogRecords_loop (readLogRecords_loop st u) v.
Proof.
  revert st. induction u as [|b u IH]; intros st; [reflexivity|].
  rewrite append_cons. cbn [readLogRecords_loop]. apply IH.
Qed.

Lemma readLogRecords_loop_plain (w : string) (st : scanState) :
  noTerminator w = true →
  scan_file (readLogRecords_loop st w) = scan_file st
  ∧ scan_allocated (readLogRecords_loop st w) = scan_allocated st
  ∧ scan_dataProcessed (readLogRecords_loop st w) = scan_dataProcessed st + len w.
Proof.
  revert st. induction w as [|b w IH]; intros st Hw.
  - cbn. unfold len. cbn. repeat split; lia.
  - cbn [noTerminator] in Hw. apply andb_true_iff in Hw as [Hb Hw].
    apply negb_true_iff in Hb. cbn [readLogRecords_loop].
    rewrite (readLogRecords_step_plain _ _ Hb).
    destruct (IH (mkScanState (scan_file st) (scan_allocated st)
                              (scan_line st +:+ byteString b) (scan_lineIndex st)
                              (scan_dataProcessed st + 1)) Hw) as (Hf & Ha & Hd).
    cbn [scan_file scan_allocated scan_dataProcessed] in Hf, Ha, Hd.
    rewrite Hf, Ha, Hd. unfold len. cbn [String.length]. repeat split; lia.
Qed.

(** Where the loop stands after [u]: it has committed a prefix [c] of the
    bytes seen, and is where a pass started after [c] would be after the
    bytes [w] that follow [c], none of which ends a line. *)
Lemma readLogRecords_loop_resume (u : string) (st : scanState) (w0 : string) :
  noTerminator w0 = true →
  st = readLogRecords_loop (scanStart (scan_file st) (scan_allocated st)) w0 →
  ∃ c w,
    w0 +:+ u = c +:+ w
    ∧ noTerminator w = true
    ∧ readLogRecords_loop st u
      = readLogRecords_loop
          (scanStart (scan_file (readLogRecords_loop st u))
                     (scan_allocated (readLogRecords_loop st u))) w
    ∧ ps_Position (lf_ProcessingState (scan_file (readLogRecords_loop st u)))
      = ps_Position (lf_ProcessingState (scan_file st)) + len c.
Proof.
  revert st w0. induction u as [|b u IH]; intros st w0 Hw0 Hst.
  - exists "", w0. cbn [readLogRecords_loop]. rewrite append_empty_r.
    split; [reflexivity|]. split; [exact Hw0|]. split; [exact Hst|].
    unfold len. cbn. lia.
  - cbn [readLogRecords_loop]. destruct (isTerminator b) eqn:Hb.
    + destruct (readLogRecords_step_commit st b Hb) as (f' & a' & Hstep & Hfile).
      assert (Hps : lf_ProcessingState f' = lf_ProcessingState (scan_file st)).
      { destruct Hfile as [->|(r & -> & _)]; [reflexivity|].
        apply (PushLogRecord_fields (scan_file st) r). }
      assert (Hdp : scan_dataProcessed st = len w0).
      { rewrite Hst at 1.
        destruct (readLogRecords_loop_plain w0
                    (scanStart (scan_file st) (scan_allocated st)) Hw0) as (_ & _ & ->).
        cbn. lia. }
      destruct (IH (readLogRecords_step st b) "") as (c & w & Hcw & Hw & Hloop & Hpos).
      { reflexivity. }
      { rewrite Hstep. reflexivity. }
      exists (w0 +:+ String b c), w.
      split.
      { rewrite append_assoc_bytes, append_cons. rewrite append_empty_l in Hcw.
        rewrite Hcw. reflexivity. }
      split; [exact Hw|]. split; [exact Hloop|].
      rewrite Hpos, Hstep. unfold scanUpdate, LogProcessingState_Update.
      cbn [scan_file lf_ProcessingState withProcessingState ps_Position].
      rewrite Hps, Hdp. unfold len. rewrite length_append_bytes. cbn [String.length]. lia.
    + pose proof (readLogRecords_step_plain st b Hb) as Hstep.
      destruct (IH (readLogRecords_step st b) (w0 +:+ String b "")) as (c & w & Hcw & Hw & Hloop & Hpos).
      { rewrite noTerminator_append, Hw0. cbn. rewrite Hb. reflexivity. }
      { rewrite readLogRecords_loop_app. rewrite Hstep at 2 3.
        cbn [scan_file scan_allocated]. rewrite <- Hst. reflexivity. }
      exists c, w. split.
      { rewrite <- Hcw, append_assoc_bytes. reflexivity. }
      split; [exact Hw|]. split; [exact Hloop|].
      rewrite Hpos, Hstep. reflexivity.
Qed.

Lemma readLogRecords_within (f : LogFile) (next : nat) (data : string) :
  0 <= ps_Position (lf_ProcessingState f) <= len data →
  readLogRecords f next data
  = Ok (scan_file (readLogRecords_loop (scanStart f next)
                     (dropBytes (Z.to_nat (ps_Position (lf_ProcessingState f))) data)),
        scan_allocated (readLogRecords_loop (scanStart f next)
                          (dropBytes (Z.to_nat (ps_Position (lf_ProcessingState f))) data))).
Proof.
  intros [Hlo Hhi]. unfold readLogRecords.
  destruct (Z.ltb_spec (len data) (ps_Position (lf_ProcessingState f))) as [Hlt|_]; [lia|].
  destruct (Z.ltb_spec (ps_Position (lf_ProcessingState f)) 0) as [Hlt|_]; [lia|].
  reflexivity.
Qed.

(** [readLogRecords] moves [Position] forward and never past the data: from a
    position within the data it returns no error, the new [Position] lies
    between the old one and the length of the data, and the bytes from the new
    [Position] on hold no line terminator - an unfinished last line stays
    unread. *)
Theorem readLogRecords_Position (f : LogFile) (next : nat) (data : string) :
  0 <= ps_Position (lf_ProcessingState f) <= len data →
  ∃ f' next',
    readLogRecords f next data = Ok (f', next')
    ∧ ps_Position (lf_ProcessingState f) <= ps_Position (lf_ProcessingState f') <= len data
    ∧ noTerminator (dropBytes (Z.to_nat (ps_Position (lf_ProcessingState f'))) data) = true.
Proof.
  intros Hrange. rewrite (readLogRecords_within f next data Hrange).
  set (P := ps_Position (lf_ProcessingState f)) in *.
  set (u := dropBytes (Z.to_nat P) data).
  destruct (readLogRecords_loop_resume u (scanStart f next) "" eq_refl eq_refl)
    as (c & w & Hcw & Hw & _ & Hpos).
  eexists _, _. split; [reflexivity|].
  rewrite append_empty_l in Hcw. cbn [scanStart scan_file] in Hpos. fold P in Hpos.
  assert (Hlen : len u = len data - P).
  { unfold len, u in *. rewrite dropBytes_length. lia. }
  assert (Hc : len c <= len u).
  { rewrite Hcw. unfold len. rewrite length_append_bytes. lia. }
  rewrite Hpos. split; [unfold len in *; lia|].
  replace (Z.to_nat (P + len c)) with (Z.to_nat P + String.length c)%nat
    by (unfold len; lia).
  rewrite dropBytes_add. fold u. rewrite Hcw, dropBytes_append_exact. exact Hw.
Qed.

(** Reading in two passes is reading in one: after a pass over [data1], a
    pass over [data1] followed by [data2] leaves the file as a single pass over
    the whole from the first position does; and a second pass over the same
    data changes nothing. *)
Theorem readLogRecords_incremental (f f1 : LogFile) (next next1 : nat) (data1 data2 : string) :
  0 <= ps_Position (lf_ProcessingState f) <= len data1 →
  readLogRecords f next data1 = Ok (f1, next1) →
  readLogRecords f1 next1 (data1 +:+ data2) = readLogRecords f next (data1 +:+ data2)
  ∧ readLogRecords f1 next1 data1 = Ok (f1, next1).
Proof.
  intros Hrange Hfirst.
  assert (Hgen : ∀ data2,
    readLogRecords f1 next1 (data1 +:+ data2) = readLogRecords f next (data1 +:+ data2)).
  { clear data2. intros data2.
    rewrite (readLogRecords_within f next data1 Hrange) in Hfirst.
    set (P := ps_Position (lf_ProcessingState f)) in *.
    set (u := dropBytes (Z.to_nat P) data1) in *.
    destruct (readLogRecords_loop_resume u (scanStart f next) "" eq_refl eq_refl)
      as (c & w & Hcw & Hw & Hloop & Hpos).
    injection Hfirst as Hf1 Hn1. rewrite Hf1 in Hloop, Hpos. rewrite Hn1 in Hloop.
    rewrite append_empty_l in Hcw. cbn [scanStart scan_file] in Hpos. fold P in Hpos.
    assert (Hlen : len u = len data1 - P).
    { unfold len, u in *. rewrite dropBytes_length. lia. }
    assert (Hc : len c <= len u).
    { rewrite Hcw. unfold len. rewrite length_append_bytes. lia. }
    assert (Hall : len (data1 +:+ data2) = len data1 + len data2).
    { unfold len. rewrite length_append_bytes. lia. }
    rewrite (readLogRecords_within f next (data1 +:+ data2)) by (fold P; unfold len in *; lia).
    rewrite (readLogRecords_within f1 next1 (data1 +:+ data2))
      by (rewrite Hpos; unfold len in *; lia).
    fold P. rewrite Hpos.
    replace (Z.to_nat (P + len c)) with (Z.to_nat P + String.length c)%nat
      by (unfold len; lia).
    rewrite dropBytes_add.
    rewrite (dropBytes_append_within (Z.to_nat P) data1 data2) by (unfold len in *; lia).
    fold u. rewrite (readLogRecords_loop_app u data2 (scanStart f next)), Hloop.
    rewrite Hcw, append_assoc_bytes, dropBytes_append_exact.
    rewrite (readLogRecords_loop_app w data2). reflexivity. }
  split; [apply Hgen|].
  pose proof (Hgen "") as Hsame. rewrite append_empty_r in Hsame.
  rewrite Hsame. exact Hfirst.
Qed.

(** The invariant of the loop behind [readLogRecords_admits]. *)
Lemma readLogRecords_loop_admits (f0 : LogFile) (data : string) (st : scanState) :
  (lf_URL (scan_file st) = lf_URL f0
   ∧ lf_Content (scan_file st) = lf_Content f0
   ∧ lf_Name (scan_file st) = lf_Name f0
   ∧ lf_LogType (scan_file st) = lf_LogType f0
   ∧ lf_LastModified (scan_file st) = lf_LastModified f0
   ∧ lf_Size (scan_file st) = lf_Size f0
   ∧ ∃ new, lf_Records (scan_file st) = lf_Records f0 ++ new ∧ Forall (admitted f0) new) →
  let f' := scan_file (readLogRecords_loop st data) in
  lf_URL f' = lf_URL f0
  ∧ lf_Content f' = lf_Content f0
  ∧ lf_Name f' = lf_Name f0
  ∧ lf_LogType f' = lf_LogType f0
  ∧ lf_LastModified f' = lf_LastModified f0
  ∧ lf_Size f' = lf_Size f0
  ∧ ∃ new, lf_Records f' = lf_Records f0 ++ new ∧ Forall (admitted f0) new.
Proof.
  revert st. induction data as [|b data IH]; intros st Hst; [exact Hst|].
  cbn [readLogRecords_loop]. apply IH.
  destruct Hst as (Hurl & Hcontent & Hname & Htype & Hmod & Hsize & new & Hrec & Hnew).
  destruct (isTerminator b) eqn:Hb.
  - destruct (readLogRecords_step_commit st b Hb) as (f' & a' & -> & Hfile).
    unfold scanUpdate.
    cbn [scan_file withProcessingState lf_URL lf_Content lf_Name lf_LogType
         lf_LastModified lf_Size lf_Records].
    destruct Hfile as [->|(r & -> & Hr)].
    + repeat (split; [assumption|]). eauto.
    + destruct (PushLogRecord_fields (scan_file st) r) as (-> & -> & -> & -> & _ & -> & ->).
      repeat (split; [assumption|]).
      exists (new ++ [r]). rewrite PushLogRecord_Records, Hrec, <- app_assoc.
      split; [reflexivity|]. apply Forall_app. split; [exact Hnew|].
      apply Forall_singleton. unfold admitted in *. rewrite <- Hurl, <- Htype. exact Hr.
  - rewrite (readLogRecords_step_plain st b Hb). cbn [scan_file].
    repeat (split; [assumption|]). eauto.
Qed.

(** [readLogRecords] only adds to the queue, and only admitted lines: the
    queue after the call is the queue before it followed by records that carry
    the URL of the file and a line that is not empty, holds [Inclusion] and
    does not hold [Exclusion]; the other fields of the file but
    [ProcessingState] and [IndexedRecords] stay as they were. *)
Theorem readLogRecords_admits (f f' : LogFile) (next next' : nat) (data : string) :
  readLogRecords f next data = Ok (f', next') →
  lf_URL f' = lf_URL f
  ∧ lf_Content f' = lf_Content f
  ∧ lf_Name f' = lf_Name f
  ∧ lf_LogType f' = lf_LogType f
  ∧ lf_LastModified f' = lf_LastModified f
  ∧ lf_Size f' = lf_Size f
  ∧ ∃ new, lf_Records f' = lf_Records f ++ new ∧ Forall (admitted f) new.
Proof.
  unfold readLogRecords.
  destruct (len data <? _).
  { intros [= <- _]. repeat (split; [reflexivity|]). exists []. rewrite app_nil_r. auto. }
  destruct (_ <? 0); [discriminate|].
  intros [= <- _]. apply readLogRecords_loop_admits. cbn [scan_file].
  repeat (split; [reflexivity|]). exists []. rewrite app_nil_r. auto.
Qed.

End ReadProperties.

(** A file of two lines and the start of a third, read from the start. *)
Lemma readLogRecords_Position_witness :
  let data := "one" +:+ String LF ("two" +:+ String CR "thr") in
  ∃ f' next',
    @readLogRecords Reference.regexpLib (Scenario.file0 Scenario.plainType) 0 data
    = Ok (f', next')
    ∧ 0 <= ps_Position (lf_ProcessingState f') <= len data.
Proof.
  intros data.
  destruct (@readLogRecords_Position Reference.regexpLib (Scenario.file0 Scenario.plainType)
              0 data) as (f' & next' & Hread & Hpos & _).
  - split; apply Z.leb_le; reflexivity.
  - exists f', next'. split; [exact Hread|]. exact Hpos.
Defined.

(** One line and a half read, then the rest of the second line. *)
Lemma readLogRecords_incremental_witness :
  let data1 := "one" +:+ String LF "tw" in
  let data2 := "o" +:+ String LF "" in
  let f := Scenario.file0 Scenario.plainType in
  let first := @readLogRecords_loop Reference.regexpLib (scanStart f 0) data1 in
  @readLogRecords Reference.regexpLib (scan_file first) (scan_allocated first) (data1 +:+ data2)
  = @readLogRecords Reference.regexpLib f 0 (data1 +:+ data2).
Proof.
  intros data1 data2 f first.
  refine (proj1 (@readLogRecords_incremental Reference.regexpLib f (scan_file first)
                   0 (scan_allocated first) data1 data2 _ eq_refl)).
  split; apply Z.leb_le; reflexivity.
Defined.

(** A file that includes the lines holding "id=" and excludes those holding
    "skip". *)
Lemma readLogRecords_admits_witness :
  let logType := mkLogType "event3" "" "elog*.log" "id=" "skip" "" in
  let f := Scenario.file0 logType in
  let data := "id=1" +:+ String LF ("other" +:+ String LF ("id=2 skip" +:+ String LF "")) in
  let read := @readLogRecords_loop Reference.regexpLib (scanStart f 0) data in
  lf_Records (scan_file read) = [mkLogRecord 0 "mem://logs/elog1.log" 1 "id=1"]
  ∧ ∃ new, lf_Records (scan_file read) = lf_Records f ++ new ∧ Forall (admitted f) new.
Proof.
  intros logType f data read. split; [reflexivity|].
  exact (proj2 (proj2 (proj2 (proj2 (proj2 (proj2
           (@readLogRecords_admits Reference.regexpLib f (scan_file read) 0
              (scan_allocated read) data eq_refl))))))).
Defined.

(** ** The record iterator *)

Section IteratorProperties.
Context `{LogEnv}.

Lemma insertLogFile_Permutation (x : string * LogFile) (l : list (string * LogFile)) :
  insertLogFile x l ≡ₚ x :: l.
Proof.
  induction l as [|y l IH]; [reflexivity|].
  cbn [insertLogFile]. destruct (logFileBefore (snd x) (snd y)); [reflexivity|].
  rewrite IH. apply Permutation_swap.
Qed.

Lemma sortLogFiles_Permutation (l : list (string * LogFile)) :
  foldr insertLogFile [] l ≡ₚ l.
Proof.
  induction l as [|x l IH]; [reflexivity|].
  cbn [foldr]. rewrite insertLogFile_Permutation, IH. reflexivity.
Qed.

Lemma logFileBefore_true (a b : LogFile) :
  logFileBefore a b = true → lf_LastModified b <= lf_LastModified a.
Proof.
  unfold logFileBefore. destruct (Z.eqb_spec (lf_LastModified a) (lf_LastModified b)); [lia|].
  intros Hlt. apply Z.ltb_lt in Hlt. lia.
Qed.

Lemma logFileBefore_false (a b : LogFile) :
  logFileBefore a b = false → lf_LastModified a <= lf_LastModified b.
Proof.
  unfold logFileBefore. destruct (Z.eqb_spec (lf_LastModified a) (lf_LastModified b)); [lia|].
  intros Hlt. apply Z.ltb_ge in Hlt. lia.
Qed.

Lemma insertLogFile_sorted (x : string * LogFile) (l : list (string * LogFile)) :
  StronglySorted newerFirst l → StronglySorted newerFirst (insertLogFile x l).
Proof.
  induction l as [|y l IH]; intros Hs.
  - cbn. repeat constructor.
  - cbn [insertLogFile]. apply StronglySorted_inv in Hs as [Hs Hy].
    destruct (logFileBefore (snd x) (snd y)) eqn:Hb.
    + constructor; [constructor; assumption|].
      apply logFileBefore_true in Hb. constructor; [exact Hb|].
      eapply Forall_impl; [exact Hy|]. unfold newerFirst. intros z Hz. lia.
    + constructor; [apply IH, Hs|].
      apply logFileBefore_false in Hb.
      rewrite insertLogFile_Permutation. constructor; [exact Hb|exact Hy].
Qed.

Lemma sortLogFiles_sorted (l : list (string * LogFile)) :
  StronglySorted newerFirst (foldr insertLogFile [] l).
Proof.
  induction l as [|x l IH]; [constructor|]. cbn [foldr]. apply insertLogFile_sorted, IH.
Qed.

Lemma StronglySorted_lookup_pair (l : list (string * LogFile)) (i j : nat)
    (x y : string * LogFile) :
  StronglySorted newerFirst l → (i < j)%nat → l !! i = Some x → l !! j = Some y →
  newerFirst x y.
Proof.
  intros Hs. revert i j x y. induction Hs as [|z l Hs IH Hz]; intros i j x y Hij Hi Hj.
  - rewrite lookup_nil in Hi. discriminate.
  - destruct j as [|j]; [lia|]. cbn in Hj. destruct i as [|i].
    + cbn in Hi. injection Hi as <-.
      rewrite Forall_forall in Hz. apply Hz.
      eapply list_elem_of_lookup_2. exact Hj.
    + cbn in Hi. apply (IH i j); [lia|assumption|assumption].
Qed.

(** The provider of the iterator lists every file of the meta once, the file
    modified last first: of two files it lists, the one listed first is not
    older than the other. *)
Theorem logFileProvider_newest_first (s : logValidatorService) (key : string)
    (m : LogTypeMeta) :
  metas s !! key = Some m →
  logFileProvider s key ≡ₚ (map_to_list (meta_LogFiles m)).*1
  ∧ ∀ i j ni nj fi fj,
      (i < j)%nat →
      logFileProvider s key !! i = Some ni →
      logFileProvider s key !! j = Some nj →
      meta_LogFiles m !! ni = Some fi →
      meta_LogFiles m !! nj = Some fj →
      lf_LastModified fj <= lf_LastModified fi.
Proof.
  intros Hm. unfold logFileProvider. rewrite Hm.
  set (sorted := foldr insertLogFile [] (map_to_list (meta_LogFiles m))).
  assert (Hperm : sorted ≡ₚ map_to_list (meta_LogFiles m)) by apply sortLogFiles_Permutation.
  split; [rewrite Hperm; reflexivity|].
  intros i j ni nj fi fj Hij Hi Hj Hfi Hfj.
  rewrite list_lookup_fmap in Hi, Hj.
  destruct (sorted !! i) as [[ni' fi']|] eqn:Hsi; [|discriminate].
  destruct (sorted !! j) as [[nj' fj']|] eqn:Hsj; [|discriminate].
  cbn in Hi, Hj. injection Hi as ->. injection Hj as ->.
  assert (Hin : ∀ k n f, sorted !! k = Some (n, f) → meta_LogFiles m !! n = Some f).
  { intros k n f Hk. apply elem_of_map_to_list. rewrite <- Hperm.
    eapply list_elem_of_lookup_2. exact Hk. }
  pose proof (Hin _ _ _ Hsi) as Hi'. pose proof (Hin _ _ _ Hsj) as Hj'.
  assert (fi' = fi) by congruence. assert (fj' = fj) by congruence. subst.
  exact (StronglySorted_lookup_pair sorted i j _ _ (sortLogFiles_sorted _) Hij Hsi Hsj).
Qed.

Lemma HasNext_scan_None (s : logValidatorService) (key : string) (l : list string)
    (index : nat) :
  HasNext_scan s key l index = None ↔ ∀ name, name ∈ l → pendingLogs s key name = false.
Proof.
  revert index. induction l as [|name l IH]; intros index.
  - split; [intros _ name Hin; apply elem_of_nil in Hin; contradiction|reflexivity].
  - cbn [HasNext_scan]. destruct (pendingLogs s key name) eqn:Hp.
    + split; [discriminate|]. intros Hall.
      rewrite (Hall name (list_elem_of_here _ _)) in Hp. discriminate.
    + rewrite IH. split.
      * intros Hall n Hn. apply elem_of_cons in Hn as [->|Hn]; [exact Hp|auto].
      * intros Hall n Hn. apply Hall, list_elem_of_further, Hn.
Qed.

Lemma HasNext_scan_Some (s : logValidatorService) (key : string) (l : list string)
    (index j : nat) :
  HasNext_scan s key l index = Some j →
  (index ≤ j)%nat ∧ ∃ name, l !! (j - index)%nat = Some name ∧ pendingLogs s key name = true.
Proof.
  revert index. induction l as [|name l IH]; intros index; [discriminate|].
  cbn [HasNext_scan]. destruct (pendingLogs s key name) eqn:Hp.
  - intros [= <-]. split; [lia|]. exists name. rewrite Nat.sub_diag. auto.
  - intros Hscan. destruct (IH _ Hscan) as (Hle & n & Hn & Hpn).
    split; [lia|]. exists n. split; [|exact Hpn].
    replace (j - index)%nat with (S (j - S index)) by lia. exact Hn.
Qed.

Lemma pendingLogs_listed (s : logValidatorService) (key name : string) :
  pendingLogs s key name = true → name ∈ logFileProvider s key.
Proof.
  unfold pendingLogs, logFileProvider.
  destruct (metas s !! key) as [m|]; [|discriminate].
  destruct (meta_LogFiles m !! name) as [f|] eqn:Hf; [|discriminate].
  intros _. rewrite sortLogFiles_Permutation.
  apply list_elem_of_fmap. exists (name, f). split; [reflexivity|].
  apply elem_of_map_to_list. exact Hf.
Qed.

(** [HasNext] answers true exactly when a file of the meta has a queued
    record, wherever the iterator stands. *)
Theorem HasNext_iff_pending (s : logValidatorService) (i : logRecordIterator) :
  snd (HasNext s i) = true ↔ ∃ name, pendingLogs s (it_meta i) name = true.
Proof.
  unfold HasNext. split.
  - destruct (HasNext_scan s (it_meta i) (drop _ _) _) as [j|] eqn:Hfirst.
    + intros _. apply HasNext_scan_Some in Hfirst as (_ & name & _ & Hp). eauto.
    + destruct (HasNext_scan s (it_meta i) (logFileProvider _ _) 0) as [j|] eqn:Hsecond;
        [|discriminate].
      intros _. apply HasNext_scan_Some in Hsecond as (_ & name & _ & Hp). eauto.
  - intros (name & Hp).
    destruct (HasNext_scan s (it_meta i) (drop _ _) _) as [j|]; [reflexivity|].
    destruct (HasNext_scan s (it_meta i) (logFileProvider _ _) 0) as [j|] eqn:Hsecond;
      [reflexivity|].
    rewrite HasNext_scan_None in Hsecond.
    rewrite (Hsecond name (pendingLogs_listed _ _ _ Hp)) in Hp. discriminate.
Qed.

(** After [HasNext] has answered true, [Next] hands out a record: the
    iterator stands on a file with a queued record, [Next] through a
    [**LogRecord] returns the head of that queue and leaves the rest, and
    [Next] through an [*IndexedLogRecord] returns a record too; neither
    panics nor returns nil. *)
Theorem HasNext_then_Next (s : logValidatorService) (i i' : logRecordIterator) :
  HasNext s i = (i', true) →
  ∃ name m logFile record rest,
    it_logFiles i' !! it_logFileIndex i' = Some name
    ∧ metas s !! it_meta i' = Some m
    ∧ meta_LogFiles m !! name = Some logFile
    ∧ lf_Records logFile = record :: rest
    ∧ Next s i' LogRecordPointer
      = (storeLogFile s (it_meta i') name (withRecords logFile rest), Ok (Some record))
    ∧ ∀ IndexValue, ∃ s' found,
        Next s i' (IndexedLogRecordPointer IndexValue) = (s', Ok (Some found)).
Proof.
  intros Hnext.
  assert (Hat : ∃ name, it_logFiles i' !! it_logFileIndex i' = Some name
                        ∧ pendingLogs s (it_meta i') name = true).
  { unfold HasNext in Hnext.
    destruct (HasNext_scan s (it_meta i) (drop _ _) _) as [j|] eqn:Hfirst.
    - injection Hnext as <-. cbn [it_logFiles it_logFileIndex it_meta].
      apply HasNext_scan_Some in Hfirst as (Hle & name & Hname & Hp).
      exists name. split; [|exact Hp]. rewrite lookup_drop in Hname.
      replace (it_logFileIndex i + (j - it_logFileIndex i))%nat with j in Hname by lia.
      exact Hname.
    - destruct (HasNext_scan s (it_meta i) (logFileProvider _ _) 0) as [j|] eqn:Hsecond;
        [|discriminate].
      injection Hnext as <-. cbn [it_logFiles it_logFileIndex it_meta].
      apply HasNext_scan_Some in Hsecond as (_ & name & Hname & Hp).
      exists name. rewrite Nat.sub_0_r in Hname. auto. }
  destruct Hat as (name & Hname & Hp). unfold pendingLogs in Hp.
  destruct (metas s !! it_meta i') as [m|] eqn:Hm; [|discriminate].
  destruct (meta_LogFiles m !! name) as [logFile|] eqn:Hfile; [|discriminate].
  unfold HasPendingLogs in Hp.
  destruct (lf_Records logFile) as [|record rest] eqn:Hrec; [discriminate|].
  exists name, m, logFile, record, rest.
  repeat (split; [reflexivity || assumption|]).
  split.
  - unfold Next. rewrite Hname, Hm, Hfile. unfold ShiftLogRecord. rewrite Hrec. reflexivity.
  - intros IndexValue. unfold Next. rewrite Hname, Hm, Hfile.
    unfold ShiftLogRecordByIndex. rewrite Hrec.
    destruct (lf_IndexedRecords logFile !! IndexValue); eauto.
Qed.

Lemma iter_resetLogFile_Records (n : nat) (f : LogFile) :
  lf_Records (Nat.iter (S n) resetLogFile f) = [].
Proof. reflexivity. Qed.

(** After [reset], no file of a requested type has a queued record, and an
    iterator made over that type has nothing next. *)
Theorem reset_leaves_nothing_pending (s : logValidatorService) (context : Context)
    (request : LogValidatorResetRequest) (name : string) :
  name ∈ reset_LogTypes request →
  noPendingLogs (fst (reset s context request)) (logTypeMetaKey name)
  ∧ snd (HasNext (fst (reset s context request))
                 (LogRecordIterator (fst (reset s context request)) (logTypeMetaKey name)))
    = false.
Proof.
  intros Hin.
  assert (Hidle : noPendingLogs (fst (reset s context request)) (logTypeMetaKey name)).
  { unfold reset.
    destruct (reset_types_spec (reset_LogTypes request) s []) as (Hmetas & _).
    destruct (reset_types s (reset_LogTypes request) []) as [s' names].
    cbn [fst] in *. intros file. unfold pendingLogs. rewrite Hmetas.
    destruct (metas s !! logTypeMetaKey name) as [m|]; [|reflexivity].
    cbn [fmap option_fmap option_map resetMetaTimes meta_LogFiles].
    rewrite lookup_fmap. destruct (meta_LogFiles m !! file) as [f|]; [|reflexivity].
    assert (Hocc : ∃ n, occurrences (logTypeMetaKey name) (reset_LogTypes request) = S n).
    { unfold occurrences.
      destruct (filter _ _) as [|x l] eqn:Hf; [|cbn; eauto].
      assert (Hel : name ∈ filter (λ n, logTypeMetaKey n = logTypeMetaKey name)
                                  (reset_LogTypes request))
        by (apply list_elem_of_filter; auto).
      rewrite Hf in Hel. apply elem_of_nil in Hel. contradiction. }
    destruct Hocc as [n ->]. reflexivity. }
  split; [exact Hidle|].
  destruct (HasNext_idle _ (LogRecordIterator (fst (reset s context request))
                                              (logTypeMetaKey name)) Hidle) as (i' & -> & _).
  reflexivity.
Qed.

End IteratorProperties.

(** Two files, the one modified last listed first. *)
Lemma logFileProvider_newest_first_witness :
  let older := withLastModified (Scenario.file0 Scenario.plainType) 10 in
  let newer := withLastModified (Scenario.file0 Scenario.plainType) 20 in
  let m := mkLogTypeMeta (mkResource "mem://logs" "") Scenario.plainType
                         {["a.log" := older; "b.log" := newer]} in
  let s := mkLogValidatorService {["meta_event2" := m]} 0 [] in
  @logFileProvider s "meta_event2" = ["b.log"; "a.log"]
  ∧ logFileProvider s "meta_event2" ≡ₚ (map_to_list (meta_LogFiles m)).*1.
Proof.
  intros older newer m s. split; [reflexivity|].
  exact (proj1 (logFileProvider_newest_first s "meta_event2" m eq_refl)).
Defined.

(** One file with A and B queued: [HasNext] is true and [Next] returns A. *)
Lemma HasNext_then_Next_witness :
  let logFile := withRecords (Scenario.file0 Scenario.plainType)
                             [Scenario.recordA; Scenario.recordB] in
  let m := mkLogTypeMeta (mkResource "mem://logs" "") Scenario.plainType
                         {["elog1.log" := logFile]} in
  let s := mkLogValidatorService {["meta_event2" := m]} 2 [] in
  let i := LogRecordIterator s "meta_event2" in
  ∃ name m' logFile' record rest,
    it_logFiles i !! it_logFileIndex i = Some name
    ∧ metas s !! it_meta i = Some m'
    ∧ meta_LogFiles m' !! name = Some logFile'
    ∧ lf_Records logFile' = record :: rest
    ∧ @Next s i LogRecordPointer
      = (storeLogFile s (it_meta i) name (withRecords logFile' rest), Ok (Some record)).
Proof.
  intros logFile m s i.
  destruct (HasNext_then_Next s i i eq_refl)
    as (name & m' & logFile' & record & rest & H1 & H2 & H3 & H4 & H5 & _).
  exists name, m', logFile', record, rest. repeat split; assumption.
Defined.

(** A registered type with a queued record, reset. *)
Lemma reset_leaves_nothing_pending_witness :
  let logFile := withRecords (Scenario.file0 Scenario.plainType) [Scenario.recordA] in
  let m := mkLogTypeMeta (mkResource "mem://logs" "") Scenario.plainType
                         {["elog1.log" := logFile]} in
  let s := mkLogValidatorService {["meta_event2" := m]} 1 [] in
  let request := mkResetRequest ["event2"] in
  pendingLogs s "meta_event2" "elog1.log" = true
  ∧ noPendingLogs (fst (reset s Scenario.context0 request)) (logTypeMetaKey "event2").
Proof.
  intros logFile m s request. split; [reflexivity|].
  refine (proj1 (reset_leaves_nothing_pending s Scenario.context0 request "event2" _)).
  apply list_elem_of_here.
Defined.

(** ** readLogFile, listen and assert, further *)

Section TailProperties.
Context `{LogEnv}.

Lemma storeLogFile_same (s : logValidatorService) (key name : string) (f : LogFile)
    (m : LogTypeMeta) :
  metas s !! key = Some m → meta_LogFiles m !! name = Some f → storeLogFile s key name f = s.
Proof.
  intros Hm Hf. unfold storeLogFile, withMetas. destruct s as [ms a t]. cbn [metas] in *.
  f_equal. apply map_eq. intros k. destruct (decide (key = k)) as [<-|Hne].
  - rewrite lookup_alter_eq, Hm. cbn. rewrite (insert_id _ _ _ Hf). destruct m; reflexivity.
  - rewrite lookup_alter_ne by exact Hne. reflexivity.
Qed.

Lemma readLogFile_skip (s : logValidatorService) (source : Resource)
    (service : StorageService) (candidate : Object) (logType : LogType)
    (meta : LogTypeMeta) (cached : LogFile) :
  metas s !! logTypeMetaKey (lt_Name logType) = Some meta →
  meta_LogFiles meta !! snd (URLSplit (obj_URL candidate)) = Some cached →
  lf_Size cached = obj_Size candidate →
  Unix (lf_LastModified cached) = Unix (obj_ModTime candidate) →
  readLogFile s source service candidate logType = (s, Ok meta).
Proof.
  intros Hmeta Hfile Hsize Htime. unfold readLogFile.
  rewrite bool_decide_eq_true_2 by (rewrite Hmeta; eauto).
  rewrite Hmeta, Hfile, (storeLogFile_same _ _ _ _ _ Hmeta Hfile), Hsize, Htime.
  rewrite !Z.eqb_refl. cbn [negb andb]. rewrite Hmeta. reflexivity.
Qed.

(** A tracked file whose size and modification time, to the second, are those
    of the cached file is not read: [readLogFile] returns the meta and leaves
    the service as it was, whatever the storage would return - so a rewrite
    within the same second that keeps the size goes unseen. *)
Theorem readLogFile_unchanged_not_read (s : logValidatorService) (source : Resource)
    (service : StorageService) (candidate : Object) (logType : LogType)
    (meta : LogTypeMeta) (cached : LogFile) :
  metas s !! logTypeMetaKey (lt_Name logType) = Some meta →
  meta_LogFiles meta !! snd (URLSplit (obj_URL candidate)) = Some cached →
  lf_Size cached = obj_Size candidate →
  lf_LastModified cached / 1000000000 = obj_ModTime candidate / 1000000000 →
  readLogFile s source service candidate logType = (s, Ok meta).
Proof. apply readLogFile_skip. Qed.

(** A download that fails on a file seen for the first time leaves the file
    tracked, empty, with the size and time of the listing: [readLogFile]
    returns the error, and a later call for the same listing is answered
    without reading, so the file stays unread until its size or time
    changes. *)
Theorem readLogFile_failed_download_tracked (s : logValidatorService) (source : Resource)
    (service : StorageService) (candidate : Object) (logType : LogType) (err : error) :
  let key := logTypeMetaKey (lt_Name logType) in
  let name := snd (URLSplit (obj_URL candidate)) in
  (∀ m, metas s !! key = Some m → meta_LogFiles m !! name = None) →
  storage_Download service candidate = inr err →
  ∃ s1 m1,
    readLogFile s source service candidate logType = (s1, Err err)
    ∧ metas s1 !! key = Some m1
    ∧ meta_LogFiles m1 !! name
      = Some (mkLogFile (obj_URL candidate) "" name logType (mkLogProcessingState 0 0)
                        (obj_ModTime candidate) (obj_Size candidate) [] ∅)
    ∧ ∀ source' service',
        readLogFile s1 source' service' candidate logType = (s1, Ok m1).
Proof.
  intros key name Hnew Hdownload.
  set (fresh := mkLogFile (obj_URL candidate) "" name logType (mkLogProcessingState 0 0)
                          (obj_ModTime candidate) (obj_Size candidate) [] ∅).
  set (s0 := if bool_decide (is_Some (metas s !! key)) then s
             else withMetas s (<[key := NewLogTypeMeta source logType]> (metas s))).
  assert (Hs0 : ∃ m0, metas s0 !! key = Some m0 ∧ meta_LogFiles m0 !! name = None).
  { unfold s0. destruct (metas s !! key) as [m|] eqn:Hm.
    - rewrite bool_decide_eq_true_2 by eauto. exists m. auto.
    - rewrite bool_decide_eq_false_2 by (intros [? ?]; discriminate).
      cbn [metas withMetas]. rewrite lookup_insert_eq. eexists. split; [reflexivity|].
      apply lookup_empty. }
  destruct Hs0 as (m0 & Hm0 & Hfile0).
  set (m1 := mkLogTypeMeta (meta_Source m0) (meta_LogType m0)
                           (<[name := fresh]> (meta_LogFiles m0))).
  assert (Hs1 : metas (storeLogFile s0 key name fresh) !! key = Some m1)
    by (apply storeLogFile_lookup; exact Hm0).
  exists (storeLogFile s0 key name fresh), m1.
  split; [|split; [exact Hs1|split; [apply lookup_insert_eq|]]].
  - unfold readLogFile. fold key. fold name. fold s0. rewrite Hm0, Hfile0. fold fresh.
    cbn [negb andb]. rewrite Hdownload. reflexivity.
  - intros source' service'.
    apply (readLogFile_skip _ source' service' candidate logType m1 fresh Hs1).
    + apply lookup_insert_eq.
    + reflexivity.
    + reflexivity.
Qed.

(** A tracked file that has grown by appending is not reset: when the new
    content is not shorter than the cached one and starts with it, or the size
    of the listing has not grown, [readLogFile] stores what [readLogRecords]
    returns on the cached file with the new content and size, read on from
    its [Position]. *)
Theorem readLogFile_appended (s : logValidatorService) (source : Resource)
    (service : StorageService) (candidate : Object) (logType : LogType)
    (meta : LogTypeMeta) (cached : LogFile) (content : string) (f' : LogFile) (next' : nat) :
  let key := logTypeMetaKey (lt_Name logType) in
  let name := snd (URLSplit (obj_URL candidate)) in
  metas s !! key = Some meta →
  meta_LogFiles meta !! name = Some cached →
  (lf_Size cached =? obj_Size candidate)
  && (Unix (lf_LastModified cached) =? Unix (obj_ModTime candidate)) = false →
  storage_Download service candidate = inl content →
  len (lf_Content cached) <= len content →
  obj_Size candidate <= lf_Size cached ∨ HasPrefix content (lf_Content cached) = true →
  readLogRecords (withSize (withContent cached content) (len content)) (allocated s) content
  = Ok (f', next') →
  ∃ s' meta',
    readLogFile s source service candidate logType = (s', Ok meta')
    ∧ metas s' !! key = Some meta'
    ∧ meta_LogFiles meta' !! name = Some f'
    ∧ allocated s' = next'.
Proof.
  intros key name Hmeta Hfile Hskip Hdownload Hlen Hkeep Hread.
  unfold readLogFile. fold key. fold name.
  rewrite bool_decide_eq_true_2 by (rewrite Hmeta; eauto).
  rewrite Hmeta, Hfile, (storeLogFile_same _ _ _ _ _ Hmeta Hfile).
  cbn [negb andb]. rewrite Hskip, Hdownload.
  destruct (Z.ltb_spec (len content) (len (lf_Content cached))) as [Hlt|_]; [lia|].
  cbn [negb andb].
  assert (Hno : (lf_Size cached <? obj_Size candidate)
                && negb (HasPrefix content (lf_Content cached)) = false).
  { destruct Hkeep as [Hsize| ->]; [|apply andb_false_r].
    destruct (Z.ltb_spec (lf_Size cached) (obj_Size candidate)); [lia|reflexivity]. }
  rewrite Hno.
  set (updated := withSize (withContent cached content) (len content)) in *.
  destruct (Z.ltb_spec 0 (len content)) as [Hpos|Hzero].
  - rewrite Hread.
    assert (Hs2 : metas (storeLogFile s key name f') !! key
                  = Some (mkLogTypeMeta (meta_Source meta) (meta_LogType meta)
                                        (<[name := f']> (meta_LogFiles meta))))
      by (apply storeLogFile_lookup; exact Hmeta).
    cbn [metas]. rewrite Hs2. eexists _, _. split; [reflexivity|].
    split; [exact Hs2|]. split; [apply lookup_insert_eq|reflexivity].
  - assert (Hempty : content = "").
    { destruct content; [reflexivity|]. unfold len in Hzero. cbn in Hzero. lia. }
    assert (Hsame : f' = updated ∧ next' = allocated s).
    { clear Hdownload Hlen Hkeep Hno Hzero. subst content. unfold readLogRecords in Hread.
      destruct (len "" <? _); [injection Hread as <- <-; auto|].
      destruct (_ <? 0); [discriminate|].
      destruct (Z.to_nat _); cbn in Hread; injection Hread as <- <-; auto. }
    destruct Hsame as [-> ->].
    assert (Hs2 : metas (storeLogFile s key name updated) !! key
                  = Some (mkLogTypeMeta (meta_Source meta) (meta_LogType meta)
                                        (<[name := updated]> (meta_LogFiles meta))))
      by (apply storeLogFile_lookup; exact Hmeta).
    rewrite Hs2. eexists _, _. split; [reflexivity|].
    split; [exact Hs2|]. split; [apply lookup_insert_eq|reflexivity].
Qed.

End TailProperties.

(** A file listed again within the second of its cached time, at its cached
    size. *)
Lemma readLogFile_unchanged_not_read_witness :
  let cached :=
    mkLogFile "elog1.log" "id=A" "elog1.log" Scenario.indexedType
              (mkLogProcessingState 0 0) 1200000000 4 [] ∅ in
  let m := mkLogTypeMeta (mkResource "mem://logs" "") Scenario.indexedType
                         {["elog1.log" := cached]} in
  let s := mkLogValidatorService {["meta_event1" := m]} 0 [] in
  let candidate := mkObject "elog1.log" false 4 1900000000 in
  let service := mkStorageService (fun _ => inl [candidate]) (fun _ => inl "id=B") in
  @readLogFile Reference.logEnv s (mkResource "mem://logs" "") service candidate
               Scenario.indexedType
  = (s, Ok m).
Proof.
  intros cached m s candidate service.
  apply (@readLogFile_unchanged_not_read Reference.logEnv s _ service candidate
           Scenario.indexedType m cached); reflexivity.
Defined.

(** A first listing whose download fails, on a service that tracks nothing. *)
Lemma readLogFile_failed_download_tracked_witness :
  let s := mkLogValidatorService ∅ 0 [] in
  let candidate := mkObject "elog1.log" false 4 1900000000 in
  ∃ s1 m1,
    @readLogFile Reference.logEnv s (mkResource "mem://logs" "") Reference.emptyStorage
                 candidate Scenario.indexedType
    = (s1, Err "no such object")
    ∧ ∀ source' service',
        @readLogFile Reference.logEnv s1 source' service' candidate Scenario.indexedType
        = (s1, Ok m1).
Proof.
  intros s candidate.
  destruct (@readLogFile_failed_download_tracked Reference.logEnv s
              (mkResource "mem://logs" "") Reference.emptyStorage candidate
              Scenario.indexedType "no such object")
    as (s1 & m1 & Hread & _ & _ & Hagain).
  - intros m Hm. cbn in Hm. rewrite lookup_empty in Hm. discriminate.
  - reflexivity.
  - exists s1, m1. split; assumption.
Defined.

(** A file of one line read, grown by a second line. *)
Lemma readLogFile_appended_witness :
  let line1 := "id=A" +:+ String LF "" in
  let content := "id=A" +:+ String LF ("id=B" +:+ String LF "") in
  let cached :=
    mkLogFile "elog1.log" line1 "elog1.log" Scenario.indexedType
              (mkLogProcessingState 1 5) 0 5
              [mkLogRecord 0 "elog1.log" 1 "id=A"] {["A" := mkLogRecord 0 "elog1.log" 1 "id=A"]} in
  let m := mkLogTypeMeta (mkResource "mem://logs" "") Scenario.indexedType
                         {["elog1.log" := cached]} in
  let s := mkLogValidatorService {["meta_event1" := m]} 1 [] in
  let candidate := mkObject "elog1.log" false 10 1000000000 in
  let service := mkStorageService (fun _ => inl [candidate]) (fun _ => inl content) in
  ∃ s' meta' logFile,
    @readLogFile Reference.logEnv s (mkResource "mem://logs" "") service candidate
                 Scenario.indexedType
    = (s', Ok meta')
    ∧ meta_LogFiles meta' !! "elog1.log" = Some logFile
    ∧ lf_Records logFile
      = [mkLogRecord 0 "elog1.log" 1 "id=A"; mkLogRecord 1 "elog1.log" 2 "id=B"]
    ∧ lf_ProcessingState logFile = mkLogProcessingState 2 10.
Proof.
  intros line1 content cached m s candidate service.
  destruct (@readLogFile_appended Reference.logEnv s (mkResource "mem://logs" "") service
              candidate Scenario.indexedType m cached content
              (scan_file (@readLogRecords_loop Reference.regexpLib
                            (scanStart (withSize (withContent cached content) (len content)) 1)
                            (dropBytes 5 content)))
              2%nat)
    as (s' & meta' & Hread & _ & Hfile & _).
  - reflexivity.
  - reflexivity.
  - reflexivity.
  - reflexivity.
  - apply Z.leb_le. reflexivity.
  - right. reflexivity.
  - reflexivity.
  - exists s', meta'. eexists. split; [exact Hread|]. split; [exact Hfile|].
    split; reflexivity.
Defined.

(** ** listen and assert, further *)

Section ListenOutcome.
Context `{LogEnv}.

Lemma readLogFile_tailers (s : logValidatorService) (source : Resource)
    (service : StorageService) (candidate : Object) (logType : LogType) :
  tailers (fst (readLogFile s source service candidate logType)) = tailers s.
Proof.
  unfold readLogFile.
  set (s0 := if bool_decide _ then s else _).
  assert (Hs0 : tailers s0 = tailers s) by (unfold s0; destruct (bool_decide _); reflexivity).
  destruct (metas s0 !! _) as [result|]; [|exact Hs0].
  destruct (meta_LogFiles result !! _) as [logFile|];
    (destruct (_ && _); [exact Hs0|]);
    (destruct (storage_Download service candidate) as [content|err]; [|exact Hs0]);
    (destruct (len content <? _));
    (destruct (0 <? len content); [|exact Hs0]);
    (destruct (readLogRecords _ _ _) as [[f' a']| |]; exact Hs0).
Qed.

Lemma readLogFiles_types_tailers (logTypes : list LogType) (s : logValidatorService)
    (source : Resource) (service : StorageService) (candidate : Object)
    (response : gmap string LogTypeMeta) :
  tailers (fst (readLogFiles_types s source service candidate logTypes response)) = tailers s.
Proof.
  revert s response. induction logTypes as [|logType rest IH]; intros s response;
    [reflexivity|].
  cbn [readLogFiles_types]. destruct (Compile _) as [maskExpression|err]; [|reflexivity].
  destruct (MatchString _ _); [|apply IH].
  pose proof (readLogFile_tailers s source service candidate logType) as Ht.
  destruct (readLogFile s source service candidate logType) as [s1 [m|e|]];
    cbn [fst] in Ht |- *; [rewrite IH|..]; exact Ht.
Qed.

Lemma readLogFiles_candidates_tailers (candidates : list Object) (s : logValidatorService)
    (source : Resource) (service : StorageService) (logTypes : list LogType)
    (response : gmap string LogTypeMeta) :
  tailers (fst (readLogFiles_candidates s source service candidates logTypes response))
  = tailers s.
Proof.
  revert s response. induction candidates as [|candidate rest IH]; intros s response;
    [reflexivity|].
  cbn [readLogFiles_candidates]. destruct (obj_IsFolder candidate); [apply IH|].
  pose proof (readLogFiles_types_tailers logTypes s source service candidate response) as Ht.
  destruct (readLogFiles_types s source service candidate logTypes response)
    as [s1 [r|e|]]; cbn [fst] in Ht |- *; [rewrite IH|..]; exact Ht.
Qed.

Lemma readLogFiles_tailers (s : logValidatorService) (context : Context)
    (service : StorageService) (source : Resource) (logTypes : list LogType) :
  tailers (fst (readLogFiles s context service source logTypes)) = tailers s.
Proof.
  unfold readLogFiles. destruct (ExpandResource context source) as [expanded|]; [|reflexivity].
  destruct (storage_List service (URL expanded)) as [candidates|]; [|reflexivity].
  apply readLogFiles_candidates_tailers.
Qed.

Lemma listen_install_spec (types : list LogType) (s : logValidatorService)
    (source : Resource) (logTypeMetas : gmap string LogTypeMeta) :
  tailers (fst (listen_install s source types logTypeMetas)) = tailers s
  ∧ (∀ key, is_Some (metas s !! key) →
            is_Some (metas (fst (listen_install s source types logTypeMetas)) !! key))
  ∧ (∀ name, is_Some (logTypeMetas !! name) →
             is_Some (snd (listen_install s source types logTypeMetas) !! name))
  ∧ (∀ t, t ∈ types →
          is_Some (metas (fst (listen_install s source types logTypeMetas))
                   !! logTypeMetaKey (lt_Name t))
          ∧ is_Some (snd (listen_install s source types logTypeMetas) !! lt_Name t)).
Proof.
  revert s logTypeMetas. induction types as [|logType rest IH]; intros s logTypeMetas.
  - cbn [listen_install fst snd]. split; [reflexivity|]. split; [auto|]. split; [auto|].
    intros t Ht. apply elem_of_nil in Ht. contradiction.
  - cbn [listen_install].
    set (chosen := match logTypeMetas !! lt_Name logType with
                   | Some logMeta => (logMeta, logTypeMetas)
                   | None => (NewLogTypeMeta source logType,
                              <[lt_Name logType := NewLogTypeMeta source logType]> logTypeMetas)
                   end).
    assert (Hchosen : (∀ name, is_Some (logTypeMetas !! name) → is_Some (snd chosen !! name))
                      ∧ is_Some (snd chosen !! lt_Name logType)).
    { unfold chosen. destruct (logTypeMetas !! lt_Name logType) as [logMeta|] eqn:Hl; cbn [snd].
      - split; [auto|]. rewrite Hl. eauto.
      - split; [|rewrite lookup_insert_eq; eauto].
        intros name Hn. destruct (decide (lt_Name logType = name)) as [<-|Hne].
        + rewrite lookup_insert_eq. eauto.
        + rewrite lookup_insert_ne by exact Hne. exact Hn. }
    destruct chosen as [logMeta logTypeMetas1]. cbn [snd] in Hchosen.
    destruct Hchosen as [Hkeep Hhere].
    destruct (IH (withMetas s (<[logTypeMetaKey (lt_Name logType) := logMeta]> (metas s)))
                 logTypeMetas1) as (Ht & Hk & Hn & Hall).
    cbn [tailers withMetas metas] in Ht, Hk.
    split; [exact Ht|]. split; [|split].
    + intros key Hkey. apply Hk.
      destruct (decide (logTypeMetaKey (lt_Name logType) = key)) as [<-|Hne].
      * rewrite lookup_insert_eq. eauto.
      * rewrite lookup_insert_ne by exact Hne. exact Hkey.
    + intros name Hname. apply Hn, Hkeep, Hname.
    + intros t Hin. apply elem_of_cons in Hin as [->|Hin]; [|exact (Hall t Hin)].
      split; [apply Hk; rewrite lookup_insert_eq; eauto|apply Hn, Hhere].
Qed.

(** A [listen] that succeeds has every requested type registered, in the
    service and in the response, and has started one tailer, for this request;
    from then on a [listen] that names one of these types is refused and
    changes nothing. *)
Theorem listen_installs (s s' : logValidatorService) (context : Context)
    (request : LogValidatorListenRequest) (response : LogValidatorListenResponse) :
  listen s context request = (s', Ok response) →
  tailers s' = tailers s ++ [request]
  ∧ (∀ t, t ∈ listen_Types request →
          is_Some (metas s' !! logTypeMetaKey (lt_Name t))
          ∧ is_Some (listen_Meta response !! lt_Name t))
  ∧ (∀ t context' request',
       t ∈ listen_Types request → t ∈ listen_Types request' →
       ∃ err, listen s' context' request' = (s', Err err)).
Proof.
  intros Hlisten.
  assert (Hmain : tailers s' = tailers s ++ [request]
                  ∧ ∀ t, t ∈ listen_Types request →
                         is_Some (metas s' !! logTypeMetaKey (lt_Name t))
                         ∧ is_Some (listen_Meta response !! lt_Name t)).
  { unfold listen in Hlisten.
    destruct (ExpandResource context (listen_Source request)) as [source|] eqn:Hexp;
      [|discriminate].
    destruct (listen_registered s _); [discriminate|].
    destruct (NewServiceForURL _ _) as [service|]; [|discriminate].
    pose proof (readLogFiles_tailers s context service (listen_Source request)
                  (listen_Types request)) as Hread.
    destruct (readLogFiles _ _ _ _ _) as [s1 [logTypeMetas|e|]]; [|discriminate..].
    cbn [fst] in Hread.
    destruct (listen_install_spec (listen_Types request) s1 source logTypeMetas)
      as (Ht & _ & _ & Hall).
    destruct (listen_install s1 source (listen_Types request) logTypeMetas) as [s2 metas2].
    cbn [fst snd] in Ht, Hall.
    unfold listenForChanges in Hlisten. rewrite Hexp in Hlisten.
    destruct (getStorageService context source); [|discriminate].
    injection Hlisten as <- <-. cbn [tailers metas listen_Meta].
    split; [congruence|exact Hall]. }
  destruct Hmain as [Htail Hall]. split; [exact Htail|]. split; [exact Hall|].
  intros t context' request' Hin Hin'. unfold listen.
  destruct (ExpandResource context' (listen_Source request')) as [source|]; [|eauto].
  destruct (listen_registered_found s' _ t Hin' (proj1 (Hall t Hin))) as [name ->]. eauto.
Qed.

(** A [listen] that returns an error has started no tailer. *)
Theorem listen_error_starts_no_tailer (s : logValidatorService) (context : Context)
    (request : LogValidatorListenRequest) :
  match snd (listen s context request) with
  | Ok _ => tailers (fst (listen s context request)) = tailers s ++ [request]
  | Err _ => tailers (fst (listen s context request)) = tailers s
  | Panic => True
  end.
Proof.
  unfold listen.
  destruct (ExpandResource context (listen_Source request)) as [source|] eqn:Hexp;
    [|reflexivity].
  destruct (listen_registered s _); [reflexivity|].
  destruct (NewServiceForURL _ _) as [service|]; [|reflexivity].
  pose proof (readLogFiles_tailers s context service (listen_Source request)
                (listen_Types request)) as Hread.
  destruct (readLogFiles _ _ _ _ _) as [s1 [logTypeMetas|e|]]; cbn [fst snd] in *;
    [|exact Hread|exact I].
  destruct (listen_install_spec (listen_Types request) s1 source logTypeMetas)
    as (Ht & _).
  destruct (listen_install s1 source (listen_Types request) logTypeMetas) as [s2 metas2].
  cbn [fst] in Ht.
  unfold listenForChanges. rewrite Hexp.
  destruct (getStorageService context source); cbn [fst snd tailers]; congruence.
Qed.

(** An [assert] whose first group names a type that is not registered returns
    the "unknown type" error, with no wait, and changes neither the service
    nor the context. *)
Theorem assert_unknown_type (s : logValidatorService) (context : Context)
    (request : LogValidatorAssertRequest) (group : ExpectedLogRecord)
    (rest : list ExpectedLogRecord) :
  assert_ExpectedLogRecords request = group :: rest →
  metas s !! logTypeMetaKey (exp_Type group) = None →
  assert s context request
  = (s, context,
     Err ("failed to assert, unknown type:" +:+ exp_Type group
          +:+ ", please call listen function with requested log type")).
Proof.
  intros Hgroups Hmeta. unfold assert. rewrite Hgroups. cbn [length].
  destruct (Z.eqb_spec (Z.of_nat (S (length rest))) 0) as [Hz|_]; [lia|].
  destruct (assert_LogWaitTimeMs request =? 0);
    cbn [assert_LogWaitRetryCount assert_LogWaitTimeMs assert_ExpectedLogRecords
         assert_Description];
    destruct (assert_LogWaitRetryCount request =? 0);
    cbn [assert_LogWaitRetryCount assert_LogWaitTimeMs assert_ExpectedLogRecords
         assert_Description];
    rewrite ?Hgroups; cbn [assert_groups as_service]; unfold getLogTypeMeta;
    rewrite Hmeta; reflexivity.
Qed.

End ListenOutcome.

(** A first [listen] on a directory with no file. *)
Lemma listen_installs_witness :
  let request := mkListenRequest 0 (mkResource "mem://logs" "") [Scenario.indexedType] in
  let installed := NewLogTypeMeta (mkResource "mem://logs" "") Scenario.indexedType in
  let s' := mkLogValidatorService {["meta_event1" := installed]} 0 [request] in
  @listen Reference.logEnv (mkLogValidatorService ∅ 0 []) Scenario.context0 request
  = (s', Ok (mkListenResponse {["event1" := installed]}))
  ∧ ∃ err, @listen Reference.logEnv s' Scenario.context0 request = (s', Err err).
Proof.
  intros request installed s'.
  assert (Hfirst : @listen Reference.logEnv (mkLogValidatorService ∅ 0 []) Scenario.context0
                     request
                   = (s', Ok (mkListenResponse {["event1" := installed]})))
    by reflexivity.
  split; [exact Hfirst|].
  destruct (@listen_installs Reference.logEnv _ _ _ _ _ Hfirst) as (_ & _ & Hagain).
  apply (Hagain Scenario.indexedType); apply list_elem_of_here.
Defined.

(** An [assert] on a service with nothing registered. *)
Lemma assert_unknown_type_witness :
  ∃ err,
    @assert Reference.logEnv (mkLogValidatorService ∅ 0 []) Scenario.context0
            (mkAssertRequest "logs" 0 0 [mkExpectedLogRecord "tag1" "event1" [VString "id=A"]])
    = (mkLogValidatorService ∅ 0 [], Scenario.context0, Err err).
Proof.
  eexists.
  apply (@assert_unknown_type Reference.logEnv (mkLogValidatorService ∅ 0 [])
           Scenario.context0 _ (mkExpectedLogRecord "tag1" "event1" [VString "id=A"]) []);
    reflexivity.
Defined.

Section AssertQueued.
Context `{LogEnv}.





End AssertQueued.


(** ** The workflow runtime, further *)

Section WorkflowFurther.
Context `{WorkflowEnv}.

Lemma isTaskAllowed_entries_name (candidate : WorkflowTask) (tasks : list string) :
  fst (isTaskAllowed_entries candidate tasks) = true ↔ task_Name candidate ∈ tasks.
Proof.
  induction tasks as [|task rest IH].
  - cbn. split; [discriminate|]. intros Hin. apply elem_of_nil in Hin. contradiction.
  - cbn [isTaskAllowed_entries].
    assert (Hname : (if negb (Contains task "=")
                     then nth 0 (if negb (Contains task "=") then Split task "=" else []) ""
                     else task) = task).
    { destruct (Contains task "=") eqn:Hc; cbn [negb]; [reflexivity|].
      rewrite (Split_without_sep task "=" Hc). reflexivity. }
    rewrite Hname. destruct (String.eqb_spec task (task_Name candidate)) as [Heq|Hne].
    + cbn [fst]. split; [intros _; rewrite <- Heq; apply list_elem_of_here|reflexivity].
    + rewrite IH. split.
      * intros Hin. apply list_elem_of_further, Hin.
      * intros Hin. apply elem_of_cons in Hin as [Heq|Hin]; [congruence|exact Hin].
Qed.

(** [isTaskAllowed] allows a task exactly when the selector is empty, is
    ["*"], or has the task name, whole, among its comma-separated entries. *)
Theorem isTaskAllowed_by_name (candidate : WorkflowTask) (request : WorkflowRunRequest) :
  fst (isTaskAllowed candidate request) = true
  ↔ req_Tasks request = "" ∨ req_Tasks request = "*"
    ∨ task_Name candidate ∈ Split (req_Tasks request) ",".
Proof.
  unfold isTaskAllowed.
  destruct (String.eqb_spec (req_Tasks request) "") as [He|He]; cbn [orb].
  { split; auto. }
  destruct (String.eqb_spec (req_Tasks request) "*") as [Hs|Hs].
  { split; auto. }
  rewrite isTaskAllowed_entries_name. split; [auto|].
  intros [Hc|[Hc|Hc]]; [contradiction|contradiction|exact Hc].
Qed.

(** A task the selector does not name is skipped: [runTask] puts the task
    under [:task] and returns no error, without applying [Init], evaluating
    the run criteria or running an action. *)
Theorem runTask_unnamed_skipped (context : Context) (workflow : Workflow)
    (task : WorkflowTask) (request : WorkflowRunRequest) :
  req_Tasks request ≠ "" →
  req_Tasks request ≠ "*" →
  task_Name task ∉ Split (req_Tasks request) "," →
  runTask context workflow task request
  = (Put context ":task" (VStruct "WorkflowTask" [("Name", VString (task_Name task))]), None).
Proof.
  intros He Hs Hnot. unfold runTask.
  destruct (isTaskAllowed task request) as [taskAllowed allowed] eqn:Hallowed.
  destruct taskAllowed; [|reflexivity].
  assert (Ht : fst (isTaskAllowed task request) = true) by (rewrite Hallowed; reflexivity).
  apply isTaskAllowed_by_name in Ht as [Ht|[Ht|Ht]]; contradiction.
Qed.

(** The loop of [runTask] runs no asynchronous action and keeps their order:
    when it ends without error the actions it hands on are those collected
    before followed by the asynchronous actions of the task, in order; when it
    ends with an error, this is the error of a synchronous action of the task,
    behind "Failed to run action:" and the tag of the action. *)
Theorem runTask_actions_outcome (actions : list ServiceAction) (context : Context)
    (workflow : Workflow) (task : WorkflowTask) (hasAllowedActions : bool)
    (allowed : option (gmap Z bool)) (i : Z) (collected : list ServiceAction) :
  match runTask_actions context workflow task hasAllowedActions allowed i actions collected with
  | (_, asyncActions, None) =>
      asyncActions = collected ++ filter (λ action, act_Async action = true) actions
  | (_, _, Some e) =>
      ∃ action context' err,
        action ∈ actions ∧ act_Async action = false
        ∧ snd (runAction context' action) = Some err
        ∧ e = "Failed to run action:" +:+ act_Tag action +:+ " " +:+ err
  end.
Proof.
  revert context i collected. induction actions as [|action rest IH];
    intros context i collected.
  - cbn. rewrite app_nil_r. reflexivity.
  - cbn [runTask_actions]. destruct (act_Async action) eqn:Hasync.
    + match goal with
      | |- context [runTask_actions ?c workflow task hasAllowedActions allowed ?j rest ?acc] =>
          specialize (IH c j acc);
          destruct (runTask_actions c workflow task hasAllowedActions allowed j rest acc)
            as [[c' asyncActions] [e|]]
      end.
      * destruct IH as (a & c1 & err & Hin & Ha & Hrun & He).
        exists a, c1, err. split; [apply list_elem_of_further, Hin|auto].
      * rewrite IH, filter_cons_True by exact Hasync. rewrite <- app_assoc. reflexivity.
    + destruct (hasAllowedActions && negb (allowedAt allowed i)).
      * specialize (IH context (i + 1) collected).
        destruct (runTask_actions context workflow task hasAllowedActions allowed (i + 1)
                    rest collected) as [[c' asyncActions] [e|]].
        -- destruct IH as (a & c1 & err & Hin & Ha & Hrun & He).
           exists a, c1, err. split; [apply list_elem_of_further, Hin|auto].
        -- rewrite IH, filter_cons_False by (rewrite Hasync; discriminate). reflexivity.
      * destruct (runAction context action) as [c1 [err|]] eqn:Hrun.
        -- exists action, context, err. rewrite Hrun.
           split; [apply list_elem_of_here|auto].
        -- specialize (IH c1 (i + 1) collected).
           destruct (runTask_actions c1 workflow task hasAllowedActions allowed (i + 1)
                       rest collected) as [[c' asyncActions] [e|]].
           ++ destruct IH as (a & c2 & err & Hin & Ha & Hrun' & He).
              exists a, c2, err. split; [apply list_elem_of_further, Hin|auto].
           ++ rewrite IH, filter_cons_False by (rewrite Hasync; discriminate). reflexivity.
Qed.

(** A workflow that [Register] accepts is found again: [Workflow(name)]
    returns it, [HasWorkflow] is true, and [loadWorkflowIfNeeded] for its name
    loads nothing and leaves the service as it is. *)
Theorem Register_then_lookup (s : workflowService) (w : Workflow) :
  Validate w = None →
  lookupWorkflow (fst (Register s w)) (wf_Name w) = inl w
  ∧ HasWorkflow (fst (Register s w)) (wf_Name w) = true
  ∧ ∀ context URL,
      loadWorkflowIfNeeded (fst (Register s w)) context (wf_Name w) URL
      = (fst (Register s w), None).
Proof.
  intros Hv. unfold Register. rewrite Hv. cbn [fst].
  assert (Hl : registry (mkWorkflowService (<[wf_Name w := w]> (registry s)) (sessions s))
               !! wf_Name w = Some w) by apply lookup_insert_eq.
  split; [unfold lookupWorkflow; rewrite Hl; reflexivity|].
  split; [unfold HasWorkflow; rewrite Hl; apply bool_decide_eq_true_2; eauto|].
  intros context URL. apply (loadWorkflowIfNeeded_registered _ _ _ _ w Hl).
Qed.

(** [loadWorkflow] changes the registry only when it succeeds: the workflow it
    returns is valid and is the one [Workflow(name)] then finds; on an error,
    of the loader or of the validation, the service is as before. *)
Theorem loadWorkflow_outcome (s : workflowService) (context : Context) (source : Resource) :
  match loadWorkflow s context source with
  | (s', inl w) =>
      DaoLoad context source = inl w ∧ Validate w = None
      ∧ lookupWorkflow s' (wf_Name w) = inl w
      ∧ sessions s' = sessions s
  | (s', inr _) => s' = s
  end.
Proof.
  unfold loadWorkflow. destruct (DaoLoad context source) as [w|err]; [|reflexivity].
  unfold Register. destruct (Validate w) as [err|] eqn:Hv; [reflexivity|].
  split; [reflexivity|]. split; [exact Hv|]. split; [|reflexivity].
  unfold lookupWorkflow. cbn [registry]. rewrite lookup_insert_eq. reflexivity.
Qed.


Lemma Register_sessions (s : workflowService) (w : Workflow) :
  sessions (fst (Register s w)) = sessions s.
Proof. unfold Register. destruct (Validate w); reflexivity. Qed.

Lemma loadWorkflow_sessions (s : workflowService) (context : Context) (source : Resource) :
  sessions (fst (loadWorkflow s context source)) = sessions s.
Proof.
  unfold loadWorkflow. destruct (DaoLoad context source) as [w|err]; [|reflexivity].
  pose proof (Register_sessions s w) as Hr.
  destruct (Register s w) as [s' [err|]]; exact Hr.
Qed.

Lemma loadWorkflowIfNeeded_sessions (s : workflowService) (context : Context)
    (name URL : string) :
  sessions (fst (loadWorkflowIfNeeded s context name URL)) = sessions s.
Proof.
  unfold loadWorkflowIfNeeded. destruct (negb _); [|reflexivity].
  destruct (if String.eqb URL "" then _ else _) as [resource|]; [|reflexivity].
  pose proof (loadWorkflow_sessions s context resource) as Hl.
  destruct (loadWorkflow s context resource) as [s' [w|e]]; exact Hl.
Qed.

Lemma runWorkflow_sessions (s : workflowService) (context : Context)
    (request : WorkflowRunRequest) :
  sessions (fst (fst (runWorkflow s context request))) = sessions s.
Proof.
  unfold runWorkflow.
  set (upstream := if req_EnableLogging request then _ else context).
  pose proof (loadWorkflowIfNeeded_sessions s upstream (req_Name request)
                (req_WorkflowURL request)) as Hs.
  destruct (loadWorkflowIfNeeded s upstream (req_Name request) (req_WorkflowURL request))
    as [s1 [err|]]; cbn [fst snd] in *; [exact Hs|].
  destruct (lookupWorkflow s1 (req_Name request)) as [workflow|err]; cbn [fst snd];
    [|exact Hs].
  destruct (String.eqb (URL (wf_Source workflow)) ""); cbn [fst snd]; [exact Hs|].
  destruct (ApplyInPlace (wf_Init workflow) _) as [st [err|]]; cbn [fst snd]; [exact Hs|].
  destruct (runWorkflow_tasks _ workflow request (wf_Tasks workflow)) as [c [err|]];
    cbn [fst snd]; [exact Hs|].
  destruct (Apply (wf_Post workflow) _ _) as [data err]. exact Hs.
Qed.

(** [runWorkflow] returns a response or an error, never both and never
    neither; the response carries the session id of the caller's context. *)
Theorem runWorkflow_response_or_error (s : workflowService) (context : Context)
    (request : WorkflowRunRequest) :
  (∃ response,
     snd (runWorkflow s context request) = (Some response, None)
     ∧ resp_SessionID response = SessionID context)
  ∨ ∃ err, snd (runWorkflow s context request) = (None, Some err).
Proof.
  unfold runWorkflow.
  set (upstream := if req_EnableLogging request then _ else context).
  assert (Hsid : SessionID upstream = SessionID context)
    by (unfold upstream; destruct (req_EnableLogging request); reflexivity).
  destruct (loadWorkflowIfNeeded s upstream (req_Name request) (req_WorkflowURL request))
    as [s1 [err|]]; cbn [fst snd] in *; [eauto|].
  destruct (lookupWorkflow s1 (req_Name request)) as [workflow|err]; cbn [fst snd]; [|eauto].
  destruct (String.eqb (URL (wf_Source workflow)) ""); cbn [fst snd]; [eauto|].
  destruct (ApplyInPlace (wf_Init workflow) _) as [st [err|]]; cbn [fst snd]; [eauto|].
  destruct (runWorkflow_tasks _ workflow request (wf_Tasks workflow)) as [c [err|]];
    cbn [fst snd]; [eauto|].
  destruct (Apply (wf_Post workflow) _ _) as [data err]. cbn [fst snd].
  left. eexists. split; [reflexivity|exact Hsid].
Qed.

Lemma append_nonempty (a b : string) : a ≠ "" → a +:+ b ≠ "".
Proof. destruct a; [contradiction|]. intros _. rewrite append_cons. discriminate. Qed.

(** [Run] answers "ok" exactly when the operation behind the request returned
    no error, and "err" with a non-empty [Error] otherwise: a synchronous run
    by the error of [runWorkflow], whose response it passes on; a registration
    by [Validate]; a load by the error of [loadWorkflow]; any other request is
    refused.  An asynchronous run is answered "ok" with the session id before
    the workflow has run.  The session of the context is in the session table
    afterwards, and no session has left it. *)
Theorem Run_status (s : workflowService) (context : Context) (request : WorkflowRequest) :
  let started := fst (startSession s context) in
  let begun := BeginEvent context "request" [] in
  let response := snd (Run s context request) in
  ((Status response = "ok" ∧ Error response = "")
   ∨ (Status response = "err" ∧ Error response ≠ ""))
  ∧ match request with
    | RunRequest actualRequest =>
        if req_Async actualRequest
        then Status response = "ok"
             ∧ Response response
               = RunBody (Some (mkWorkflowRunResponse (SessionID begun) ∅))
             ∧ registry (fst (fst (Run s context request))) = registry s
        else (Status response = "ok"
              ↔ snd (snd (runWorkflow started begun actualRequest)) = None)
             ∧ Response response
               = RunBody (fst (snd (runWorkflow started begun actualRequest)))
    | RegisterRequest workflow =>
        (Status response = "ok" ↔ Validate workflow = None) ∧ Response response = NoBody
    | LoadRequest source =>
        Status response = "ok" ↔ ∃ workflow, Response response = LoadBody (Some workflow)
    | OtherRequest _ => Status response = "err" ∧ Response response = NoBody
    end
  ∧ SessionID context ∈ sessions (fst (fst (Run s context request)))
  ∧ sessions s ⊆ sessions (fst (fst (Run s context request))).
Proof.
  intros started begun response.
  assert (Hstart : SessionID context ∈ sessions started ∧ sessions s ⊆ sessions started
                   ∧ registry started = registry s).
  { unfold started, startSession. destruct (bool_decide_reflect (SessionID context ∈ sessions s));
      cbn [fst sessions registry]; [split; [assumption|split; [|reflexivity]]; set_solver|].
    split; [set_solver|split; [set_solver|reflexivity]]. }
  destruct Hstart as (Hin & Hsub & Hreg).
  unfold response, Run. fold begun.
  replace (startSession s context) with (started, snd (startSession s context))
    by (unfold started; destruct (startSession s context); reflexivity).
  destruct request as [actualRequest|workflow|source|type].
  - destruct (req_Async actualRequest) eqn:Hasync.
    + cbn. repeat split; auto.
    + pose proof (runWorkflow_sessions started begun actualRequest) as Hs.
      destruct (runWorkflow started begun actualRequest) as [[s' c'] [body [err|]]];
        cbn [fst snd] in Hs |- *.
      * rewrite (proj2 (String.eqb_neq _ _))
          by (rewrite ?append_assoc_bytes; apply append_nonempty; discriminate).
        cbn [negb fst snd Status Error Response]. rewrite Hs.
        split; [right; split; [reflexivity|]|].
        { rewrite ?append_assoc_bytes. apply append_nonempty. discriminate. }
        split; [|auto]. split; [|reflexivity]. split; discriminate.
      * cbn. rewrite Hs. repeat split; auto.
  - pose proof (Register_sessions started workflow) as Hs.
    unfold Register in Hs |- *. destruct (Validate workflow) as [err|]; cbn [fst snd] in Hs |- *.
    + rewrite (proj2 (String.eqb_neq _ _))
        by (rewrite ?append_assoc_bytes; apply append_nonempty; discriminate).
      cbn [negb fst snd Status Error Response sessions].
      split; [right; split; [reflexivity|]|].
      { rewrite ?append_assoc_bytes. apply append_nonempty. discriminate. }
      split; [|auto]. split; [|reflexivity]. split; discriminate.
    + cbn. repeat split; auto.
  - pose proof (loadWorkflow_sessions started begun source) as Hs.
    assert (Herr : ∀ s' e, loadWorkflow started begun source = (s', inr e) → e ≠ "").
    { unfold loadWorkflow. intros s' e.
      destruct (DaoLoad begun source) as [w|err].
      - destruct (Register started w) as [s1 [err|]]; intros Heq; [|discriminate].
        injection Heq as _ <-. rewrite ?append_assoc_bytes. apply append_nonempty. discriminate.
      - intros Heq. injection Heq as _ <-.
        rewrite ?append_assoc_bytes. apply append_nonempty. discriminate. }
    destruct (loadWorkflow started begun source) as [s' [w|e]]; cbn [fst snd] in Hs |- *.
    + cbn. rewrite Hs. repeat split; eauto.
    + specialize (Herr s' e eq_refl).
      rewrite (proj2 (String.eqb_neq _ _)) by exact Herr.
      cbn [negb fst snd Status Error Response]. rewrite Hs.
      split; [right; split; [reflexivity|exact Herr]|].
      split; [|auto]. split; [discriminate|]. intros (w & Hw). discriminate.
  - rewrite (proj2 (String.eqb_neq _ _)) by (apply append_nonempty; discriminate).
    cbn [negb fst snd Status Error Response].
    split; [right; split; [reflexivity|apply append_nonempty; discriminate]|].
    split; [split; reflexivity|auto].
Qed.

End WorkflowFurther.

Lemma runTask_unnamed_skipped_witness :
  @runTask Reference.workflowEnv Scenario.context0 Scenario.w2 Scenario.T1
    (Scenario.selector "T10,T2")
  = (Put Scenario.context0 ":task" (VStruct "WorkflowTask" [("Name", VString "T1")]), None).
Proof.
  apply (@runTask_unnamed_skipped Reference.workflowEnv Scenario.context0 Scenario.w2
           Scenario.T1 (Scenario.selector "T10,T2")).
  - discriminate.
  - discriminate.
  - vm_compute. intros Hin. apply elem_of_cons in Hin as [Heq|Hin]; [discriminate|].
    apply elem_of_cons in Hin as [Heq|Hin]; [discriminate|].
    apply elem_of_nil in Hin. exact Hin.
Defined.

Lemma Register_then_lookup_witness :
  let s := mkWorkflowService ∅ ∅ in
  @lookupWorkflow (fst (@Register Reference.workflowEnv s Scenario.w2)) "a" = inl Scenario.w2
  ∧ HasWorkflow (fst (@Register Reference.workflowEnv s Scenario.w2)) "a" = true
  ∧ ∀ context URL,
      @loadWorkflowIfNeeded Reference.workflowEnv
        (fst (@Register Reference.workflowEnv s Scenario.w2)) context "a" URL
      = (fst (@Register Reference.workflowEnv s Scenario.w2), None).
Proof.
  intros s. apply (@Register_then_lookup Reference.workflowEnv s Scenario.w2). reflexivity.
Defined.

(** ** Package [copy] *)

Section CopyProperties.
Context `{WorkflowEnv} `{CopyEnv}.

Lemma substituteWithMap_range_true (text : string) (entries : list (string * string)) :
  fst (substituteWithMap_range true text entries) = true.
Proof.
  revert text. induction entries as [|[k v] rest IH]; intros text; [reflexivity|].
  cbn [substituteWithMap_range]. destruct (Count text k =? 0); apply IH.
Qed.

Lemma substituteWithMap_range_false (text : string) (entries : list (string * string)) :
  (fst (substituteWithMap_range false text entries) = true
   ↔ ∃ k v, (k, v) ∈ entries ∧ Count text k ≠ 0)
  ∧ (fst (substituteWithMap_range false text entries) = false
     → snd (substituteWithMap_range false text entries) = text).
Proof.
  induction entries as [|[k v] rest [IHt IHf]].
  - cbn. split; [|reflexivity]. split; [discriminate|].
    intros (k & v & Hin & _). apply elem_of_nil in Hin. contradiction.
  - cbn [substituteWithMap_range negb].
    destruct (Z.eqb_spec (Count text k) 0) as [Hz|Hz].
    + split; [|exact IHf]. rewrite IHt. split.
      * intros (k' & v' & Hin & Hc). exists k', v'. split; [apply list_elem_of_further, Hin|exact Hc].
      * intros (k' & v' & Hin & Hc). apply elem_of_cons in Hin as [Heq|Hin].
        -- injection Heq as -> ->. contradiction.
        -- exists k', v'. auto.
    + rewrite substituteWithMap_range_true. split; [|discriminate].
      split; [|reflexivity]. intros _. exists k, v. split; [apply list_elem_of_here|exact Hz].
Qed.

(** Whatever the order of the range, [substituteWithMap] reports an update
    exactly when some key of the map occurs in the text it was given; when it
    reports none, the text it returns is that text. *)
Theorem substituteWithMap_updated_iff (text : string) (replaceMap : gmap string string)
    (entries : list (string * string)) :
  entries ≡ₚ map_to_list replaceMap →
  (fst (substituteWithMap_range false text entries) = true
   ↔ ∃ k v, replaceMap !! k = Some v ∧ Count text k ≠ 0)
  ∧ (fst (substituteWithMap_range false text entries) = false
     → snd (substituteWithMap_range false text entries) = text).
Proof.
  intros Hperm. destruct (substituteWithMap_range_false text entries) as [Ht Hf].
  split; [|exact Hf]. rewrite Ht. split.
  - intros (k & v & Hin & Hc). exists k, v. split; [|exact Hc].
    rewrite Hperm in Hin. apply elem_of_map_to_list in Hin. exact Hin.
  - intros (k & v & Hl & Hc). exists k, v. split; [|exact Hc].
    rewrite Hperm. apply elem_of_map_to_list. exact Hl.
Qed.

Lemma takeBytes_app (prefix rest : string) :
  takeBytes (String.length prefix) (prefix +:+ rest) = prefix.
Proof.
  induction prefix as [|c p IH]; [destruct rest; reflexivity|].
  rewrite append_cons. cbn [String.length takeBytes]. rewrite IH. reflexivity.
Qed.

(** [canExpand] never examines the last byte of a content of at most 100
    bytes: the verdict is that of [toolbox.IsPrintText] on the bytes before
    it. *)
Theorem canExpand_last_byte_unexamined (prefix : string) (b : ascii) :
  (String.length prefix < 100)%nat →
  canExpand (prefix +:+ String b "") = IsPrintText prefix.
Proof.
  intros Hlen. unfold canExpand.
  assert (Hl : len (prefix +:+ String b "") = Z.of_nat (String.length prefix) + 1).
  { unfold len. rewrite length_append_bytes. cbn [String.length]. lia. }
  rewrite Hl.
  destruct (Z.eqb_spec (Z.of_nat (String.length prefix) + 1) 0) as [Hz|_]; [lia|].
  destruct (Z.geb_spec 100 (Z.of_nat (String.length prefix) + 1)) as [_|Hlt]; [|lia].
  replace (Z.to_nat (Z.of_nat (String.length prefix) + 1 - 1)) with (String.length prefix) by lia.
  rewrite takeBytes_app. reflexivity.
Qed.

(** Of a content of more than 100 bytes [canExpand] examines the first 100
    only. *)
Theorem canExpand_first_hundred (head rest : string) :
  String.length head = 100%nat →
  rest ≠ "" →
  canExpand (head +:+ rest) = IsPrintText head.
Proof.
  intros Hlen Hrest. unfold canExpand.
  assert (Hl : len (head +:+ rest) = 100 + Z.of_nat (String.length rest)).
  { unfold len. rewrite length_append_bytes, Hlen. lia. }
  assert (Hr : (0 < String.length rest)%nat).
  { destruct rest; [contradiction|cbn; lia]. }
  rewrite Hl.
  destruct (Z.eqb_spec (100 + Z.of_nat (String.length rest)) 0) as [Hz|_]; [lia|].
  destruct (Z.geb_spec 100 (100 + Z.of_nat (String.length rest))) as [Hge|_]; [lia|].
  change (Z.to_nat 100) with 100%nat. rewrite <- Hlen, takeBytes_app. reflexivity.
Qed.

(** When the matcher accepts the file and the reader can be read, the modifier
    closes the reader and returns a content together with the file info
    adjusted to the length of exactly that content; with [expand] off and no
    key of the map in the content, the content is the one read. *)
Theorem modifier_size_of_content (matchHandler : Match) (context : Context)
    (replaceMap : gmap string string) (expand : bool) (parent : string)
    (info : FileInfo) (content : string) :
  matchHandler "" info = true →
  ∃ result,
    modifier matchHandler context replaceMap expand parent info (Some (inl content))
    = mkModified (Some (AdjustInfoSize info (len result))) (Some (inl result)) None true
    ∧ (expand = false →
       (∀ k v, replaceMap !! k = Some v → Count content k = 0) →
       result = content).
Proof.
  intros Hmatch. unfold modifier. rewrite Hmatch. cbn [negb].
  set (expanded := if expand && canExpand content then _ else _).
  assert (Hexp : snd expanded = false → fst expanded = content).
  { unfold expanded. destruct (expand && canExpand content); cbn [fst snd]; [|reflexivity].
    intros Hn. apply negb_false_iff, String.eqb_eq in Hn. exact Hn. }
  assert (Hoff : expand = false → expanded = (content, false)).
  { intros ->. reflexivity. }
  destruct expanded as [result isUpdated]. cbn [fst snd] in Hexp.
  unfold substituteWithMap.
  destruct (substituteWithMap_range_false result (map_to_list replaceMap)) as [Ht Hf].
  destruct (substituteWithMap_range false result (map_to_list replaceMap))
    as [replaced substituted]. cbn [fst snd] in Ht, Hf.
  destruct replaced.
  - exists substituted. split; [reflexivity|]. intros He Hnone.
    injection (Hoff He) as -> ->.
    destruct (proj1 Ht eq_refl) as (k & v & Hl & Hc). elim Hc.
    apply elem_of_map_to_list in Hl. eapply Hnone, Hl.
  - destruct isUpdated.
    + exists result. split; [reflexivity|]. intros He _. injection (Hoff He) as -> Habs.
      reflexivity.
    + exists content. split; [rewrite (Hexp eq_refl); reflexivity|reflexivity].
Qed.

(** Without a matcher, [NewModifier] gives a modifier that leaves every file
    of 131072 bytes or more as it is: same info, same reader, not read and not
    closed. *)
Theorem NewModifier_default_skips_large (context : Context)
    (replaceMap : gmap string string) (expand : bool) (parent : string)
    (info : FileInfo) (reader : ReadCloser) :
  131072 <= Size info →
  ∃ modify,
    NewModifier context None replaceMap expand = (Some modify, None)
    ∧ modify parent info (Some reader) = mkModified (Some info) (Some reader) None false.
Proof.
  intros Hsize. eexists. split; [reflexivity|].
  unfold modifier. destruct (Z.ltb_spec (Size info) maxExpandableContentSize) as [Hlt|_].
  - unfold maxExpandableContentSize in Hlt. lia.
  - reflexivity.
Qed.

End CopyProperties.

Lemma substituteWithMap_updated_iff_witness :
  let replaceMap : gmap string string := {["$name" := "endly"]} in
  (fst (@substituteWithMap_range CopyReference.copyEnv false "hello $name"
          (map_to_list replaceMap)) = true
   ↔ ∃ k v, replaceMap !! k = Some v ∧ @Count CopyReference.copyEnv "hello $name" k ≠ 0)
  ∧ (fst (@substituteWithMap_range CopyReference.copyEnv false "hello $name"
            (map_to_list replaceMap)) = false
     → snd (@substituteWithMap_range CopyReference.copyEnv false "hello $name"
              (map_to_list replaceMap)) = "hello $name").
Proof.
  intros replaceMap.
  apply (@substituteWithMap_updated_iff CopyReference.copyEnv "hello $name" replaceMap
           (map_to_list replaceMap)).
  reflexivity.
Defined.

Lemma canExpand_last_byte_unexamined_witness :
  @canExpand CopyReference.copyEnv ("ab" +:+ String (ascii_of_nat 0) "")
  = @IsPrintText CopyReference.copyEnv "ab".
Proof.
  apply (@canExpand_last_byte_unexamined CopyReference.copyEnv "ab" (ascii_of_nat 0)).
  cbn. lia.
Defined.

Lemma canExpand_first_hundred_witness :
  let head := "0123456789012345678901234567890123456789012345678901234567890123456789012345678901234567890123456789" in
  @canExpand CopyReference.copyEnv (head +:+ String (ascii_of_nat 0) "")
  = @IsPrintText CopyReference.copyEnv head.
Proof.
  intros head.
  apply (@canExpand_first_hundred CopyReference.copyEnv head (String (ascii_of_nat 0) "")).
  - reflexivity.
  - discriminate.
Defined.

Lemma modifier_size_of_content_witness :
  ∃ result,
    @modifier Reference.workflowEnv CopyReference.copyEnv (fun _ _ => true)
      Scenario.context0 {["$name" := "endly"]} false ""
      (CopyReference.mkFileInfo "a.txt" 11) (Some (inl "hello $name"))
    = mkModified
        (Some (@AdjustInfoSize CopyReference.copyEnv (CopyReference.mkFileInfo "a.txt" 11)
                 (len result)))
        (Some (inl result)) None true
    ∧ (false = false →
       (∀ k v, ({["$name" := "endly"]} : gmap string string) !! k = Some v
               → @Count CopyReference.copyEnv "hello $name" k = 0) →
       result = "hello $name").
Proof.
  apply (@modifier_size_of_content Reference.workflowEnv CopyReference.copyEnv
           (fun _ _ => true) Scenario.context0 {["$name" := "endly"]} false ""
           (CopyReference.mkFileInfo "a.txt" 11) "hello $name").
  reflexivity.
Defined.

Lemma NewModifier_default_skips_large_witness :
  ∃ modify,
    @NewModifier Reference.workflowEnv CopyReference.copyEnv Scenario.context0 None ∅ true
    = (Some modify, None)
    ∧ modify "" (CopyReference.mkFileInfo "big.bin" 131072) (Some (inl "x"))
      = @mkModified CopyReference.copyEnv
          (Some (CopyReference.mkFileInfo "big.bin" 131072)) (Some (inl "x")) None false.
Proof.
  apply (@NewModifier_default_skips_large Reference.workflowEnv CopyReference.copyEnv
           Scenario.context0 ∅ true "" (CopyReference.mkFileInfo "big.bin" 131072)
           (inl "x")).
  cbn. lia.
Defined.
